(** * RateLimiter: a token bucket over a wrapping tick counter

    Shallow embedding of [src/RateLimiter.h] and the properties of its
    admission algorithm.

    The class template [RateLimiter<Period, CallsPerPeriod>] is modelled by
    functions over an explicit limiter state and an explicit world (the tick
    counter, the latency of [delay] and the log of observable events).
    [unsigned long] and [unsigned int] values are integers of [Z] with the
    wrap-around of every arithmetic operation written out. *)

From Stdlib Require Import ZArith List Lia Bool.
Import ListNotations.
Open Scope Z_scope.

(** ** Instantiations *)

(** One instantiation of the template on one target: the widths of
    [unsigned long] ([DurationType], [TokenType]) and of [unsigned int], and
    the two template arguments. *)
Record Instantiation : Type := MkInstantiation {
  ULONG_BITS : Z;
  UINT_BITS : Z;
  Period : Z;
  CallsPerPeriod : Z
}.

(** The facts the C++ type system gives about an instantiation: [unsigned int]
    is no wider than [unsigned long], and the template arguments are values of
    [unsigned long]. *)
Definition wf_inst (I : Instantiation) : Prop :=
  0 < UINT_BITS I <= ULONG_BITS I /\
  0 <= Period I < 2 ^ ULONG_BITS I /\
  0 <= CallsPerPeriod I < 2 ^ ULONG_BITS I.

(** AVR boards (Uno, Mega): 32-bit [unsigned long], 16-bit [unsigned int]. *)
Definition avr (period calls : Z) : Instantiation :=
  MkInstantiation 32 16 period calls.

(** 32-bit boards (SAMD, ESP32): both types are 32 bits wide. *)
Definition arm32 (period calls : Z) : Instantiation :=
  MkInstantiation 32 32 period calls.

(** ** The world outside the limiter *)

(** A callable passed to [CallOrDrop] or [Call]: opaque to the limiter, it is
    identified by a tag and returns a value. *)
Record Fn (R : Type) : Type := MkFn {
  fn_tag : nat;
  fn_result : R
}.
Arguments MkFn {R} _ _.
Arguments fn_tag {R} _.
Arguments fn_result {R} _.

(** What the limiter does that can be seen from outside. *)
Inductive Event : Type :=
| Invoked (tag : nat)                   (* fn() ran *)
| DroppedCallback (cb : nat) (n : Z)    (* dropped_callback_(n) ran *)
| Rejected                              (* CallOrDrop returned false *)
| Delayed (d : Z).                      (* delay(d) was called *)

(** The world: the number of ticks since the time source started (not
    wrapped), how much longer than asked each coming [delay] will take, and
    the log of events, most recent first, each with the tick it happened at. *)
Record World : Type := MkWorld {
  ticks : Z;
  oversleep : list nat;
  trace : list (Z * Event)
}.

Definition log (e : Event) (w : World) : World :=
  MkWorld (ticks w) (oversleep w) ((ticks w, e) :: trace w).

(** Time passing between two operations of the limiter. *)
Definition elapse (d : Z) (w : World) : World :=
  MkWorld (ticks w + d) (oversleep w) (trace w).

Definition invoke {R : Type} (fn : Fn R) (w : World) : World :=
  log (Invoked (fn_tag fn)) w.

(** ** The limiter *)

(** The data members of the class.  [dropped_callback_] is a [std::function]:
    empty, or holding a callable, identified by a tag. *)
Record Limiter : Type := MkLimiter {
  bucket_ : Z;
  last_bucket_update_ : Z;
  dropped_calls_ : Z;
  dropped_callback_ : option nat
}.

(** The result of an operation: it returns a value in a new state and world,
    it divides by zero (undefined behaviour), or, for the loop of [Call], it
    is still waiting when the fuel runs out. *)
Inductive outcome (A : Type) : Type :=
| Done (a : A) (s : Limiter) (w : World)
| DivByZero
| Waiting.
Arguments Done {A} _ _ _.
Arguments DivByZero {A}.
Arguments Waiting {A}.

(** Modelled from the spec: [Arduino.h] is not among the sources; its [min]
    is the macro [((a)<(b)?(a):(b))]. *)
Definition min (a b : Z) : Z := if a <? b then a else b.

Section RateLimiter.

Variable I : Instantiation.

Definition ULONG_MAX : Z := 2 ^ ULONG_BITS I - 1.
Definition UINT_MAX : Z := 2 ^ UINT_BITS I - 1.

(** Conversion to [unsigned long] and to [unsigned int]: reduction modulo
    two to the width. *)
Definition to_ulong (x : Z) : Z := x mod 2 ^ ULONG_BITS I.
Definition to_uint (x : Z) : Z := x mod 2 ^ UINT_BITS I.

(** Modelled from the spec: [millis()] of [Arduino.h], the time source, "a
    zero-argument function returning the current tick count as a fixed-width
    unsigned integer, monotonically increasing except for defined wraparound
    at its maximum value". *)
Definition millis (w : World) : Z := to_ulong (ticks w).

(** Modelled from the spec: [delay()] of [Arduino.h], the suspend primitive,
    "a function taking a duration (ticks) and blocking the calling thread of
    control for at least that long": the ticks asked for, and the next
    oversleep of the world on top. *)
Definition delay (d : Z) (w : World) : World :=
  let w' := log (Delayed d) w in
  MkWorld (ticks w' + d + Z.of_nat (hd O (oversleep w')))
          (tl (oversleep w')) (trace w').

(** [RateLimiter()]. *)
Definition RateLimiter (w : World) : Limiter :=
  MkLimiter (CallsPerPeriod I) (millis w) 0 None.

Definition SetDroppedCallCallback (fn : option nat) (s : Limiter) : Limiter :=
  MkLimiter (bucket_ s) (last_bucket_update_ s) (dropped_calls_ s) fn.

Definition TimeNow (w : World) : Z := millis w.

Definition GetElapsedTime (s : Limiter) (w : World) : Z :=
  let now := TimeNow w in
  if now <? last_bucket_update_ s then
    to_ulong (to_ulong (ULONG_MAX - last_bucket_update_ s) + now)
  else
    to_ulong (now - last_bucket_update_ s).

(** [UpdateBucket()]: [None] when it divides by zero. *)
Definition UpdateBucket (s : Limiter) (w : World) : option Limiter :=
  let elapsed_time := GetElapsedTime s w in
  if Period I =? 0 then None else
  let new_tokens :=
    to_uint (to_ulong (elapsed_time * CallsPerPeriod I) / Period I) in
  let bucket1 := to_ulong (bucket_ s + new_tokens) in
  let bucket2 := min bucket1 (CallsPerPeriod I) in
  if CallsPerPeriod I =? 0 then None else
  Some (MkLimiter bucket2
          (to_ulong (last_bucket_update_ s
                     + to_ulong (new_tokens * Period I) / CallsPerPeriod I))
          (dropped_calls_ s) (dropped_callback_ s)).

(** [EstimateWaitTime()]: [None] when it divides by zero. *)
Definition EstimateWaitTime (s : Limiter) (w : World) : option Z :=
  if CallsPerPeriod I =? 0 then None else
  let time_per_token := Period I / CallsPerPeriod I in
  let elapsed_time := GetElapsedTime s w in
  if time_per_token >? elapsed_time then
    Some (to_ulong (time_per_token - elapsed_time))
  else
    Some 0.

Definition MaybeCallDroppedCallCallback (s : Limiter) (w : World)
  : Limiter * World :=
  match dropped_callback_ s with
  | Some cb =>
      if dropped_calls_ s >? 0 then
        (MkLimiter (bucket_ s) (last_bucket_update_ s) 0 (dropped_callback_ s),
         log (DroppedCallback cb (dropped_calls_ s)) w)
      else (s, w)
  | None => (s, w)
  end.

(** [--bucket_] and [++dropped_calls_]. *)
Definition take_token (s : Limiter) : Limiter :=
  MkLimiter (to_ulong (bucket_ s - 1)) (last_bucket_update_ s)
            (dropped_calls_ s) (dropped_callback_ s).

Definition count_drop (s : Limiter) : Limiter :=
  MkLimiter (bucket_ s) (last_bucket_update_ s)
            (to_uint (dropped_calls_ s + 1)) (dropped_callback_ s).

Definition CallOrDrop {R : Type} (fn : Fn R) (s : Limiter) (w : World)
  : outcome bool :=
  match UpdateBucket s w with
  | None => DivByZero
  | Some s1 =>
      if bucket_ s1 >? 0 then
        let (s2, w2) := MaybeCallDroppedCallCallback s1 w in
        let w3 := invoke fn w2 in
        Done true (take_token s2) w3
      else
        Done false (count_drop s1) (log Rejected w)
  end.

(** The loop [while (bucket_ == 0) { delay(EstimateWaitTime()); UpdateBucket(); }]
    of [Call], run for at most [fuel] iterations. *)
Fixpoint wait_for_token (fuel : nat) (s : Limiter) (w : World) : outcome unit :=
  if bucket_ s =? 0 then
    match fuel with
    | O => Waiting
    | S fuel' =>
        match EstimateWaitTime s w with
        | None => DivByZero
        | Some d =>
            let w1 := delay d w in
            match UpdateBucket s w1 with
            | None => DivByZero
            | Some s1 => wait_for_token fuel' s1 w1
            end
        end
    end
  else Done tt s w.

Definition Call {R : Type} (fuel : nat) (fn : Fn R) (s : Limiter) (w : World)
  : outcome R :=
  match UpdateBucket s w with
  | None => DivByZero
  | Some s1 =>
      match wait_for_token fuel s1 w with
      | Done _ s2 w2 =>
          let (s3, w3) := MaybeCallDroppedCallCallback s2 w2 in
          let s4 := take_token s3 in
          Done (fn_result fn) s4 (invoke fn w3)
      | DivByZero => DivByZero
      | Waiting => Waiting
      end
  end.

(** ** States and runs *)

(** Every data member holds a value of its type. *)
Definition in_range (s : Limiter) : Prop :=
  0 <= bucket_ s < 2 ^ ULONG_BITS I /\
  0 <= last_bucket_update_ s < 2 ^ ULONG_BITS I /\
  0 <= dropped_calls_ s < 2 ^ UINT_BITS I.

Definition bucket_bounded (s : Limiter) : Prop :=
  0 <= bucket_ s <= CallsPerPeriod I.

(** The world a limiter is constructed in: time is not negative and nothing
    has been logged. *)
Definition boot (w : World) : Prop := 0 <= ticks w /\ trace w = [].

(** The states a program can bring a limiter to, with the world they are
    reached in: construction, then any sequence of time passing, registering
    a callback, refills, and calls of [CallOrDrop] and [Call] that return. *)
Inductive reachable : Limiter -> World -> Prop :=
| reach_new : forall w,
    boot w -> reachable (RateLimiter w) w
| reach_elapse : forall s w d,
    reachable s w -> 0 <= d -> reachable s (elapse d w)
| reach_callback : forall s w cb,
    reachable s w -> reachable (SetDroppedCallCallback cb s) w
| reach_update : forall s w s',
    reachable s w -> UpdateBucket s w = Some s' -> reachable s' w
| reach_call_or_drop : forall (R : Type) (fn : Fn R) s w b s' w',
    reachable s w -> CallOrDrop fn s w = Done b s' w' -> reachable s' w'
| reach_call : forall (R : Type) (fn : Fn R) fuel s w r s' w',
    reachable s w -> Call fuel fn s w = Done r s' w' -> reachable s' w'.

(** A wait that ends after [k] more rounds at most: the counter has not
    wrapped since the last refill and does not wrap during the wait, nothing
    overflows in the refills, and the suspension of round [k] oversleeps by a
    tick at least (unless [CallsPerPeriod] divides [Period], when the first
    suspension is enough). *)
Definition plain_wait (k : nat) (s : Limiter) (w : World) : Prop :=
  let elapsed := GetElapsedTime s w in
  let d := Z.max (Period I / CallsPerPeriod I - elapsed) 0 in
  let over := Z.of_nat (list_sum (firstn (S k) (oversleep w))) in
  last_bucket_update_ s <= TimeNow w /\
  TimeNow w + d + over < 2 ^ ULONG_BITS I /\
  (1 <= Z.of_nat (nth k (oversleep w) O) \/
   Period I mod CallsPerPeriod I = 0) /\
  (elapsed + d + over) * CallsPerPeriod I < 2 ^ ULONG_BITS I /\
  (elapsed + d + over) * CallsPerPeriod I / Period I < 2 ^ UINT_BITS I.

(** What a limiter can still give out at tick [t], in units of one
    [Period]-th of a token: the tokens of the bucket, and the ticks since the
    last refill, each worth [CallsPerPeriod] units. *)
Definition credit (s : Limiter) (t : Z) : Z :=
  bucket_ s * Period I + (t - last_bucket_update_ s) * CallsPerPeriod I.

(** The most credit a refill leaves: a full bucket and less than a token. *)
Definition credit_cap : Z := CallsPerPeriod I * Period I + Period I - 1.

Definition capped_credit (s : Limiter) (t : Z) : Z :=
  Z.min (credit s t) credit_cap.

(** Up to tick [T] the counter has not wrapped and no refill overflows. *)
Definition no_overflow_until (T : Z) : Prop :=
  (T + 1) * CallsPerPeriod I < 2 ^ ULONG_BITS I /\
  T * CallsPerPeriod I / Period I < 2 ^ UINT_BITS I.

(** The last refill is not in the future, and neither is any logged event. *)
Definition timely (s : Limiter) (w : World) : Prop :=
  0 <= last_bucket_update_ s <= ticks w /\
  Forall (fun e => fst e <= ticks w) (trace w).

(** The distance from tick [a] to tick [b] on the wrapping counter. *)
Definition wrap_distance (a b : Z) : Z := (b - a) mod 2 ^ ULONG_BITS I.

End RateLimiter.

Arguments reach_new {I}.
Arguments reach_elapse {I}.
Arguments reach_callback {I}.
Arguments reach_update {I}.
Arguments reach_call_or_drop {I R}.
Arguments reach_call {I R}.

(** The number of [Invoked] events of a log. *)
Fixpoint invocations (tr : list (Z * Event)) : Z :=
  match tr with
  | [] => 0
  | (_, Invoked _) :: tr' => 1 + invocations tr'
  | _ :: tr' => invocations tr'
  end.

(** The number of [Rejected] events and of [DroppedCallback] events. *)
Fixpoint rejections (tr : list (Z * Event)) : Z :=
  match tr with
  | [] => 0
  | (_, Rejected) :: tr' => 1 + rejections tr'
  | _ :: tr' => rejections tr'
  end.

Fixpoint notifications (tr : list (Z * Event)) : Z :=
  match tr with
  | [] => 0
  | (_, DroppedCallback _ _) :: tr' => 1 + notifications tr'
  | _ :: tr' => notifications tr'
  end.

(** The calls rejected since the last call that was let through. *)
Fixpoint rejected_since_admission (tr : list (Z * Event)) : Z :=
  match tr with
  | [] => 0
  | (_, Rejected) :: tr' => 1 + rejected_since_admission tr'
  | (_, Invoked _) :: _ => 0
  | _ :: tr' => rejected_since_admission tr'
  end.

(** The calls rejected since the drop callback last ran. *)
Fixpoint pending_rejections (tr : list (Z * Event)) : Z :=
  match tr with
  | [] => 0
  | (_, Rejected) :: tr' => 1 + pending_rejections tr'
  | (_, DroppedCallback _ _) :: _ => 0
  | _ :: tr' => pending_rejections tr'
  end.

(** The calls let through at a tick [t] with [from <= t < from + len]. *)
Fixpoint granted_in (from len : Z) (tr : list (Z * Event)) : Z :=
  match tr with
  | [] => 0
  | (t, Invoked _) :: tr' =>
      (if (from <=? t) && (t <? from + len) then 1 else 0)
      + granted_in from len tr'
  | _ :: tr' => granted_in from len tr'
  end.

(** [k] calls of [CallOrDrop] in a row that all return [false], with time
    passing after each. *)
Inductive denied_run (I : Instantiation)
  : nat -> Limiter -> World -> Limiter -> World -> Prop :=
| denied_none : forall s w, denied_run I O s w s w
| denied_more : forall k (R : Type) (fn : Fn R) s w s1 w1 d s' w',
    CallOrDrop I fn s w = Done false s1 w1 ->
    0 <= d ->
    denied_run I k s1 (elapse d w1) s' w' ->
    denied_run I (S k) s w s' w'.

(** What the next refill makes of [e] ticks of elapsed time, in units of one
    [Period]-th of a token: the product [e * CallsPerPeriod] as an
    [unsigned long], of which the quotient by [Period] counts as an
    [unsigned int]. *)
Definition refill_worth (I : Instantiation) (e : Z) : Z :=
  to_ulong I (e * CallsPerPeriod I) mod (Period I * 2 ^ UINT_BITS I).

(** What a limiter can still give out with the counter as it reads in [w],
    whatever has wrapped, in units of one [Period]-th of a token: the tokens
    of the bucket, what the next refill makes of the elapsed time, and the
    tick [GetElapsedTime] leaves out while the counter reads below
    [last_bucket_update_]. *)
Definition wrap_credit (I : Instantiation) (s : Limiter) (w : World) : Z :=
  bucket_ s * Period I
  + refill_worth I (GetElapsedTime I s w)
  + (if TimeNow I w <? last_bucket_update_ s then CallsPerPeriod I else 0).

(** The most of it a refill leaves: a full bucket, less than a token, and
    the tick left out. *)
Definition wrap_credit_cap (I : Instantiation) : Z :=
  CallsPerPeriod I * Period I + Period I - 1 + CallsPerPeriod I.

(** The calls let through in the window of [len] ticks from [from] are
    covered by what the limiter could give out when the window opened and
    what time has added since. *)
Definition window_covered (I : Instantiation) (from len : Z) (s : Limiter)
    (w : World) : Prop :=
  let n := granted_in from len (trace w) in
  (ticks w < from + len ->
   n * Period I + Z.min (wrap_credit I s w) (wrap_credit_cap I)
   <= wrap_credit_cap I + Z.max 0 (ticks w - from) * CallsPerPeriod I) /\
  n * Period I <= wrap_credit_cap I + (len - 1) * CallsPerPeriod I.

(** The invariant of a run behind the bound on the rate, wraps and overflows
    included. *)
Definition steady (I : Instantiation) (from len : Z) (s : Limiter)
    (w : World) : Prop :=
  in_range I s /\ bucket_bounded I s /\
  Forall (fun e => fst e <= ticks w) (trace w) /\
  window_covered I from len s w.

(** A stretch of log in which nothing happened but calls of [delay]. *)
Definition only_delays (tr : list (Z * Event)) : Prop :=
  Forall (fun e => exists d, snd e = Delayed d) tr.

(** ** Callers and windows, for the further properties *)

(** A caller that calls [CallOrDrop(fn)] [n] times in a row, with no time
    passing in between, and collects what it returns. *)
Fixpoint CallOrDrop_times {R : Type} (I : Instantiation) (n : nat) (fn : Fn R)
    (s : Limiter) (w : World) : outcome (list bool) :=
  match n with
  | O => Done [] s w
  | S n' =>
      match CallOrDrop I fn s w with
      | Done b s1 w1 =>
          match CallOrDrop_times I n' fn s1 w1 with
          | Done bs s2 w2 => Done (b :: bs) s2 w2
          | DivByZero => DivByZero
          | Waiting => Waiting
          end
      | DivByZero => DivByZero
      | Waiting => Waiting
      end
  end.

(** A caller that calls [Call(fn)] [n] times in a row, each with [fuel]
    rounds of waiting at most, and collects what it returns. *)
Fixpoint Call_times {R : Type} (I : Instantiation) (n fuel : nat) (fn : Fn R)
    (s : Limiter) (w : World) : outcome (list R) :=
  match n with
  | O => Done [] s w
  | S n' =>
      match Call I fuel fn s w with
      | Done r s1 w1 =>
          match Call_times I n' fuel fn s1 w1 with
          | Done rs s2 w2 => Done (r :: rs) s2 w2
          | DivByZero => DivByZero
          | Waiting => Waiting
          end
      | DivByZero => DivByZero
      | Waiting => Waiting
      end
  end.

(** Every call of the drop callback in a log was made with a positive
    [unsigned int]. *)
Definition callbacks_positive (I : Instantiation) (tr : list (Z * Event))
  : Prop :=
  Forall (fun e => match snd e with
                   | DroppedCallback _ n => 0 < n < 2 ^ UINT_BITS I
                   | _ => True
                   end) tr.

(** The calls let through in the window of [len] ticks from [from] are paid
    for by the credit there was when the window opened and the credit time
    has added since. *)
Definition window_paid_for (I : Instantiation) (from len : Z) (s : Limiter)
    (w : World) : Prop :=
  let n := granted_in from len (trace w) in
  (ticks w < from + len ->
   n * Period I + capped_credit I s (ticks w)
   <= credit_cap I + Z.max 0 (ticks w - from) * CallsPerPeriod I) /\
  n * Period I <= credit_cap I + (len - 1) * CallsPerPeriod I.

Definition paced_for (I : Instantiation) (from len : Z) (s : Limiter)
    (w : World) : Prop :=
  in_range I s /\ bucket_bounded I s /\ timely s w /\
  window_paid_for I from len s w.

(** * Properties *)

(** ** Arithmetic of the unsigned types *)

Section Arithmetic.

Variable I : Instantiation.
Hypothesis WF : wf_inst I.

Lemma ulong_modulus_pos : 0 < 2 ^ ULONG_BITS I.
Proof. apply Z.pow_pos_nonneg; unfold wf_inst in WF; lia. Qed.

Lemma uint_modulus_pos : 0 < 2 ^ UINT_BITS I.
Proof. apply Z.pow_pos_nonneg; unfold wf_inst in WF; lia. Qed.

Lemma uint_le_ulong : 2 ^ UINT_BITS I <= 2 ^ ULONG_BITS I.
Proof. apply Z.pow_le_mono_r; unfold wf_inst in WF; lia. Qed.

Lemma to_ulong_range x : 0 <= to_ulong I x < 2 ^ ULONG_BITS I.
Proof. apply Z.mod_pos_bound, ulong_modulus_pos. Qed.

Lemma to_uint_range x : 0 <= to_uint I x < 2 ^ UINT_BITS I.
Proof. apply Z.mod_pos_bound, uint_modulus_pos. Qed.

Lemma to_ulong_small x : 0 <= x < 2 ^ ULONG_BITS I -> to_ulong I x = x.
Proof. apply Z.mod_small. Qed.

Lemma to_uint_small x : 0 <= x < 2 ^ UINT_BITS I -> to_uint I x = x.
Proof. apply Z.mod_small. Qed.

Lemma to_uint_le x : 0 <= x -> to_uint I x <= x.
Proof.
  intros Hx. unfold to_uint. apply Z.mod_le; [easy | apply uint_modulus_pos].
Qed.

Lemma to_ulong_le x : 0 <= x -> to_ulong I x <= x.
Proof.
  intros Hx. unfold to_ulong. apply Z.mod_le; [easy | apply ulong_modulus_pos].
Qed.

Lemma millis_range w : 0 <= millis I w < 2 ^ ULONG_BITS I.
Proof. apply to_ulong_range. Qed.

Lemma min_le_r a b : min a b <= b.
Proof. unfold min. destruct (Z.ltb_spec a b); lia. Qed.

Lemma min_le_l a b : min a b <= a.
Proof. unfold min. destruct (Z.ltb_spec a b); lia. Qed.

Lemma min_nonneg a b : 0 <= a -> 0 <= b -> 0 <= min a b.
Proof. unfold min. destruct (Z.ltb_spec a b); lia. Qed.

Lemma min_is_Zmin a b : min a b = Z.min a b.
Proof. unfold min. destruct (Z.ltb_spec a b); lia. Qed.

(** *** Elapsed time *)

(** Without a wrap, [GetElapsedTime] is the distance on the counter. *)
Lemma GetElapsedTime_not_wrapped s w :
  in_range I s ->
  last_bucket_update_ s <= TimeNow I w ->
  GetElapsedTime I s w = TimeNow I w - last_bucket_update_ s /\
  GetElapsedTime I s w = wrap_distance I (last_bucket_update_ s) (TimeNow I w).
Proof.
  intros (_ & Hl & _) Hle. unfold GetElapsedTime, wrap_distance.
  pose proof (millis_range w) as Hn. unfold TimeNow in *.
  destruct (Z.ltb_spec (millis I w) (last_bucket_update_ s)); [lia|].
  split; [apply to_ulong_small; lia | reflexivity].
Qed.

(** After a wrap, it is [ULONG_MAX - last + now], one tick short of the
    distance on the counter. *)
Lemma GetElapsedTime_wrapped s w :
  in_range I s ->
  TimeNow I w < last_bucket_update_ s ->
  GetElapsedTime I s w = ULONG_MAX I - last_bucket_update_ s + TimeNow I w /\
  GetElapsedTime I s w + 1 = wrap_distance I (last_bucket_update_ s) (TimeNow I w).
Proof.
  intros (_ & Hl & _) Hlt. unfold GetElapsedTime, wrap_distance.
  pose proof (millis_range w) as Hn. unfold TimeNow in *.
  pose proof ulong_modulus_pos as Hp.
  destruct (Z.ltb_spec (millis I w) (last_bucket_update_ s)); [|lia].
  unfold ULONG_MAX.
  rewrite (to_ulong_small (2 ^ ULONG_BITS I - 1 - last_bucket_update_ s)) by lia.
  rewrite to_ulong_small by lia.
  split; [reflexivity|].
  replace (millis I w - last_bucket_update_ s)
    with (millis I w - last_bucket_update_ s + 2 ^ ULONG_BITS I
          + (-1) * 2 ^ ULONG_BITS I) by ring.
  rewrite Z.mod_add by lia. rewrite Z.mod_small by lia. ring.
Qed.

Lemma GetElapsedTime_range s w :
  0 <= GetElapsedTime I s w < 2 ^ ULONG_BITS I.
Proof.
  unfold GetElapsedTime.
  destruct (_ <? _); apply to_ulong_range.
Qed.

Lemma GetElapsedTime_now s w :
  in_range I s -> TimeNow I w = last_bucket_update_ s ->
  GetElapsedTime I s w = 0.
Proof.
  intros Hr Heq.
  destruct (GetElapsedTime_not_wrapped s w Hr) as [-> _]; lia.
Qed.

End Arithmetic.

(** C1 (the code departs from the claim): the limiter is constructed on the
    last tick before the 32-bit counter wraps and asked for the elapsed time
    one tick later.  The counter reads 0, below [last_bucket_update_], the
    distance [(MAX_TICK - last_refill_tick) + now() + 1] is 1, and
    [GetElapsedTime] returns 0: it leaves out the [+ 1]. *)
Theorem GetElapsedTime_wrap_one_tick_short :
  let I := arm32 1000 5 in
  let w0 := MkWorld 4294967295 [] [] in
  let s := RateLimiter I w0 in
  let w1 := elapse 1 w0 in
  TimeNow I w1 < last_bucket_update_ s /\
  (ULONG_MAX I - last_bucket_update_ s) + TimeNow I w1 + 1 = 1 /\
  wrap_distance I (last_bucket_update_ s) (TimeNow I w1) = 1 /\
  GetElapsedTime I s w1 = 0.
Proof. vm_compute. repeat split. Qed.

(** ** The refill step *)

Section Refill.

Variable I : Instantiation.
Hypothesis WF : wf_inst I.

(** What [UpdateBucket] computes when it divides by nothing that is zero. *)
Lemma UpdateBucket_Some s w s' :
  UpdateBucket I s w = Some s' ->
  Period I <> 0 /\ CallsPerPeriod I <> 0 /\
  let new_tokens :=
    to_uint I (to_ulong I (GetElapsedTime I s w * CallsPerPeriod I) / Period I) in
  bucket_ s' = min (to_ulong I (bucket_ s + new_tokens)) (CallsPerPeriod I) /\
  last_bucket_update_ s' =
    to_ulong I (last_bucket_update_ s
                + to_ulong I (new_tokens * Period I) / CallsPerPeriod I) /\
  dropped_calls_ s' = dropped_calls_ s /\
  dropped_callback_ s' = dropped_callback_ s.
Proof.
  unfold UpdateBucket.
  destruct (Z.eqb_spec (Period I) 0); [discriminate|].
  destruct (Z.eqb_spec (CallsPerPeriod I) 0); [discriminate|].
  intros [= <-]. cbn. repeat split; assumption || reflexivity.
Qed.

Lemma UpdateBucket_defined s w :
  Period I <> 0 -> CallsPerPeriod I <> 0 ->
  exists s', UpdateBucket I s w = Some s'.
Proof.
  intros HP HC. unfold UpdateBucket.
  destruct (Z.eqb_spec (Period I) 0); [contradiction|].
  destruct (Z.eqb_spec (CallsPerPeriod I) 0); [contradiction|].
  eauto.
Qed.

Lemma UpdateBucket_in_range s w s' :
  UpdateBucket I s w = Some s' -> in_range I s -> in_range I s'.
Proof.
  intros H (Hb & Hl & Hd).
  apply UpdateBucket_Some in H as (_ & _ & Eb & El & Ed & _).
  unfold wf_inst in WF. unfold in_range. rewrite Eb, El, Ed.
  pose proof (to_ulong_range I WF) as Hr.
  repeat split; try apply Hr; try lia.
  - apply min_nonneg; [apply Hr | lia].
  - eapply Z.le_lt_trans; [apply min_le_l | apply Hr].
Qed.

Lemma UpdateBucket_bounded s w s' :
  UpdateBucket I s w = Some s' -> bucket_bounded I s'.
Proof.
  intros H. apply UpdateBucket_Some in H as (_ & _ & Eb & _).
  unfold wf_inst in WF. unfold bucket_bounded. rewrite Eb. split.
  - apply min_nonneg; [apply (to_ulong_range I WF) | lia].
  - apply min_le_r.
Qed.

End Refill.

(** A refill on the tick of the last refill returns the state it was given. *)
Lemma UpdateBucket_same_tick (I : Instantiation) s w :
  wf_inst I -> 0 < Period I -> 0 < CallsPerPeriod I ->
  in_range I s -> bucket_ s <= CallsPerPeriod I ->
  TimeNow I w = last_bucket_update_ s ->
  UpdateBucket I s w = Some s.
Proof.
  intros WF HP HC Hr Hb Hnow.
  assert (He : GetElapsedTime I s w = 0) by now apply GetElapsedTime_now.
  destruct Hr as (Hbr & Hlr & Hdr).
  pose proof (ulong_modulus_pos I WF) as Hm.
  pose proof (uint_modulus_pos I WF) as Hm'.
  unfold UpdateBucket. rewrite He.
  destruct (Z.eqb_spec (Period I) 0); [lia|].
  destruct (Z.eqb_spec (CallsPerPeriod I) 0); [lia|].
  rewrite Z.mul_0_l.
  assert (E0 : to_ulong I 0 = 0) by (apply Z.mod_0_l; lia).
  rewrite E0, Z.div_0_l by lia.
  assert (E1 : to_uint I 0 = 0) by (apply Z.mod_0_l; lia).
  rewrite E1, Z.mul_0_l, E0, Z.div_0_l, !Z.add_0_r by lia.
  rewrite !(to_ulong_small I) by lia.
  destruct s as [b l d cb]; cbn in *. f_equal. f_equal.
  unfold min. destruct (Z.ltb_spec b (CallsPerPeriod I)); lia.
Qed.

(** C10: when [now()] reads [last_bucket_update_], the refill step changes
    nothing: in a state whose members hold values of their types and whose
    bucket is at most [CallsPerPeriod], with both template arguments
    positive, [UpdateBucket] returns the state it was given. *)
Theorem UpdateBucket_zero_elapsed_identity (I : Instantiation) s w :
  wf_inst I -> 0 < Period I -> 0 < CallsPerPeriod I ->
  in_range I s -> bucket_ s <= CallsPerPeriod I ->
  TimeNow I w = last_bucket_update_ s ->
  UpdateBucket I s w = Some s /\
  (forall s', UpdateBucket I s w = Some s' ->
     bucket_ s' = bucket_ s /\
     last_bucket_update_ s' = last_bucket_update_ s /\
     dropped_calls_ s' = dropped_calls_ s).
Proof.
  intros WF HP HC Hr Hb Hnow.
  pose proof (UpdateBucket_same_tick I s w WF HP HC Hr Hb Hnow) as E.
  split; [exact E|].
  intros s' E'. rewrite E in E'. injection E' as <-. auto.
Qed.

Lemma UpdateBucket_zero_elapsed_identity_witness :
  UpdateBucket (arm32 1000 5) (MkLimiter 2 700 3 None) (MkWorld 700 [] [])
  = Some (MkLimiter 2 700 3 None).
Proof.
  apply (UpdateBucket_zero_elapsed_identity (arm32 1000 5)
           (MkLimiter 2 700 3 None) (MkWorld 700 [] []));
    unfold wf_inst, in_range; cbn; try lia; reflexivity.
Defined.

(** ** Admission *)

Lemma invocations_invoke (R : Type) (fn : Fn R) w :
  invocations (trace (invoke fn w)) = 1 + invocations (trace w).
Proof. reflexivity. Qed.

Section Admission.

Variable I : Instantiation.
Hypothesis WF : wf_inst I.

Lemma MaybeCallDroppedCallCallback_cases s w :
  (exists cb, dropped_callback_ s = Some cb /\ dropped_calls_ s > 0 /\
     MaybeCallDroppedCallCallback s w =
       (MkLimiter (bucket_ s) (last_bucket_update_ s) 0 (dropped_callback_ s),
        log (DroppedCallback cb (dropped_calls_ s)) w)) \/
  ((dropped_callback_ s = None \/ dropped_calls_ s <= 0) /\
     MaybeCallDroppedCallCallback s w = (s, w)).
Proof.
  unfold MaybeCallDroppedCallCallback.
  destruct (dropped_callback_ s) as [cb|]; [|right; auto].
  destruct (Z.gtb_spec (dropped_calls_ s) 0).
  - left. exists cb. repeat split; lia.
  - right. auto.
Qed.

(** The flush of the drop count leaves the bucket alone and invokes no [fn]. *)
Lemma MaybeCallDroppedCallCallback_frame s w s' w' :
  MaybeCallDroppedCallCallback s w = (s', w') ->
  bucket_ s' = bucket_ s /\
  last_bucket_update_ s' = last_bucket_update_ s /\
  dropped_callback_ s' = dropped_callback_ s /\
  ticks w' = ticks w /\ oversleep w' = oversleep w /\
  invocations (trace w') = invocations (trace w).
Proof.
  destruct (MaybeCallDroppedCallCallback_cases s w)
    as [(cb & _ & _ & ->) | (_ & ->)]; intros [= <- <-]; cbn; auto 10.
Qed.

Lemma MaybeCallDroppedCallCallback_in_range s w s' w' :
  MaybeCallDroppedCallCallback s w = (s', w') ->
  in_range I s -> in_range I s'.
Proof.
  destruct (MaybeCallDroppedCallCallback_cases s w)
    as [(cb & _ & _ & ->) | (_ & ->)]; intros [= <- <-]; auto.
  unfold in_range; cbn. intros (? & ? & ?).
  pose proof (uint_modulus_pos I WF). lia.
Qed.

Lemma take_token_bucket s :
  bucket_bounded I s -> bucket_ s <> 0 ->
  bucket_ (take_token I s) = bucket_ s - 1.
Proof.
  unfold bucket_bounded, take_token. cbn. intros Hb Hz.
  unfold wf_inst in WF. apply to_ulong_small; lia.
Qed.

Lemma take_token_in_range s : in_range I s -> in_range I (take_token I s).
Proof.
  unfold in_range, take_token. cbn. intros (_ & ? & ?).
  pose proof (to_ulong_range I WF (bucket_ s - 1)). auto.
Qed.

Lemma count_drop_in_range s : in_range I s -> in_range I (count_drop I s).
Proof.
  unfold in_range, count_drop. cbn. intros (? & ? & _).
  pose proof (to_uint_range I WF (dropped_calls_ s + 1)). auto.
Qed.

(** The two ways [CallOrDrop] returns. *)
Lemma CallOrDrop_Done (R : Type) (fn : Fn R) s w b s' w' :
  CallOrDrop I fn s w = Done b s' w' ->
  exists s1, UpdateBucket I s w = Some s1 /\
    ((b = true /\ bucket_ s1 > 0 /\
      exists s2 w2, MaybeCallDroppedCallCallback s1 w = (s2, w2) /\
                    s' = take_token I s2 /\ w' = invoke fn w2) \/
     (b = false /\ bucket_ s1 <= 0 /\
      s' = count_drop I s1 /\ w' = log Rejected w)).
Proof.
  unfold CallOrDrop.
  destruct (UpdateBucket I s w) as [s1|]; [|discriminate].
  intros H. exists s1. split; [reflexivity|].
  destruct (Z.gtb_spec (bucket_ s1) 0).
  - destruct (MaybeCallDroppedCallCallback s1 w) as [s2 w2].
    injection H as <- <- <-. left. repeat split; try lia. eauto.
  - injection H as <- <- <-. right. repeat split; lia.
Qed.

(** The loop of [Call] ends with a token in the bucket and leaves the drop
    count and the callback alone. *)
Lemma wait_for_token_Done fuel : forall s w u s' w',
  wait_for_token I fuel s w = Done u s' w' ->
  in_range I s -> bucket_bounded I s ->
  in_range I s' /\ bucket_bounded I s' /\ bucket_ s' <> 0 /\
  dropped_calls_ s' = dropped_calls_ s /\
  dropped_callback_ s' = dropped_callback_ s /\
  invocations (trace w') = invocations (trace w).
Proof.
  induction fuel as [|fuel IH]; intros s w u s' w'; cbn.
  - destruct (Z.eqb_spec (bucket_ s) 0); [discriminate|].
    intros [= _ <- <-]. auto 10.
  - destruct (Z.eqb_spec (bucket_ s) 0).
    + destruct (EstimateWaitTime I s w) as [d|]; [|discriminate].
      destruct (UpdateBucket I s (delay d w)) as [s1|] eqn:E; [|discriminate].
      intros H Hr Hb.
      apply IH in H as (? & ? & ? & Hd & Hc & Ht).
      * apply (UpdateBucket_Some I) in E as (_ & _ & _ & _ & Ed & Ec).
        unfold delay, log in Ht. cbn in Ht.
        split; [assumption|]. split; [assumption|]. split; [assumption|].
        repeat split; congruence.
      * eapply UpdateBucket_in_range; eauto.
      * eapply UpdateBucket_bounded; eauto.
    + intros [= _ <- <-]. auto 10.
Qed.

(** The way [Call] returns. *)
Lemma Call_Done (R : Type) (fn : Fn R) fuel s w r s' w' :
  Call I fuel fn s w = Done r s' w' ->
  exists s1 s2 w2 s3 w3,
    UpdateBucket I s w = Some s1 /\
    wait_for_token I fuel s1 w = Done tt s2 w2 /\
    MaybeCallDroppedCallCallback s2 w2 = (s3, w3) /\
    r = fn_result fn /\ s' = take_token I s3 /\ w' = invoke fn w3.
Proof.
  unfold Call.
  destruct (UpdateBucket I s w) as [s1|]; [|discriminate].
  destruct (wait_for_token I fuel s1 w) as [[] s2 w2| |] eqn:E2;
    try discriminate.
  destruct (MaybeCallDroppedCallCallback s2 w2) as [s3 w3] eqn:E3.
  intros [= <- <- <-]. exists s1, s2, w2, s3, w3. repeat split; assumption.
Qed.

(** Every reachable state holds values of the members' types and at most
    [CallsPerPeriod] tokens. *)
Lemma reachable_invariant s w :
  reachable I s w -> in_range I s /\ bucket_bounded I s.
Proof.
  induction 1 as [w Hw | s w d _ IH _ | s w cb _ IH | s w s' _ IH E
                 | R fn s w b s' w' _ IH E | R fn fuel s w r s' w' _ IH E].
  - unfold in_range, bucket_bounded, RateLimiter. cbn.
    pose proof (millis_range I WF w). pose proof (uint_modulus_pos I WF).
    unfold wf_inst in WF. lia.
  - assumption.
  - exact IH.
  - destruct IH. split;
      [eapply UpdateBucket_in_range | eapply UpdateBucket_bounded]; eauto.
  - destruct IH as [Hr Hb].
    apply CallOrDrop_Done in E as (s1 & E1 & [(_ & Hpos & s2 & w2 & E2 & -> & _)
                                            | (_ & _ & -> & _)]).
    + pose proof (UpdateBucket_in_range I WF _ _ _ E1 Hr) as Hr1.
      pose proof (UpdateBucket_bounded I WF _ _ _ E1) as Hb1.
      pose proof (MaybeCallDroppedCallCallback_frame _ _ _ _ E2) as (Eb & _).
      pose proof (MaybeCallDroppedCallCallback_in_range _ _ _ _ E2 Hr1) as Hr2.
      assert (Hb2 : bucket_bounded I s2)
        by (unfold bucket_bounded in *; rewrite Eb; exact Hb1).
      split; [now apply take_token_in_range|].
      unfold bucket_bounded. rewrite take_token_bucket by (auto; lia).
      unfold bucket_bounded in Hb2. lia.
    + pose proof (UpdateBucket_in_range I WF _ _ _ E1 Hr) as Hr1.
      pose proof (UpdateBucket_bounded I WF _ _ _ E1) as Hb1.
      split; [now apply count_drop_in_range | exact Hb1].
  - destruct IH as [Hr Hb].
    apply Call_Done in E as (s1 & s2 & w2 & s3 & w3 & E1 & E2 & E3 & _ & -> & _).
    pose proof (UpdateBucket_in_range I WF _ _ _ E1 Hr) as Hr1.
    pose proof (UpdateBucket_bounded I WF _ _ _ E1) as Hb1.
    apply wait_for_token_Done in E2 as (Hr2 & Hb2 & Hnz & _); auto.
    pose proof (MaybeCallDroppedCallCallback_frame _ _ _ _ E3) as (Eb & _).
    pose proof (MaybeCallDroppedCallCallback_in_range _ _ _ _ E3 Hr2) as Hr3.
    assert (Hb3 : bucket_bounded I s3)
      by (unfold bucket_bounded in *; rewrite Eb; exact Hb2).
    split; [now apply take_token_in_range|].
    unfold bucket_bounded. rewrite take_token_bucket by (auto; lia).
    unfold bucket_bounded in Hb3. lia.
Qed.

End Admission.

(** C2: in every state a limiter can be brought to -- constructed, after
    any refill, after any [CallOrDrop] and any [Call] that returned, with time
    passing and callbacks registered in between -- the bucket holds between 0
    and [CallsPerPeriod] tokens.  Every operation starts from such a state and
    ends in one. *)
Theorem bucket_within_capacity (I : Instantiation) s w :
  wf_inst I -> reachable I s w -> 0 <= bucket_ s <= CallsPerPeriod I.
Proof.
  intros WF H. apply (reachable_invariant I WF) in H as [_ Hb]. exact Hb.
Qed.

Lemma bucket_within_capacity_witness :
  0 <= bucket_ (MkLimiter 4 0 0 None) <= CallsPerPeriod (arm32 1000 5).
Proof.
  apply (bucket_within_capacity (arm32 1000 5) (MkLimiter 4 0 0 None)
           (MkWorld 0 [] [(0, Invoked 7)])).
  - unfold wf_inst; cbn; lia.
  - apply (reach_call_or_drop (MkFn 7%nat tt)
             (RateLimiter (arm32 1000 5) (MkWorld 0 [] [])) (MkWorld 0 [] [])
             true).
    + apply reach_new. unfold boot; cbn. split; [lia | reflexivity].
    + reflexivity.
Defined.

(** C4: [CallOrDrop] after its refill step.  With a token in the bucket it
    returns [true], [fn] has run once more (as the last thing that happened)
    and the bucket holds one token less.  With an empty bucket it returns
    [false], no [fn] has run, and [dropped_calls_] is one more (as an
    [unsigned int]: one more exactly, unless it was [UINT_MAX]).  An empty
    bucket stays empty through the refill when [now()] reads
    [last_bucket_update_], so a call is dropped then. *)
Theorem CallOrDrop_calls_or_drops (I : Instantiation) (R : Type) (fn : Fn R)
    s w s1 :
  wf_inst I -> in_range I s ->
  UpdateBucket I s w = Some s1 ->
  (bucket_ s1 > 0 ->
     exists s' w',
       CallOrDrop I fn s w = Done true s' w' /\
       bucket_ s' = bucket_ s1 - 1 /\
       hd_error (trace w') = Some (ticks w, Invoked (fn_tag fn)) /\
       invocations (trace w') = invocations (trace w) + 1) /\
  (bucket_ s1 = 0 ->
     exists s' w',
       CallOrDrop I fn s w = Done false s' w' /\
       bucket_ s' = 0 /\
       invocations (trace w') = invocations (trace w) /\
       dropped_calls_ s' = to_uint I (dropped_calls_ s + 1) /\
       (dropped_calls_ s < UINT_MAX I ->
        dropped_calls_ s' = dropped_calls_ s + 1)) /\
  (bucket_ s = 0 -> TimeNow I w = last_bucket_update_ s -> bucket_ s1 = 0).
Proof.
  intros WF Hr E1.
  pose proof (UpdateBucket_in_range I WF _ _ _ E1 Hr) as Hr1.
  pose proof (UpdateBucket_bounded I WF _ _ _ E1) as Hb1.
  pose proof (UpdateBucket_Some I _ _ _ E1) as (HP & HC & _ & _ & Ed & _).
  unfold CallOrDrop. rewrite E1. split; [|split].
  - intros Hpos. destruct (Z.gtb_spec (bucket_ s1) 0); [|lia].
    destruct (MaybeCallDroppedCallCallback s1 w) as [s2 w2] eqn:E2.
    apply MaybeCallDroppedCallCallback_frame in E2 as (Eb & _ & _ & Et & _ & Ei).
    exists (take_token I s2), (invoke fn w2). split; [reflexivity|].
    split; [|split].
    + unfold bucket_bounded in Hb1.
      rewrite take_token_bucket; unfold bucket_bounded; auto; lia.
    + cbn. rewrite Et. reflexivity.
    + rewrite invocations_invoke, Ei. lia.
  - intros Hz. destruct (Z.gtb_spec (bucket_ s1) 0); [lia|].
    exists (count_drop I s1), (log Rejected w). cbn. rewrite Ed.
    repeat split; auto.
    intros Hlt. apply (to_uint_small I). destruct Hr as (_ & _ & Hd).
    unfold UINT_MAX in Hlt. lia.
  - intros Hz Hnow. unfold wf_inst in WF.
    rewrite UpdateBucket_same_tick in E1; auto; try lia.
    congruence.
Qed.

Lemma CallOrDrop_calls_or_drops_witness :
  exists s' w',
    CallOrDrop (arm32 1000 5) (MkFn 1%nat tt)
      (MkLimiter 0 700 3 None) (MkWorld 700 [] []) = Done false s' w' /\
    bucket_ s' = 0 /\
    invocations (trace w') = invocations (@nil (Z * Event)) /\
    dropped_calls_ s' = to_uint (arm32 1000 5) (3 + 1) /\
    (3 < UINT_MAX (arm32 1000 5) -> dropped_calls_ s' = 3 + 1).
Proof.
  apply (CallOrDrop_calls_or_drops (arm32 1000 5) unit (MkFn 1%nat tt)
           (MkLimiter 0 700 3 None) (MkWorld 700 [] [])
           (MkLimiter 0 700 3 None)).
  - unfold wf_inst; cbn; lia.
  - unfold in_range; cbn; lia.
  - reflexivity.
  - reflexivity.
Defined.

(** ** Division by zero *)

Lemma UpdateBucket_zero_period (I : Instantiation) s w :
  Period I = 0 -> UpdateBucket I s w = None.
Proof. intros H. unfold UpdateBucket. rewrite H. reflexivity. Qed.

Lemma UpdateBucket_zero_calls (I : Instantiation) s w :
  CallsPerPeriod I = 0 -> UpdateBucket I s w = None.
Proof.
  intros H. unfold UpdateBucket. rewrite H.
  destruct (Period I =? 0); reflexivity.
Qed.

(** With a zero template argument every admission divides by zero. *)
Lemma zero_argument_divides (I : Instantiation) (R : Type) (fn : Fn R) fuel s w :
  Period I = 0 \/ CallsPerPeriod I = 0 ->
  CallOrDrop I fn s w = DivByZero /\ Call I fuel fn s w = DivByZero.
Proof.
  intros H. unfold CallOrDrop, Call.
  assert (E : UpdateBucket I s w = None)
    by (destruct H; [apply UpdateBucket_zero_period
                    | apply UpdateBucket_zero_calls]; assumption).
  rewrite E. split; reflexivity.
Qed.

Lemma wait_for_token_no_division (I : Instantiation) fuel : forall s w,
  Period I <> 0 -> CallsPerPeriod I <> 0 ->
  wait_for_token I fuel s w <> DivByZero.
Proof.
  induction fuel as [|fuel IH]; intros s w HP HC; cbn.
  - destruct (bucket_ s =? 0); discriminate.
  - destruct (bucket_ s =? 0); [|discriminate].
    unfold EstimateWaitTime.
    destruct (Z.eqb_spec (CallsPerPeriod I) 0); [contradiction|].
    destruct (_ >? _);
      match goal with
      | |- context [UpdateBucket I s ?w1] =>
          destruct (UpdateBucket_defined I s w1 HP HC) as [s1 ->]
      end; apply IH; assumption.
Qed.

(** With both template arguments positive no admission divides by zero. *)
Lemma positive_arguments_never_divide (I : Instantiation) (R : Type)
    (fn : Fn R) fuel s w :
  Period I <> 0 -> CallsPerPeriod I <> 0 ->
  CallOrDrop I fn s w <> DivByZero /\ Call I fuel fn s w <> DivByZero.
Proof.
  intros HP HC. unfold CallOrDrop, Call.
  destruct (UpdateBucket_defined I s w HP HC) as [s1 ->]. split.
  - destruct (_ >? _); [|discriminate].
    destruct (MaybeCallDroppedCallCallback s1 w). discriminate.
  - pose proof (wait_for_token_no_division I fuel s1 w HP HC) as H.
    destruct (wait_for_token I fuel s1 w) as [u s2 w2| |];
      [|contradiction|discriminate].
    destruct (MaybeCallDroppedCallCallback s2 w2). discriminate.
Qed.

(** C9, as claimed, fails: the constructor checks nothing.
    [RateLimiter<0,5>] and [RateLimiter<1000,0>] are constructed as any other
    limiter, with a bucket of [CallsPerPeriod] tokens, and their first
    refill, [CallOrDrop] or [Call] divides by zero. *)
Lemma zero_arguments_constructed_then_divide :
  RateLimiter (arm32 0 5) (MkWorld 0 [] []) = MkLimiter 5 0 0 None /\
  UpdateBucket (arm32 0 5) (MkLimiter 5 0 0 None) (MkWorld 0 [] []) = None /\
  CallOrDrop (arm32 0 5) (MkFn 1%nat tt) (MkLimiter 5 0 0 None)
    (MkWorld 0 [] []) = DivByZero /\
  Call (arm32 0 5) 1 (MkFn 1%nat tt) (MkLimiter 5 0 0 None)
    (MkWorld 0 [] []) = DivByZero /\
  RateLimiter (arm32 1000 0) (MkWorld 0 [] []) = MkLimiter 0 0 0 None /\
  UpdateBucket (arm32 1000 0) (MkLimiter 0 0 0 None) (MkWorld 0 [] []) = None /\
  CallOrDrop (arm32 1000 0) (MkFn 1%nat tt) (MkLimiter 0 0 0 None)
    (MkWorld 0 [] []) = DivByZero /\
  Call (arm32 1000 0) 1 (MkFn 1%nat tt) (MkLimiter 0 0 0 None)
    (MkWorld 0 [] []) = DivByZero.
Proof. repeat split. Qed.

(** C9, amended: construction rejects nothing: whatever the template
    arguments, the constructor returns a limiter with a bucket of
    [CallsPerPeriod] tokens.  No later operation (refill, estimate of the
    wait, [CallOrDrop], [Call]) divides by zero when [Period] and
    [CallsPerPeriod] are both different from zero, and every refill,
    [CallOrDrop] and [Call] does when one of them is zero. *)
Theorem division_by_zero_iff_zero_argument (I : Instantiation) :
  (forall w,
     RateLimiter I w = MkLimiter (CallsPerPeriod I) (millis I w) 0 None) /\
  (Period I <> 0 -> CallsPerPeriod I <> 0 ->
   forall s w,
     UpdateBucket I s w <> None /\
     EstimateWaitTime I s w <> None /\
     forall (R : Type) (fn : Fn R) fuel,
       CallOrDrop I fn s w <> DivByZero /\ Call I fuel fn s w <> DivByZero) /\
  (Period I = 0 \/ CallsPerPeriod I = 0 ->
   forall s w,
     UpdateBucket I s w = None /\
     forall (R : Type) (fn : Fn R) fuel,
       CallOrDrop I fn s w = DivByZero /\ Call I fuel fn s w = DivByZero).
Proof.
  split; [reflexivity|]. split.
  - intros HP HC s w. split; [|split].
    + destruct (UpdateBucket_defined I s w HP HC) as [s1 ->]. discriminate.
    + unfold EstimateWaitTime.
      destruct (Z.eqb_spec (CallsPerPeriod I) 0); [contradiction|].
      destruct (_ >? _); discriminate.
    + intros R fn fuel. now apply positive_arguments_never_divide.
  - intros H s w. split.
    + destruct H; [apply UpdateBucket_zero_period
                  | apply UpdateBucket_zero_calls]; assumption.
    + intros R fn fuel. now apply zero_argument_divides.
Qed.

Lemma division_by_zero_iff_zero_argument_witness :
  (CallOrDrop (arm32 1000 5) (MkFn 1%nat tt) (MkLimiter 5 0 0 None)
     (MkWorld 0 [] []) <> DivByZero /\
   Call (arm32 1000 5) 1 (MkFn 1%nat tt) (MkLimiter 5 0 0 None)
     (MkWorld 0 [] []) <> DivByZero) /\
  (CallOrDrop (arm32 0 5) (MkFn 1%nat tt) (MkLimiter 5 0 0 None)
     (MkWorld 0 [] []) = DivByZero /\
   Call (arm32 0 5) 1 (MkFn 1%nat tt) (MkLimiter 5 0 0 None)
     (MkWorld 0 [] []) = DivByZero).
Proof.
  split.
  - destruct (division_by_zero_iff_zero_argument (arm32 1000 5)) as (_ & H & _).
    apply (H ltac:(cbn; lia) ltac:(cbn; lia)
             (MkLimiter 5 0 0 None) (MkWorld 0 [] [])).
  - destruct (division_by_zero_iff_zero_argument (arm32 0 5)) as (_ & _ & H).
    apply (H (or_introl eq_refl) (MkLimiter 5 0 0 None) (MkWorld 0 [] [])).
Defined.

(** ** The amount credited by a refill *)

(** As long as nothing overflows -- the product [elapsed_time *
    CallsPerPeriod] is a value of [unsigned long], its quotient by [Period] a
    value of [unsigned int], the new bucket a value of [unsigned long] -- a
    refill adds [elapsed_time * CallsPerPeriod / Period] tokens, caps the
    bucket at [CallsPerPeriod] and moves [last_bucket_update_] on by
    [new_tokens * Period / CallsPerPeriod], modulo the width of the counter. *)
Lemma UpdateBucket_exact (I : Instantiation) s w :
  wf_inst I -> 0 < Period I -> 0 < CallsPerPeriod I -> in_range I s ->
  forall new_tokens,
    new_tokens = GetElapsedTime I s w * CallsPerPeriod I / Period I ->
    GetElapsedTime I s w * CallsPerPeriod I < 2 ^ ULONG_BITS I ->
    new_tokens < 2 ^ UINT_BITS I ->
    bucket_ s + new_tokens < 2 ^ ULONG_BITS I ->
    UpdateBucket I s w =
      Some (MkLimiter (Z.min (bucket_ s + new_tokens) (CallsPerPeriod I))
              (to_ulong I (last_bucket_update_ s
                           + new_tokens * Period I / CallsPerPeriod I))
              (dropped_calls_ s) (dropped_callback_ s)).
Proof.
  intros WF HP HC (Hb & Hl & Hd) n En Hprod Hn Hsum.
  pose proof (GetElapsedTime_range I WF s w) as He.
  set (e := GetElapsedTime I s w) in *.
  assert (Hec : 0 <= e * CallsPerPeriod I) by nia.
  assert (Hn0 : 0 <= n) by (subst n; apply Z.div_pos; lia).
  assert (HnP : n * Period I <= e * CallsPerPeriod I).
  { subst n. rewrite Z.mul_comm. apply Z.mul_div_le. lia. }
  unfold UpdateBucket. fold e.
  destruct (Z.eqb_spec (Period I) 0); [lia|].
  destruct (Z.eqb_spec (CallsPerPeriod I) 0); [lia|].
  rewrite (to_ulong_small I (e * CallsPerPeriod I)) by lia.
  rewrite <- En.
  rewrite (to_uint_small I n) by lia.
  rewrite (to_ulong_small I (bucket_ s + n)) by lia.
  rewrite (to_ulong_small I (n * Period I)) by nia.
  rewrite min_is_Zmin. reflexivity.
Qed.

(** C5 (the code departs from the claim): three refills of an empty bucket
    that credit nothing where [floor(elapsed * capacity / period)] is
    positive.

    - [RateLimiter<1000,5>], 32-bit [unsigned long], 858993460 ticks after the
      last refill: [elapsed_time * CallsPerPeriod] wraps to 4, and 0 tokens
      are credited instead of 4294967 (the bucket should be full); a call
      is dropped after ten days without one.
    - The same limiter, last refilled 100 ticks before the counter wraps and
      refilled 100 ticks after: 200 ticks have passed, worth one token;
      [GetElapsedTime] gives 199 and no token is credited.
    - [RateLimiter<1,1>] on AVR, 65536 ticks after the last refill: the
      quotient 65536 does not fit [unsigned int new_tokens], which becomes 0. *)
Theorem UpdateBucket_miscredits :
  (GetElapsedTime (arm32 1000 5) (MkLimiter 0 0 0 None)
     (MkWorld 858993460 [] []) = 858993460 /\
   858993460 * 5 / 1000 = 4294967 /\
   UpdateBucket (arm32 1000 5) (MkLimiter 0 0 0 None)
     (MkWorld 858993460 [] []) = Some (MkLimiter 0 0 0 None) /\
   CallOrDrop (arm32 1000 5) (MkFn 1%nat tt) (MkLimiter 0 0 0 None)
     (MkWorld 858993460 [] [])
   = Done false (MkLimiter 0 0 1 None)
       (MkWorld 858993460 [] [(858993460, Rejected)])) /\
  (wrap_distance (arm32 1000 5) 4294967196
     (TimeNow (arm32 1000 5) (MkWorld 4294967396 [] [])) = 200 /\
   200 * 5 / 1000 = 1 /\
   GetElapsedTime (arm32 1000 5) (MkLimiter 0 4294967196 0 None)
     (MkWorld 4294967396 [] []) = 199 /\
   UpdateBucket (arm32 1000 5) (MkLimiter 0 4294967196 0 None)
     (MkWorld 4294967396 [] []) = Some (MkLimiter 0 4294967196 0 None)) /\
  (GetElapsedTime (avr 1 1) (MkLimiter 0 0 0 None)
     (MkWorld 65536 [] []) = 65536 /\
   65536 * 1 / 1 = 65536 /\
   UpdateBucket (avr 1 1) (MkLimiter 0 0 0 None)
     (MkWorld 65536 [] []) = Some (MkLimiter 0 0 0 None)).
Proof. vm_compute. repeat split. Qed.

(** ** Accounting of dropped calls *)

Lemma only_delays_counts ds tr :
  only_delays ds ->
  invocations (ds ++ tr) = invocations tr /\
  rejections (ds ++ tr) = rejections tr /\
  notifications (ds ++ tr) = notifications tr /\
  pending_rejections (ds ++ tr) = pending_rejections tr.
Proof.
  induction 1 as [|[t e] ds [d Hd] _ IH]; [auto|].
  cbn in Hd. subst e. cbn. exact IH.
Qed.

Section Accounting.

Variable I : Instantiation.
Hypothesis WF : wf_inst I.

Lemma EstimateWaitTime_Some s w d :
  EstimateWaitTime I s w = Some d ->
  CallsPerPeriod I <> 0 /\
  d = Z.max (Period I / CallsPerPeriod I - GetElapsedTime I s w) 0.
Proof.
  unfold EstimateWaitTime.
  destruct (Z.eqb_spec (CallsPerPeriod I) 0); [discriminate|].
  pose proof (GetElapsedTime_range I WF s w) as He.
  destruct (Z.gtb_spec (Period I / CallsPerPeriod I) (GetElapsedTime I s w));
    intros [= <-]; split; auto; [|lia].
  rewrite to_ulong_small; [lia|].
  unfold wf_inst in WF. split; [lia|].
  assert (Period I / CallsPerPeriod I <= Period I); [|lia].
  destruct (Z_lt_le_dec (CallsPerPeriod I) 0).
  - lia.
  - apply Z.div_le_upper_bound; nia.
Qed.

(** The loop of [Call] logs nothing but calls of [delay], and time does not
    go back. *)
Lemma wait_for_token_world fuel : forall s w u s' w',
  wait_for_token I fuel s w = Done u s' w' ->
  ticks w <= ticks w' /\
  exists ds, trace w' = ds ++ trace w /\ only_delays ds.
Proof.
  induction fuel as [|fuel IH]; intros s w u s' w'; cbn.
  - destruct (bucket_ s =? 0); [discriminate|].
    intros [= _ _ <-]. split; [lia|]. exists []. split; [reflexivity|constructor].
  - destruct (bucket_ s =? 0).
    + destruct (EstimateWaitTime I s w) as [d|] eqn:Ew; [|discriminate].
      destruct (UpdateBucket I s (delay d w)) as [s1|]; [|discriminate].
      intros H. apply IH in H as (Ht & ds & Etr & Hds).
      apply EstimateWaitTime_Some in Ew as [_ Ed].
      cbn in Ht, Etr. split; [lia|].
      exists (ds ++ [(ticks w, Delayed d)]). split.
      * rewrite Etr, <- app_assoc. reflexivity.
      * apply Forall_app. split; [assumption|].
        constructor; [cbn; eauto | constructor].
    + intros [= _ _ <-]. split; [lia|]. exists []. split; [reflexivity|constructor].
Qed.

(** The drop count is the number of calls rejected since the callback last
    ran, as an [unsigned int]. *)
Lemma dropped_calls_pending s w :
  reachable I s w ->
  dropped_calls_ s = to_uint I (pending_rejections (trace w)).
Proof.
  pose proof (uint_modulus_pos I WF) as Hm.
  induction 1 as [w [_ Hw] | s w d _ IH _ | s w cb _ IH | s w s' _ IH E
                 | R fn s w b s' w' _ IH E | R fn fuel s w r s' w' Hs IH E].
  - cbn. rewrite Hw. reflexivity.
  - exact IH.
  - exact IH.
  - apply (UpdateBucket_Some I) in E as (_ & _ & _ & _ & -> & _). exact IH.
  - apply CallOrDrop_Done in E as (s1 & E1 & [(_ & _ & s2 & w2 & E2 & -> & ->)
                                            | (_ & _ & -> & ->)]);
      apply (UpdateBucket_Some I) in E1 as (_ & _ & _ & _ & Ed & Ec).
    + destruct (MaybeCallDroppedCallCallback_cases s1 w)
        as [(cb & _ & _ & E) | (_ & E)];
        rewrite E in E2; injection E2 as <- <-; cbn.
      * reflexivity.
      * congruence.
    + unfold count_drop, log. cbn [dropped_calls_ trace].
      change (pending_rejections ((ticks w, Rejected) :: trace w))
        with (1 + pending_rejections (trace w)).
      rewrite Ed, IH. unfold to_uint.
      rewrite Z.add_mod_idemp_l by lia. f_equal. lia.
  - apply Call_Done in E as (s1 & s2 & w2 & s3 & w3 & E1 & E2 & E3 & _ & -> & ->).
    pose proof (reachable_invariant I WF _ _ Hs) as [Hr Hb].
    pose proof (UpdateBucket_in_range I WF _ _ _ E1 Hr) as Hr1.
    pose proof (UpdateBucket_bounded I WF _ _ _ E1) as Hb1.
    apply (UpdateBucket_Some I) in E1 as (_ & _ & _ & _ & Ed & Ec).
    pose proof (wait_for_token_world _ _ _ _ _ _ E2) as (_ & ds & Etr & Hds).
    apply (wait_for_token_Done I WF) in E2 as (_ & _ & _ & Ed2 & _); auto.
    apply (only_delays_counts ds (trace w)) in Hds as (_ & _ & _ & Hp).
    destruct (MaybeCallDroppedCallCallback_cases s2 w2)
      as [(cb & _ & _ & E) | (_ & E)];
      rewrite E in E3; injection E3 as <- <-; cbn.
    + reflexivity.
    + rewrite Etr, Hp. congruence.
Qed.

(** A call that is let through leaves a drop count of zero when a callback is
    registered, and the drop count as it was when none is. *)
Lemma admission_drop_count s w s1 s2 w2 :
  in_range I s1 ->
  dropped_calls_ s1 = dropped_calls_ s ->
  dropped_callback_ s1 = dropped_callback_ s ->
  MaybeCallDroppedCallCallback s1 w = (s2, w2) ->
  dropped_calls_ (take_token I s2) =
    match dropped_callback_ s with
    | Some _ => 0
    | None => dropped_calls_ s
    end.
Proof.
  intros (_ & _ & Hd) Ed Ec E2.
  destruct (MaybeCallDroppedCallCallback_cases s1 w)
    as [(cb & Ecb & _ & E) | ([Ecb | Hz] & E)];
    rewrite E in E2; injection E2 as <- <-; cbn; rewrite <- Ec.
  - rewrite Ecb. reflexivity.
  - rewrite Ecb. exact Ed.
  - destruct (dropped_callback_ s1); lia.
Qed.

End Accounting.

(** A limiter with one call per ten ticks: constructed at tick 0, one call
    let through, one rejected at once, and one let through ten ticks later,
    all with no callback registered. *)
Lemma one_drop_then_call_reachable :
  reachable (arm32 10 1) (MkLimiter 0 10 1 None)
    (MkWorld 10 [] [(10, Invoked 1); (0, Rejected); (0, Invoked 1)]).
Proof.
  apply (reach_call_or_drop (MkFn 1%nat tt) (MkLimiter 0 0 1 None)
           (MkWorld 10 [] [(0, Rejected); (0, Invoked 1)]) true);
    [|reflexivity].
  apply (reach_elapse (MkLimiter 0 0 1 None)
           (MkWorld 0 [] [(0, Rejected); (0, Invoked 1)]) 10); [|lia].
  apply (reach_call_or_drop (MkFn 1%nat tt) (MkLimiter 0 0 0 None)
           (MkWorld 0 [] [(0, Invoked 1)]) false); [|reflexivity].
  apply (reach_call_or_drop (MkFn 1%nat tt)
           (RateLimiter (arm32 10 1) (MkWorld 0 [] [])) (MkWorld 0 [] []) true);
    [|reflexivity].
  apply reach_new. split; [cbn; lia | reflexivity].
Qed.

(** C7, as claimed, fails: with no callback registered a call that is let
    through does not reset [dropped_calls_].  Right after the second
    admission of the run above no call has been rejected since the last
    successful one, and [dropped_calls_] is 1. *)
Lemma dropped_calls_survive_admission :
  reachable (arm32 10 1) (MkLimiter 0 10 1 None)
    (MkWorld 10 [] [(10, Invoked 1); (0, Rejected); (0, Invoked 1)]) /\
  rejected_since_admission [(10, Invoked 1); (0, Rejected); (0, Invoked 1)] = 0 /\
  dropped_calls_ (MkLimiter 0 10 1 None) = 1.
Proof.
  split; [exact one_drop_then_call_reachable | split; reflexivity].
Qed.

(** C7, amended: in every reachable state [dropped_calls_] is, as an
    [unsigned int], the number of calls rejected since the drop callback last
    ran (since construction, if it never ran).  A call let through by
    [CallOrDrop] or [Call] leaves it at zero when a callback is registered,
    and leaves it as it was when none is. *)
Theorem dropped_calls_accounting (I : Instantiation) s w :
  wf_inst I -> reachable I s w ->
  dropped_calls_ s = to_uint I (pending_rejections (trace w)) /\
  (forall (R : Type) (fn : Fn R) s' w',
     CallOrDrop I fn s w = Done true s' w' ->
     dropped_calls_ s' =
       match dropped_callback_ s with
       | Some _ => 0
       | None => dropped_calls_ s
       end) /\
  (forall (R : Type) (fn : Fn R) fuel r s' w',
     Call I fuel fn s w = Done r s' w' ->
     dropped_calls_ s' =
       match dropped_callback_ s with
       | Some _ => 0
       | None => dropped_calls_ s
       end).
Proof.
  intros WF Hs. split; [now apply dropped_calls_pending|].
  pose proof (reachable_invariant I WF _ _ Hs) as [Hr Hb].
  split.
  - intros R fn s' w' E.
    apply CallOrDrop_Done in E as (s1 & E1 & [(_ & _ & s2 & w2 & E2 & -> & _)
                                            | (Hf & _)]); [|discriminate].
    pose proof (UpdateBucket_in_range I WF _ _ _ E1 Hr) as Hr1.
    apply (UpdateBucket_Some I) in E1 as (_ & _ & _ & _ & Ed & Ec).
    apply (admission_drop_count I s w s1 s2 w2); auto.
  - intros R fn fuel r s' w' E.
    apply Call_Done in E as (s1 & s2 & w2 & s3 & w3 & E1 & E2 & E3 & _ & -> & _).
    pose proof (UpdateBucket_in_range I WF _ _ _ E1 Hr) as Hr1.
    pose proof (UpdateBucket_bounded I WF _ _ _ E1) as Hb1.
    apply (UpdateBucket_Some I) in E1 as (_ & _ & _ & _ & Ed & Ec).
    apply (wait_for_token_Done I WF) in E2 as (Hr2 & _ & _ & Ed2 & Ec2 & _); auto.
    apply (admission_drop_count I s w2 s2 s3 w3); auto; congruence.
Qed.

Lemma dropped_calls_accounting_witness :
  dropped_calls_ (MkLimiter 0 10 1 None) =
    to_uint (arm32 10 1)
      (pending_rejections [(10, Invoked 1); (0, Rejected); (0, Invoked 1)]).
Proof.
  apply (dropped_calls_accounting (arm32 10 1) (MkLimiter 0 10 1 None)
           (MkWorld 10 [] [(10, Invoked 1); (0, Rejected); (0, Invoked 1)])).
  - unfold wf_inst; cbn; lia.
  - exact one_drop_then_call_reachable.
Defined.

(** ** The drop callback *)

Section DropCallback.

Variable I : Instantiation.
Hypothesis WF : wf_inst I.

(** A run of rejected calls adds their number to [dropped_calls_], as an
    [unsigned int], and runs no callback. *)
Lemma denied_run_counts k s w s' w' :
  denied_run I k s w s' w' ->
  in_range I s ->
  in_range I s' /\
  dropped_callback_ s' = dropped_callback_ s /\
  dropped_calls_ s' = to_uint I (dropped_calls_ s + Z.of_nat k) /\
  notifications (trace w') = notifications (trace w) /\
  invocations (trace w') = invocations (trace w).
Proof.
  pose proof (uint_modulus_pos I WF) as Hm.
  induction 1 as [s w | k R fn s w s1 w1 d s' w' E Hd _ IH]; intros Hr.
  - split; [assumption|]. split; [reflexivity|]. split; [|split; reflexivity].
    change (Z.of_nat 0) with 0.
    rewrite Z.add_0_r. symmetry. apply (to_uint_small I). apply Hr.
  - apply CallOrDrop_Done in E as (s0 & E0 & [(Hf & _) | (_ & _ & -> & ->)]);
      [discriminate|].
    pose proof (UpdateBucket_in_range I WF _ _ _ E0 Hr) as Hr0.
    apply (UpdateBucket_Some I) in E0 as (_ & _ & _ & _ & Ed & Ec).
    destruct IH as (Hr' & Ec' & Ed' & En & Ei);
      [now apply count_drop_in_range|].
    cbn in Ec', Ed', En, Ei.
    split; [assumption|]. split; [congruence|]. split; [|split; assumption].
    rewrite Ed', Ed. unfold to_uint.
    rewrite Z.add_mod_idemp_l by lia. f_equal. lia.
Qed.

(** What the flush and [fn] log when a callback is registered. *)
Lemma admission_with_callback (R : Type) (fn : Fn R) cb s w s' w' :
  in_range I s -> dropped_callback_ s = Some cb ->
  MaybeCallDroppedCallCallback s w = (s', w') ->
  dropped_calls_ (take_token I s') = 0 /\
  (dropped_calls_ s <> 0 ->
   trace (invoke fn w') =
     (ticks w, Invoked (fn_tag fn))
       :: (ticks w, DroppedCallback cb (dropped_calls_ s)) :: trace w) /\
  (dropped_calls_ s = 0 ->
   trace (invoke fn w') = (ticks w, Invoked (fn_tag fn)) :: trace w).
Proof.
  intros (_ & _ & Hd) Ecb E.
  destruct (MaybeCallDroppedCallCallback_cases s w)
    as [(cb' & Ecb' & Hpos & E') | ([Ecb' | Hz] & E')];
    rewrite E' in E; injection E as <- <-; cbn.
  - assert (cb' = cb) by congruence. subst cb'.
    repeat split; auto. lia.
  - congruence.
  - repeat split; auto; lia.
Qed.

End DropCallback.

Lemma one_more_drop_with_callback :
  denied_run (arm32 10 1) 1
    (SetDroppedCallCallback (Some 9%nat) (MkLimiter 0 10 1 None))
    (MkWorld 10 [] [(10, Invoked 1); (0, Rejected); (0, Invoked 1)])
    (MkLimiter 0 10 2 (Some 9%nat))
    (MkWorld 20 []
       [(10, Rejected); (10, Invoked 1); (0, Rejected); (0, Invoked 1)]).
Proof.
  apply (denied_more (arm32 10 1) 0 unit (MkFn 1%nat tt) _ _
           (MkLimiter 0 10 2 (Some 9%nat))
           (MkWorld 10 []
              [(10, Rejected); (10, Invoked 1); (0, Rejected); (0, Invoked 1)])
           10).
  - reflexivity.
  - lia.
  - apply denied_none.
Qed.

(** C6, as claimed, fails: the callback is registered after an earlier drop
    that no admission has reset (the run above); then one call is rejected
    and, ten ticks later, one is let through.  The callback runs once, right
    before [fn], with argument 2, not 1. *)
Lemma drop_callback_reports_earlier_drops :
  reachable (arm32 10 1)
    (SetDroppedCallCallback (Some 9%nat) (MkLimiter 0 10 1 None))
    (MkWorld 10 [] [(10, Invoked 1); (0, Rejected); (0, Invoked 1)]) /\
  denied_run (arm32 10 1) 1
    (SetDroppedCallCallback (Some 9%nat) (MkLimiter 0 10 1 None))
    (MkWorld 10 [] [(10, Invoked 1); (0, Rejected); (0, Invoked 1)])
    (MkLimiter 0 10 2 (Some 9%nat))
    (MkWorld 20 []
       [(10, Rejected); (10, Invoked 1); (0, Rejected); (0, Invoked 1)]) /\
  CallOrDrop (arm32 10 1) (MkFn 1%nat tt)
    (MkLimiter 0 10 2 (Some 9%nat))
    (MkWorld 20 []
       [(10, Rejected); (10, Invoked 1); (0, Rejected); (0, Invoked 1)])
  = Done true (MkLimiter 0 20 0 (Some 9%nat))
      (MkWorld 20 []
         [(20, Invoked 1); (20, DroppedCallback 9 2);
          (10, Rejected); (10, Invoked 1); (0, Rejected); (0, Invoked 1)]).
Proof.
  split; [|split].
  - apply reach_callback. exact one_drop_then_call_reachable.
  - exact one_more_drop_with_callback.
  - reflexivity.
Qed.

(** C6, amended: a callback is registered and [dropped_calls_] is [c]; then
    [k] calls of [CallOrDrop] in a row are rejected and the next call is let
    through, by [CallOrDrop] or by [Call].  No callback runs during the
    rejections.  On the call that is let through the callback runs once, right before
    [fn] (after the calls of [delay], for [Call]), with argument
    [(c + k) mod 2^UINT_BITS], unless that is zero, in which case it does not
    run; [dropped_calls_] is zero afterwards.  The argument is [k] when [c] is
    zero and [0 < k < 2^UINT_BITS]. *)
Theorem drop_callback_reports_pending (I : Instantiation) cb k s w s' w' :
  wf_inst I -> in_range I s ->
  dropped_callback_ s = Some cb ->
  denied_run I k s w s' w' ->
  notifications (trace w') = notifications (trace w) /\
  (dropped_calls_ s = 0 -> 0 < Z.of_nat k < 2 ^ UINT_BITS I ->
   to_uint I (dropped_calls_ s + Z.of_nat k) = Z.of_nat k) /\
  (forall (R : Type) (fn : Fn R) s'' w'',
     CallOrDrop I fn s' w' = Done true s'' w'' ->
     dropped_calls_ s'' = 0 /\
     trace w'' =
       (ticks w', Invoked (fn_tag fn))
         :: (if to_uint I (dropped_calls_ s + Z.of_nat k) =? 0 then []
             else [(ticks w', DroppedCallback cb
                                (to_uint I (dropped_calls_ s + Z.of_nat k)))])
         ++ trace w') /\
  (forall (R : Type) (fn : Fn R) fuel r s'' w'',
     Call I fuel fn s' w' = Done r s'' w'' ->
     dropped_calls_ s'' = 0 /\
     exists ds, only_delays ds /\
       trace w'' =
         (ticks w'', Invoked (fn_tag fn))
           :: (if to_uint I (dropped_calls_ s + Z.of_nat k) =? 0 then []
               else [(ticks w'', DroppedCallback cb
                                   (to_uint I (dropped_calls_ s + Z.of_nat k)))])
           ++ ds ++ trace w').
Proof.
  intros WF Hr Ecb Hrun.
  apply (denied_run_counts I WF) in Hrun as (Hr' & Ecb' & Ed' & En & _); auto.
  rewrite Ecb in Ecb'. rewrite <- Ed'.
  split; [assumption|]. split.
  { intros Hz Hk. rewrite Ed', Hz. apply (to_uint_small I). lia. }
  split.
  - intros R fn s'' w'' E.
    apply CallOrDrop_Done in E as (s1 & E1 & [(_ & _ & s2 & w2 & E2 & -> & ->)
                                            | (Hf & _)]); [|discriminate].
    pose proof (UpdateBucket_in_range I WF _ _ _ E1 Hr') as Hr1.
    apply (UpdateBucket_Some I) in E1 as (_ & _ & _ & _ & Ed & Ec).
    rewrite <- Ed.
    destruct (admission_with_callback I unit (MkFn (fn_tag fn) tt) cb s1 w' s2 w2)
      as (Hz & Hnz & Hzz); auto; [congruence|].
    split; [exact Hz|].
    destruct (Z.eqb_spec (dropped_calls_ s1) 0); [apply Hzz | apply Hnz]; auto.
  - intros R fn fuel r s'' w'' E.
    apply Call_Done in E as (s1 & s2 & w2 & s3 & w3 & E1 & E2 & E3 & _ & -> & ->).
    pose proof (UpdateBucket_in_range I WF _ _ _ E1 Hr') as Hr1.
    pose proof (UpdateBucket_bounded I WF _ _ _ E1) as Hb1.
    apply (UpdateBucket_Some I) in E1 as (_ & _ & _ & _ & Ed & Ec).
    pose proof (wait_for_token_world I WF _ _ _ _ _ _ E2) as (_ & ds & Etr & Hds).
    apply (wait_for_token_Done I WF) in E2 as (Hr2 & _ & _ & Ed2 & Ec2 & _); auto.
    destruct (admission_with_callback I unit (MkFn (fn_tag fn) tt) cb s2 w2 s3 w3)
      as (Hz & Hnz & Hzz); auto; [congruence|].
    split; [exact Hz|]. exists ds. split; [assumption|].
    pose proof (MaybeCallDroppedCallCallback_frame _ _ _ _ E3)
      as (_ & _ & _ & Et & _).
    replace (ticks (invoke fn w3)) with (ticks w2) by (cbn; lia).
    rewrite <- Ed, <- Ed2, <- Etr.
    destruct (Z.eqb_spec (dropped_calls_ s2) 0); [apply Hzz | apply Hnz]; auto.
Qed.

Lemma drop_callback_reports_pending_witness :
  dropped_calls_ (MkLimiter 0 20 0 (Some 9%nat)) = 0 /\
  [(20, Invoked 1); (20, DroppedCallback 9 2);
   (10, Rejected); (10, Invoked 1); (0, Rejected); (0, Invoked 1)]
  = (20, Invoked 1)
      :: (if to_uint (arm32 10 1) (1 + Z.of_nat 1) =? 0 then []
          else [(20, DroppedCallback 9
                       (to_uint (arm32 10 1) (1 + Z.of_nat 1)))])
      ++ [(10, Rejected); (10, Invoked 1); (0, Rejected); (0, Invoked 1)].
Proof.
  destruct (drop_callback_reports_pending (arm32 10 1) 9%nat 1
              (SetDroppedCallCallback (Some 9%nat) (MkLimiter 0 10 1 None))
              (MkWorld 10 [] [(10, Invoked 1); (0, Rejected); (0, Invoked 1)])
              (MkLimiter 0 10 2 (Some 9%nat))
              (MkWorld 20 []
                 [(10, Rejected); (10, Invoked 1); (0, Rejected);
                  (0, Invoked 1)]))
    as (_ & _ & H & _).
  - unfold wf_inst; cbn; lia.
  - unfold in_range; cbn; lia.
  - reflexivity.
  - exact one_more_drop_with_callback.
  - exact (H unit (MkFn 1%nat tt) (MkLimiter 0 20 0 (Some 9%nat))
             (MkWorld 20 []
                [(20, Invoked 1); (20, DroppedCallback 9 2);
                 (10, Rejected); (10, Invoked 1); (0, Rejected);
                 (0, Invoked 1)])
             eq_refl).
Defined.

(** ** The blocking call *)

Section Blocking.

Variable I : Instantiation.
Hypothesis WF : wf_inst I.

(** More fuel does not change the result of a loop that has ended. *)
Lemma wait_for_token_more_fuel fuel : forall fuel' s w u s' w',
  wait_for_token I fuel s w = Done u s' w' ->
  (fuel <= fuel')%nat ->
  wait_for_token I fuel' s w = Done u s' w'.
Proof.
  induction fuel as [|fuel IH]; intros fuel' s w u s' w'.
  - cbn. destruct (bucket_ s =? 0) eqn:Eb; [discriminate|].
    intros H _. destruct fuel'; cbn; rewrite Eb; exact H.
  - intros H Hle. destruct fuel' as [|fuel']; [lia|].
    cbn in *. destruct (bucket_ s =? 0); [|exact H].
    destruct (EstimateWaitTime I s w) as [d|]; [|discriminate].
    destruct (UpdateBucket I s (delay d w)) as [s1|]; [|discriminate].
    apply IH; [exact H | lia].
Qed.

Lemma Call_more_fuel (R : Type) (fn : Fn R) fuel fuel' s w r s' w' :
  Call I fuel fn s w = Done r s' w' ->
  (fuel <= fuel')%nat ->
  Call I fuel' fn s w = Done r s' w'.
Proof.
  unfold Call. destruct (UpdateBucket I s w) as [s1|]; [|discriminate].
  destruct (wait_for_token I fuel s1 w) as [[] s2 w2| |] eqn:E;
    try discriminate.
  intros H Hle.
  rewrite (wait_for_token_more_fuel _ _ _ _ _ _ _ E Hle). exact H.
Qed.

(** [GetElapsedTime] never exceeds the distance on the counter. *)
Lemma GetElapsedTime_le_distance s w :
  in_range I s ->
  GetElapsedTime I s w <= wrap_distance I (last_bucket_update_ s) (TimeNow I w).
Proof.
  intros Hr.
  destruct (Z_lt_le_dec (TimeNow I w) (last_bucket_update_ s)) as [Hlt | Hle].
  - destruct (GetElapsedTime_wrapped I WF s w Hr Hlt) as [_ <-]. lia.
  - destruct (GetElapsedTime_not_wrapped I WF s w Hr Hle) as [_ <-]. lia.
Qed.

(** The distance on the counter grows no faster than time. *)
Lemma wrap_distance_later a w w' :
  ticks w <= ticks w' ->
  wrap_distance I a (TimeNow I w')
  <= wrap_distance I a (TimeNow I w) + (ticks w' - ticks w).
Proof.
  intros Hle. pose proof (ulong_modulus_pos I WF) as Hm.
  unfold wrap_distance, TimeNow, millis, to_ulong.
  rewrite !Zminus_mod_idemp_l.
  replace (ticks w' - a) with ((ticks w - a) + (ticks w' - ticks w)) by ring.
  rewrite <- Z.add_mod_idemp_l by lia.
  pose proof (Z.mod_pos_bound (ticks w - a) _ Hm).
  apply Z.mod_le; lia.
Qed.

(** A refill of an empty bucket either leaves the state as it is, or credits
    a token, and then the elapsed time is worth one. *)
Lemma UpdateBucket_empty s w s1 :
  in_range I s -> bucket_ s = 0 ->
  UpdateBucket I s w = Some s1 ->
  s1 = s \/
  (bucket_ s1 > 0 /\ Period I <= GetElapsedTime I s w * CallsPerPeriod I).
Proof.
  intros Hr Hz E.
  pose proof (ulong_modulus_pos I WF) as Hm.
  pose proof (uint_le_ulong I WF) as Hle.
  pose proof (GetElapsedTime_range I WF s w) as He.
  pose proof (UpdateBucket_Some I _ _ _ E) as (HP & HC & Eb & El & Ed & Ec).
  assert (HP' : 0 < Period I) by (unfold wf_inst in WF; lia).
  assert (HC' : 0 < CallsPerPeriod I) by (unfold wf_inst in WF; lia).
  cbv zeta in Eb, El.
  set (q := to_ulong I (GetElapsedTime I s w * CallsPerPeriod I) / Period I) in *.
  pose proof (to_uint_range I WF q) as Hn.
  rewrite Hz, Z.add_0_l, (to_ulong_small I (to_uint I q)) in Eb by lia.
  destruct (Z.eq_dec (to_uint I q) 0) as [E0 | Hnz].
  - left. rewrite E0 in Eb, El.
    rewrite Z.mul_0_l in El.
    replace (to_ulong I 0) with 0 in El by (symmetry; apply Z.mod_0_l; lia).
    rewrite Z.div_0_l, Z.add_0_r, (to_ulong_small I) in El by (lia || apply Hr).
    unfold min in Eb. destruct (Z.ltb_spec 0 (CallsPerPeriod I)); [|lia].
    destruct s, s1; cbn in *. congruence.
  - right. split.
    + rewrite Eb. unfold min.
      destruct (Z.ltb_spec (to_uint I q) (CallsPerPeriod I)); lia.
    + assert (Hq0 : 0 <= q).
      { apply Z.div_pos; [apply (to_ulong_range I WF) | lia]. }
      pose proof (to_uint_le I WF q Hq0) as Hq.
      assert (Hq1 : 1 <= q) by lia.
      assert (Hp : Period I
                   <= to_ulong I (GetElapsedTime I s w * CallsPerPeriod I)).
      { pose proof (to_ulong_range I WF
                      (GetElapsedTime I s w * CallsPerPeriod I)) as Hu.
        destruct (Z_lt_le_dec
                    (to_ulong I (GetElapsedTime I s w * CallsPerPeriod I))
                    (Period I)) as [Hlt|]; [|assumption].
        unfold q in Hq1. rewrite Z.div_small in Hq1 by lia. lia. }
      pose proof (to_ulong_le I WF
                    (GetElapsedTime I s w * CallsPerPeriod I)). nia.
Qed.

(** Waiting on an empty bucket ends only when the time elapsed since the last
    refill is worth a token. *)
Lemma wait_for_token_empty fuel : forall s w u s' w',
  in_range I s -> bucket_ s = 0 ->
  wait_for_token I fuel s w = Done u s' w' ->
  Period I <= GetElapsedTime I s w' * CallsPerPeriod I.
Proof.
  induction fuel as [|fuel IH]; intros s w u s' w' Hr Hz; cbn; rewrite Hz; cbn.
  - discriminate.
  - destruct (EstimateWaitTime I s w) as [d|]; [|discriminate].
    destruct (UpdateBucket I s (delay d w)) as [s1|] eqn:E; [|discriminate].
    destruct (UpdateBucket_empty _ _ _ Hr Hz E) as [-> | [Hpos Hp]].
    + apply IH; assumption.
    + destruct fuel; cbn;
        (destruct (Z.eqb_spec (bucket_ s1) 0); [lia|]);
        intros [= _ _ <-]; exact Hp.
Qed.

Lemma EstimateWaitTime_value s w :
  CallsPerPeriod I <> 0 ->
  EstimateWaitTime I s w =
    Some (Z.max (Period I / CallsPerPeriod I - GetElapsedTime I s w) 0).
Proof.
  intros HC. destruct (EstimateWaitTime I s w) as [d|] eqn:E.
  - apply (EstimateWaitTime_Some I WF) in E as [_ ->]. reflexivity.
  - unfold EstimateWaitTime in E.
    destruct (Z.eqb_spec (CallsPerPeriod I) 0); [contradiction|].
    destruct (_ >? _); discriminate.
Qed.

Lemma TimeNow_delay d w :
  0 <= d ->
  TimeNow I w + d + Z.of_nat (hd O (oversleep w)) < 2 ^ ULONG_BITS I ->
  TimeNow I (delay d w) = TimeNow I w + d + Z.of_nat (hd O (oversleep w)).
Proof.
  intros Hd Hlt. pose proof (ulong_modulus_pos I WF) as Hm.
  pose proof (millis_range I WF w) as Hr.
  unfold TimeNow, millis, to_ulong in *. cbn.
  rewrite <- Z.add_assoc, <- Z.add_mod_idemp_l by lia.
  rewrite Z.mod_small by lia. ring.
Qed.

Lemma oversleep_sum k (l : list nat) :
  Z.of_nat (list_sum (firstn (S k) l))
  = Z.of_nat (hd O l) + Z.of_nat (list_sum (firstn k (tl l))).
Proof.
  destruct l as [|o l].
  - cbn [tl]. rewrite !firstn_nil. reflexivity.
  - change (firstn (S k) (o :: l)) with (o :: firstn k l). cbn [hd tl].
    change (list_sum (o :: firstn k l)) with (o + list_sum (firstn k l))%nat.
    lia.
Qed.

Lemma oversleep_nth k (l : list nat) : nth (S k) l O = nth k (tl l) O.
Proof. destruct l; [destruct k|]; reflexivity. Qed.

Lemma wait_for_token_ready fuel s w :
  bucket_ s <> 0 -> wait_for_token I fuel s w = Done tt s w.
Proof.
  intros H. destruct fuel; cbn;
    (destruct (Z.eqb_spec (bucket_ s) 0); [contradiction | reflexivity]).
Qed.

Lemma wait_for_token_round fuel s w :
  bucket_ s = 0 ->
  wait_for_token I (S fuel) s w =
    match EstimateWaitTime I s w with
    | None => DivByZero
    | Some d =>
        match UpdateBucket I s (delay d w) with
        | None => DivByZero
        | Some s1 => wait_for_token I fuel s1 (delay d w)
        end
    end.
Proof. intros Hz. cbn [wait_for_token]. rewrite Hz. reflexivity. Qed.

(** One round of the loop, with no wrap and no overflow: the suspension
    reaches the tick that [time_per_token] asks for, and the refill credits a
    token if the elapsed time is worth one and changes nothing if not. *)
Lemma wait_round s w :
  0 < Period I -> 0 < CallsPerPeriod I ->
  in_range I s -> bucket_ s = 0 ->
  last_bucket_update_ s <= TimeNow I w ->
  forall e d o,
    e = GetElapsedTime I s w ->
    d = Z.max (Period I / CallsPerPeriod I - e) 0 ->
    o = Z.of_nat (hd O (oversleep w)) ->
    TimeNow I w + d + o < 2 ^ ULONG_BITS I ->
    (e + d + o) * CallsPerPeriod I < 2 ^ ULONG_BITS I ->
    (e + d + o) * CallsPerPeriod I / Period I < 2 ^ UINT_BITS I ->
    EstimateWaitTime I s w = Some d /\
    TimeNow I (delay d w) = TimeNow I w + d + o /\
    GetElapsedTime I s (delay d w) = e + d + o /\
    Period I / CallsPerPeriod I <= e + d + o /\
    exists s1,
      UpdateBucket I s (delay d w) = Some s1 /\
      ((Period I <= (e + d + o) * CallsPerPeriod I /\ bucket_ s1 > 0) \/
       ((e + d + o) * CallsPerPeriod I < Period I /\ s1 = s)).
Proof.
  intros HP HC Hr Hz Hnw e d o Ee Ed Eo Hfit Hmul Hquot.
  pose proof (GetElapsedTime_range I WF s w) as He. rewrite <- Ee in He.
  assert (Hd : 0 <= d) by lia.
  assert (Ho : 0 <= o) by lia.
  rewrite Eo in Hfit.
  pose proof (TimeNow_delay d w Hd Hfit) as Enow.
  rewrite <- Eo in Hfit, Enow.
  assert (Ee1 : GetElapsedTime I s (delay d w) = e + d + o).
  { destruct (GetElapsedTime_not_wrapped I WF s w Hr Hnw) as [Ee0 _].
    destruct (GetElapsedTime_not_wrapped I WF s (delay d w) Hr) as [-> _]; lia. }
  split; [rewrite EstimateWaitTime_value by lia; congruence|].
  split; [exact Enow|]. split; [exact Ee1|]. split; [lia|].
  destruct (UpdateBucket_defined I s (delay d w)) as [s1 E1]; [lia | lia |].
  exists s1. split; [exact E1|].
  destruct (Z_le_gt_dec (Period I) ((e + d + o) * CallsPerPeriod I))
    as [Hworth | Hshort].
  - left. split; [exact Hworth|].
    assert (Hn : 1 <= (e + d + o) * CallsPerPeriod I / Period I)
      by (apply Z.div_le_lower_bound; lia).
    rewrite (UpdateBucket_exact I s (delay d w) WF HP HC Hr
               ((e + d + o) * CallsPerPeriod I / Period I)) in E1.
    + injection E1 as <-. cbn. rewrite Hz. lia.
    + rewrite Ee1. reflexivity.
    + rewrite Ee1. exact Hmul.
    + exact Hquot.
    + rewrite Hz. pose proof (uint_le_ulong I WF). lia.
  - right. split; [lia|].
    destruct (UpdateBucket_empty _ _ _ Hr Hz E1) as [-> | [_ Hp]];
      [reflexivity | rewrite Ee1 in Hp; lia].
Qed.

(** A plain wait ends: the loop goes round until a suspension has overslept. *)
Lemma plain_wait_ends k : forall s w,
  0 < Period I -> 0 < CallsPerPeriod I ->
  in_range I s -> bucket_ s = 0 -> plain_wait I k s w ->
  exists s' w',
    wait_for_token I (S k) s w = Done tt s' w' /\ bucket_ s' > 0.
Proof.
  induction k as [|k IH];
    intros s w HP HC Hr Hz (Hnw & Hfit & Hprog & Hmul & Hquot);
    rewrite oversleep_sum in *;
    set (e := GetElapsedTime I s w) in *;
    set (d := Z.max (Period I / CallsPerPeriod I - e) 0) in *;
    set (o := Z.of_nat (hd O (oversleep w))) in *;
    set (rest := Z.of_nat (list_sum (firstn _ (tl (oversleep w))))) in *;
    pose proof (GetElapsedTime_range I WF s w) as He; fold e in He;
    assert (Hd : 0 <= d) by lia;
    assert (Ho : 0 <= o) by (unfold o; lia);
    assert (Hrest : 0 <= rest) by (unfold rest; lia);
    assert (Hmono : (e + d + o) * CallsPerPeriod I
                    <= (e + d + (o + rest)) * CallsPerPeriod I) by nia;
    assert (Hqmono : (e + d + o) * CallsPerPeriod I / Period I
                     <= (e + d + (o + rest)) * CallsPerPeriod I / Period I)
      by (apply Z.div_le_mono; lia);
    pose proof (Z.mul_succ_div_gt (Period I) (CallsPerPeriod I) HC) as Htpt;
    destruct (wait_round s w HP HC Hr Hz Hnw e d o eq_refl eq_refl eq_refl)
      as (Ew & Enow & Ee1 & Hreach & s1 & E1 & Hcase); try lia;
    rewrite (wait_for_token_round _ _ _ Hz), Ew, E1;
    destruct Hcase as [[Hworth Hpos] | [Hshort ->]].
  - exists s1, (delay d w). split; [apply wait_for_token_ready; lia | exact Hpos].
  - exfalso. destruct Hprog as [H1 | Hdiv].
    + assert (Eo : Z.of_nat (nth 0 (oversleep w) 0%nat) = o)
        by (unfold o; destruct (oversleep w); reflexivity).
      nia.
    + apply Z.div_exact in Hdiv; [|lia]. nia.
  - exists s1, (delay d w). split; [apply wait_for_token_ready; lia | exact Hpos].
  - assert (Hnodiv : 1 <= Z.of_nat (nth (S k) (oversleep w) 0%nat)).
    { destruct Hprog as [H1 | Hdiv]; [exact H1|].
      apply Z.div_exact in Hdiv; [|lia]. nia. }
    apply IH; auto.
    unfold plain_wait. cbv zeta. rewrite Ee1, Enow.
    replace (oversleep (delay d w)) with (tl (oversleep w)) by reflexivity.
    rewrite <- oversleep_nth. fold rest.
    assert (Ed' : Z.max (Period I / CallsPerPeriod I - (e + d + o)) 0 = 0) by lia.
    rewrite Ed'.
    replace (e + d + o + 0 + rest) with (e + d + (o + rest)) by ring.
    repeat split; auto; lia.
Qed.

End Blocking.

Lemma MaybeCallDroppedCallCallback_rejections s w s' w' :
  MaybeCallDroppedCallCallback s w = (s', w') ->
  rejections (trace w') = rejections (trace w).
Proof.
  destruct (MaybeCallDroppedCallCallback_cases s w)
    as [(cb & _ & _ & ->) | (_ & ->)]; intros [= <- <-]; reflexivity.
Qed.

(** C8: [Call], for an instantiation with both template arguments positive.
    It never divides by zero, and its only result is that of [fn]: there is
    no failure to return and no call is counted as dropped.  While the bucket
    is empty it suspends for [max(time_per_token - elapsed, 0)] ticks and
    refills.  When it returns, the loop has ended with a token in the bucket,
    one token has been taken, [fn] has run exactly once, as the last thing
    that happened, and more fuel gives the same result.  On an empty bucket,
    the time elapsed on the counter between the last refill and the call,
    and the time the call took, add up to [Period / CallsPerPeriod] ticks at
    least.  It returns at once when the refill leaves a token, and within
    [k + 1] rounds of the loop in a plain wait. *)
Theorem Call_waits_then_calls (I : Instantiation) (R : Type) (fn : Fn R) s w :
  wf_inst I -> 0 < Period I -> 0 < CallsPerPeriod I ->
  in_range I s -> bucket_bounded I s ->
  (forall fuel, Call I fuel fn s w <> DivByZero) /\
  (forall s0 w0,
     EstimateWaitTime I s0 w0 =
       Some (Z.max (Period I / CallsPerPeriod I - GetElapsedTime I s0 w0) 0)) /\
  (forall fuel s0 w0,
     (bucket_ s0 = 0 ->
      wait_for_token I (S fuel) s0 w0 =
        match EstimateWaitTime I s0 w0 with
        | None => DivByZero
        | Some d =>
            match UpdateBucket I s0 (delay d w0) with
            | None => DivByZero
            | Some s1 => wait_for_token I fuel s1 (delay d w0)
            end
        end) /\
     (bucket_ s0 <> 0 -> wait_for_token I fuel s0 w0 = Done tt s0 w0)) /\
  (forall fuel r s' w',
     Call I fuel fn s w = Done r s' w' ->
     r = fn_result fn /\
     (exists s1 s2 w2,
        UpdateBucket I s w = Some s1 /\
        wait_for_token I fuel s1 w = Done tt s2 w2 /\
        bucket_ s2 > 0 /\ bucket_ s' = bucket_ s2 - 1 /\
        ticks w' = ticks w2) /\
     hd_error (trace w') = Some (ticks w', Invoked (fn_tag fn)) /\
     invocations (trace w') = invocations (trace w) + 1 /\
     rejections (trace w') = rejections (trace w) /\
     ticks w <= ticks w' /\
     (bucket_ s = 0 ->
      Period I
      <= (wrap_distance I (last_bucket_update_ s) (TimeNow I w)
          + (ticks w' - ticks w)) * CallsPerPeriod I) /\
     (bucket_ s = 0 -> TimeNow I w = last_bucket_update_ s ->
      Period I / CallsPerPeriod I <= ticks w' - ticks w) /\
     (forall fuel', (fuel <= fuel')%nat ->
                    Call I fuel' fn s w = Done r s' w')) /\
  (forall s1,
     UpdateBucket I s w = Some s1 -> bucket_ s1 > 0 ->
     exists s' w', Call I 0 fn s w = Done (fn_result fn) s' w') /\
  (forall k,
     bucket_ s = 0 -> plain_wait I k s w ->
     exists s' w', Call I (S k) fn s w = Done (fn_result fn) s' w').
Proof.
  intros WF HP HC Hr Hb.
  split; [intros fuel; apply positive_arguments_never_divide; lia|].
  split; [intros s0 w0; apply EstimateWaitTime_value; [assumption | lia]|].
  split; [intros fuel s0 w0; split;
          [apply wait_for_token_round | apply wait_for_token_ready]|].
  split; [|split].
  - intros fuel r s' w' E.
    pose proof (Call_more_fuel I R fn fuel) as Hmore.
    specialize (fun f' => Hmore f' _ _ _ _ _ E).
    apply Call_Done in E as (s1 & s2 & w2 & s3 & w3 & E1 & E2 & E3 & -> & -> & ->).
    pose proof (UpdateBucket_in_range I WF _ _ _ E1 Hr) as Hr1.
    pose proof (UpdateBucket_bounded I WF _ _ _ E1) as Hb1.
    pose proof (wait_for_token_world I WF _ _ _ _ _ _ E2) as (Ht & ds & Etr & Hds).
    pose proof (wait_for_token_Done I WF _ _ _ _ _ _ E2 Hr1 Hb1)
      as (Hr2 & Hb2 & Hnz & _ & _ & _).
    pose proof (MaybeCallDroppedCallCallback_frame _ _ _ _ E3)
      as (Eb & _ & _ & Et & _ & Ei).
    pose proof (MaybeCallDroppedCallCallback_rejections _ _ _ _ E3) as Ej.
    pose proof (only_delays_counts ds (trace w) Hds) as (Hi & Hj & _ & _).
    assert (Hb3 : bucket_bounded I s3)
      by (unfold bucket_bounded in *; rewrite Eb; exact Hb2).
    split; [reflexivity|]. split.
    { exists s1, s2, w2. unfold bucket_bounded in Hb2.
      repeat split; auto; try lia.
      rewrite take_token_bucket; auto; lia. }
    split; [cbn; rewrite Et; reflexivity|].
    split; [rewrite invocations_invoke, Ei, Etr, Hi; lia|].
    split; [cbn; rewrite Ej, Etr, Hj; reflexivity|].
    split; [cbn; lia|].
    assert (Hslice : bucket_ s = 0 ->
              Period I
              <= (wrap_distance I (last_bucket_update_ s) (TimeNow I w)
                  + (ticks w2 - ticks w)) * CallsPerPeriod I).
    { intros Hz.
      assert (Hworth : exists w0, ticks w <= ticks w0 /\ ticks w0 <= ticks w2 /\
                Period I <= GetElapsedTime I s w0 * CallsPerPeriod I).
      { destruct (UpdateBucket_empty I WF _ _ _ Hr Hz E1) as [-> | [_ Hp]].
        - exists w2. repeat split; [lia | lia |].
          eapply wait_for_token_empty; eauto.
        - exists w. repeat split; [lia | lia | exact Hp]. }
      destruct Hworth as (w0 & Hle0 & Hle2 & Hp).
      pose proof (GetElapsedTime_le_distance I WF s w0 Hr) as Hdist.
      pose proof (wrap_distance_later I WF (last_bucket_update_ s) w w0 Hle0).
      nia. }
    cbn [invoke log ticks]. rewrite Et.
    split; [exact Hslice|]. split; [|exact Hmore].
    intros Hz Enow. specialize (Hslice Hz).
    unfold wrap_distance in Hslice.
    rewrite Enow, Z.sub_diag, Z.mod_0_l, Z.add_0_l in Hslice
      by (pose proof (ulong_modulus_pos I WF); lia).
    apply Z.div_le_upper_bound; lia.
  - intros s1 E1 Hpos. unfold Call. rewrite E1. cbn.
    destruct (Z.eqb_spec (bucket_ s1) 0); [lia|].
    destruct (MaybeCallDroppedCallCallback s1 w) as [s3 w3]. eauto.
  - intros k Hz Hplain. unfold Call.
    destruct (UpdateBucket_defined I s w) as [s1 E1]; [lia | lia |].
    rewrite E1.
    destruct (UpdateBucket_empty I WF _ _ _ Hr Hz E1) as [-> | [Hpos _]].
    + destruct (plain_wait_ends I WF k s w HP HC Hr Hz Hplain)
        as (s2 & w2 & -> & _).
      destruct (MaybeCallDroppedCallCallback s2 w2) as [s3 w3]. eauto.
    + rewrite wait_for_token_ready by lia.
      destruct (MaybeCallDroppedCallCallback s1 w) as [s3 w3]. eauto.
Qed.

Lemma Call_waits_then_calls_witness :
  exists s' w',
    Call (arm32 7 5) 3 (MkFn 1%nat tt) (MkLimiter 0 0 0 None)
      (MkWorld 0 [0%nat; 0%nat; 1%nat] []) = Done tt s' w'.
Proof.
  destruct (Call_waits_then_calls (arm32 7 5) unit (MkFn 1%nat tt)
              (MkLimiter 0 0 0 None) (MkWorld 0 [0%nat; 0%nat; 1%nat] []))
    as (_ & _ & _ & _ & _ & H).
  - unfold wf_inst; cbn; lia.
  - cbn; lia.
  - cbn; lia.
  - unfold in_range; cbn; lia.
  - unfold bucket_bounded; cbn; lia.
  - apply (H 2%nat).
    + reflexivity.
    + unfold plain_wait. cbn. repeat split; lia.
Defined.

(** The empty bucket of three calls per 3000 ticks: [Call] suspends for the
    1000 ticks of one token, then lets [fn] run. *)
Example Call_three_per_3000 :
  Call (arm32 3000 3) 1 (MkFn 1%nat tt) (MkLimiter 0 0 0 None) (MkWorld 0 [] [])
  = Done tt (MkLimiter 0 1000 0 None)
      (MkWorld 1000 [] [(1000, Invoked 1); (0, Delayed 1000)]).
Proof. reflexivity. Qed.

(** The slice is counted from the last refill, not from the call: 999 ticks
    after the last refill, [Call] on the empty bucket suspends for one tick. *)
Example Call_late_in_the_slice :
  Call (arm32 3000 3) 1 (MkFn 1%nat tt) (MkLimiter 0 0 0 None)
    (MkWorld 999 [] [])
  = Done tt (MkLimiter 0 1000 0 None)
      (MkWorld 1000 [] [(1000, Invoked 1); (999, Delayed 1)]).
Proof. reflexivity. Qed.

(** Seven ticks per five calls: a token is due after 1.4 ticks, the
    suspension asked for is one tick, and the loop goes round until the
    counter has moved on. *)
Example Call_five_per_7 :
  Call (arm32 7 5) 3 (MkFn 1%nat tt) (MkLimiter 0 0 0 None)
    (MkWorld 0 [0%nat; 0%nat; 1%nat] [])
  = Done tt (MkLimiter 0 1 0 None)
      (MkWorld 2 []
         [(2, Invoked 1); (1, Delayed 0); (1, Delayed 0); (0, Delayed 1)]).
Proof. reflexivity. Qed.

(** Starvation: one call per [ULONG_MAX] ticks, on a 32-bit counter.  Unless
    the last refill was at tick 0, the elapsed time never reaches [Period]:
    no refill credits a token, and [Call] on an empty bucket waits for
    ever, however long the suspensions last. *)
Lemma starved_elapsed w d cb :
  0 <= GetElapsedTime (arm32 4294967295 1) (MkLimiter 0 5 d cb) w < 4294967295.
Proof.
  unfold GetElapsedTime, TimeNow, millis, to_ulong, ULONG_MAX.
  cbn [ULONG_BITS arm32 last_bucket_update_].
  change (2 ^ 32) with 4294967296.
  pose proof (Z.mod_pos_bound (ticks w) 4294967296 ltac:(lia)) as Hnow.
  set (now := ticks w mod 4294967296) in *.
  destruct (Z.ltb_spec now 5).
  - rewrite (Z.mod_small (4294967296 - 1 - 5)) by lia.
    rewrite Z.mod_small by lia. lia.
  - rewrite Z.mod_small by lia. lia.
Qed.

Lemma starved_refill w d cb :
  UpdateBucket (arm32 4294967295 1) (MkLimiter 0 5 d cb) w
  = Some (MkLimiter 0 5 d cb).
Proof.
  pose proof (starved_elapsed w d cb) as He.
  unfold UpdateBucket.
  set (e := GetElapsedTime (arm32 4294967295 1) (MkLimiter 0 5 d cb) w) in *.
  cbn [Period CallsPerPeriod arm32 bucket_ last_bucket_update_
       dropped_calls_ dropped_callback_].
  change (4294967295 =? 0) with false. change (1 =? 0) with false. cbv iota.
  rewrite Z.mul_1_r.
  unfold to_ulong, to_uint. cbn [ULONG_BITS UINT_BITS arm32].
  change (2 ^ 32) with 4294967296.
  rewrite (Z.mod_small e) by lia.
  rewrite (Z.div_small e) by lia.
  reflexivity.
Qed.

Lemma Call_starves (R : Type) (fn : Fn R) fuel w d cb :
  Call (arm32 4294967295 1) fuel fn (MkLimiter 0 5 d cb) w = Waiting.
Proof.
  unfold Call. rewrite starved_refill.
  assert (H : wait_for_token (arm32 4294967295 1) fuel (MkLimiter 0 5 d cb) w
              = Waiting).
  { revert w. induction fuel as [|fuel IH]; intros w; [reflexivity|].
    cbn [wait_for_token bucket_]. change (0 =? 0) with true. cbv iota.
    destruct (EstimateWaitTime _ _ w) as [t|] eqn:E.
    - rewrite starved_refill. apply IH.
    - unfold EstimateWaitTime in E.
      cbn [CallsPerPeriod arm32] in E. change (1 =? 0) with false in E.
      cbv iota in E. destruct (_ >? _); discriminate. }
  rewrite H. reflexivity.
Qed.

(** ** The rate of admissions *)

Lemma granted_in_nonneg from len tr : 0 <= granted_in from len tr.
Proof.
  induction tr as [|[t e] tr IH]; cbn; [lia|].
  destruct e; try exact IH.
  destruct ((from <=? t) && (t <? from + len)); lia.
Qed.

(** No call is let through in a window that has not begun. *)
Lemma granted_in_before from len tr now :
  Forall (fun e => fst e <= now) tr -> now < from ->
  granted_in from len tr = 0.
Proof.
  intros H Hlt. induction H as [|[t e] tr Ht _ IH]; cbn; [reflexivity|].
  cbn in Ht. destruct e; try exact IH.
  destruct (Z.leb_spec from t); [lia|]. cbn. exact IH.
Qed.

(** The arithmetic of a refill when [CallsPerPeriod] divides [Period]: the
    time taken off the elapsed time is worth exactly the tokens credited, so
    that a refill creates no credit, and it leaves less than a token's worth
    of elapsed time. *)
Lemma refill_arithmetic P C e b :
  0 < P -> 0 < C -> P mod C = 0 -> 0 <= e -> 0 <= b ->
  forall n, n = e * C / P ->
  n * P / C = n * (P / C) /\
  0 <= n * (P / C) <= e /\
  Z.min (b + n) C * P + (e - n * (P / C)) * C <= b * P + e * C /\
  Z.min (b + n) C * P + (e - n * (P / C)) * C <= C * P + P - 1.
Proof.
  intros HP HC Hdiv He Hb n En.
  apply Z.div_exact in Hdiv; [|lia].
  set (k := P / C) in *.
  assert (Hk : 0 < k) by nia.
  assert (Hn0 : 0 <= n) by (subst n; apply Z.div_pos; nia).
  assert (Hlo : n * P <= e * C).
  { subst n. rewrite Z.mul_comm. apply Z.mul_div_le. lia. }
  assert (Hhi : e * C < n * P + P).
  { subst n. pose proof (Z.mul_succ_div_gt (e * C) P HP). lia. }
  assert (Enk : n * P = n * k * C) by (rewrite Hdiv; ring).
  split; [rewrite Enk; apply Z.div_mul; lia|].
  split; [nia|].
  assert (Hmin1 : Z.min (b + n) C * P <= (b + n) * P)
    by (apply Z.mul_le_mono_nonneg_r; lia).
  assert (Hmin2 : Z.min (b + n) C * P <= C * P)
    by (apply Z.mul_le_mono_nonneg_r; lia).
  split; nia.
Qed.

Section Rate.

Variable I : Instantiation.
Hypothesis WF : wf_inst I.
Hypothesis HP : 0 < Period I.
Hypothesis HC : 0 < CallsPerPeriod I.
Hypothesis Hdiv : Period I mod CallsPerPeriod I = 0.

Variable T : Z.
Hypothesis HT : no_overflow_until I T.

Lemma horizon_fits_ulong : T < 2 ^ ULONG_BITS I.
Proof. destruct HT as [H _]. nia. Qed.

Lemma millis_before_wrap w : 0 <= ticks w <= T -> millis I w = ticks w.
Proof.
  intros H. pose proof horizon_fits_ulong. apply (to_ulong_small I). lia.
Qed.

(** Before the horizon a refill creates no credit and leaves at most
    [credit_cap]. *)
Lemma UpdateBucket_credit s w :
  in_range I s -> bucket_bounded I s -> timely s w -> ticks w <= T ->
  exists s1,
    UpdateBucket I s w = Some s1 /\
    last_bucket_update_ s <= last_bucket_update_ s1 <= ticks w /\
    credit I s1 (ticks w) <= credit I s (ticks w) /\
    credit I s1 (ticks w) <= credit_cap I.
Proof.
  intros Hr Hb [Hl _] Hle.
  destruct HT as [Hmul Hquot].
  pose proof horizon_fits_ulong as HTu.
  pose proof (uint_le_ulong I WF) as Hiu.
  assert (Enow : TimeNow I w = ticks w)
    by (apply millis_before_wrap; lia).
  destruct (GetElapsedTime_not_wrapped I WF s w Hr) as [Ee _]; [lia|].
  rewrite Enow in Ee.
  set (e := ticks w - last_bucket_update_ s) in *.
  assert (He : 0 <= e <= T) by (unfold e; lia).
  set (n := e * CallsPerPeriod I / Period I).
  assert (HnT : n <= T * CallsPerPeriod I / Period I).
  { apply Z.div_le_mono; [lia | nia]. }
  assert (HqT : T * CallsPerPeriod I / Period I <= T * CallsPerPeriod I).
  { assert (H0 : 0 <= T * CallsPerPeriod I) by nia.
    apply Z.div_le_upper_bound; [lia|].
    rewrite <- (Z.mul_1_l (T * CallsPerPeriod I)) at 1.
    apply Z.mul_le_mono_nonneg_r; lia. }
  unfold bucket_bounded in Hb.
  destruct (refill_arithmetic (Period I) (CallsPerPeriod I) e (bucket_ s)
              HP HC Hdiv (proj1 He) (proj1 Hb) n eq_refl)
    as (Eadv & Hadv & Hcr & Hcap).
  eexists. split.
  - apply (UpdateBucket_exact I s w WF HP HC Hr n);
      rewrite ?Ee; fold e; try reflexivity; try nia; lia.
  - cbn [last_bucket_update_ bucket_]. rewrite Eadv.
    rewrite (to_ulong_small I) by (unfold e in *; lia).
    unfold credit, credit_cap. cbn [last_bucket_update_ bucket_].
    replace (ticks w - (last_bucket_update_ s + n * (Period I / CallsPerPeriod I)))
      with (e - n * (Period I / CallsPerPeriod I)) by (unfold e; ring).
    fold e. repeat split; lia.
Qed.

Lemma credit_nonneg s w :
  bucket_bounded I s -> timely s w -> 0 <= credit I s (ticks w).
Proof. unfold bucket_bounded, timely, credit. intros Hb [Hl _]. nia. Qed.

Lemma credit_later s t d :
  credit I s (t + d) = credit I s t + d * CallsPerPeriod I.
Proof. unfold credit. ring. Qed.

Lemma credit_take_token s t :
  bucket_bounded I s -> bucket_ s <> 0 ->
  credit I (take_token I s) t = credit I s t - Period I.
Proof.
  intros Hb Hz. unfold credit. rewrite (take_token_bucket I WF) by assumption.
  cbn. ring.
Qed.

Variable from : Z.

Lemma MaybeCallDroppedCallCallback_granted s w s' w' len :
  MaybeCallDroppedCallCallback s w = (s', w') ->
  granted_in from len (trace w') = granted_in from len (trace w) /\
  (Forall (fun e => fst e <= ticks w) (trace w) ->
   Forall (fun e => fst e <= ticks w') (trace w')).
Proof.
  destruct (MaybeCallDroppedCallCallback_cases s w)
    as [(cb & _ & _ & ->) | (_ & ->)]; intros [= <- <-]; cbn; split; auto.
  intros H. constructor; [cbn; lia | assumption].
Qed.

End Rate.

(** The lemmas above stop at a horizon [T].  What follows needs none: it
    holds whatever the counter reads and wherever the refill overflows. *)

Lemma mod_add_le a b m : 0 < m -> 0 <= b -> (a + b) mod m <= a mod m + b.
Proof.
  intros Hm Hb. rewrite <- Zplus_mod_idemp_l.
  pose proof (Z.mod_pos_bound a m Hm).
  apply Z.mod_le; lia.
Qed.

Section WrapCredit.

Variable I : Instantiation.
Hypothesis WF : wf_inst I.
Hypothesis HP : 0 < Period I.
Hypothesis HC : 0 < CallsPerPeriod I.

Lemma refill_worth_nonneg e : 0 <= refill_worth I e.
Proof.
  unfold refill_worth.
  pose proof (uint_modulus_pos I WF) as Hu.
  apply Z.mod_pos_bound. nia.
Qed.

(** [y] ticks more of elapsed time are worth [y * CallsPerPeriod] more at
    most, also where the product wraps. *)
Lemma refill_worth_later x x' y k :
  x' = x + y + k * 2 ^ ULONG_BITS I -> 0 <= y ->
  refill_worth I x' <= refill_worth I x + y * CallsPerPeriod I.
Proof.
  intros -> Hy. unfold refill_worth, to_ulong.
  pose proof (ulong_modulus_pos I WF) as Hm.
  pose proof (uint_modulus_pos I WF) as Hu.
  set (m := 2 ^ ULONG_BITS I) in *.
  set (M := Period I * 2 ^ UINT_BITS I).
  assert (HM : 0 < M) by (unfold M; nia).
  replace ((x + y + k * m) * CallsPerPeriod I)
    with (x * CallsPerPeriod I + y * CallsPerPeriod I
          + (k * CallsPerPeriod I) * m) by ring.
  rewrite Z_mod_plus_full, <- Zplus_mod_idemp_l.
  pose proof (Z.mod_pos_bound (x * CallsPerPeriod I) m Hm) as Hr.
  set (r := (x * CallsPerPeriod I) mod m) in *.
  set (yc := y * CallsPerPeriod I).
  assert (Hyc : 0 <= yc) by (unfold yc; nia).
  pose proof (Z.mod_pos_bound r M HM) as HrM.
  destruct (Z_lt_le_dec (r + yc) m) as [Hsmall | Hbig].
  - rewrite (Z.mod_small (r + yc) m) by lia. now apply mod_add_le.
  - assert (Hq : 1 <= (r + yc) / m)
      by (apply Z.div_le_lower_bound; lia).
    pose proof (Z.div_mod (r + yc) m ltac:(lia)) as Hdm.
    pose proof (Z.mod_pos_bound (r + yc) m Hm) as Hrm.
    assert (Hle : ((r + yc) mod m) mod M <= (r + yc) mod m)
      by (apply Z.mod_le; lia).
    nia.
Qed.

Lemma wrap_credit_nonneg s w : bucket_bounded I s -> 0 <= wrap_credit I s w.
Proof.
  intros Hb. unfold wrap_credit, bucket_bounded in *.
  pose proof (refill_worth_nonneg (GetElapsedTime I s w)).
  destruct (TimeNow I w <? last_bucket_update_ s); nia.
Qed.

(** [wrap_credit] looks at the bucket, at [last_bucket_update_] and at the
    counter only. *)
Lemma wrap_credit_frame s w s' w' :
  bucket_ s' = bucket_ s ->
  last_bucket_update_ s' = last_bucket_update_ s ->
  ticks w' = ticks w ->
  wrap_credit I s' w' = wrap_credit I s w.
Proof.
  intros Eb El Et.
  unfold wrap_credit, GetElapsedTime, TimeNow, millis.
  rewrite Eb, El, Et. reflexivity.
Qed.

Lemma wrap_credit_take_token s w :
  bucket_bounded I s -> bucket_ s <> 0 ->
  wrap_credit I (take_token I s) w = wrap_credit I s w - Period I.
Proof.
  intros Hb Hz. unfold wrap_credit.
  rewrite (take_token_bucket I WF) by assumption.
  change (GetElapsedTime I (take_token I s) w) with (GetElapsedTime I s w).
  change (last_bucket_update_ (take_token I s)) with (last_bucket_update_ s).
  ring.
Qed.

(** Time passing adds [CallsPerPeriod] for each tick at most, whatever the
    counter does meanwhile. *)
Lemma wrap_credit_later s w w' :
  in_range I s -> ticks w <= ticks w' ->
  wrap_credit I s w'
  <= wrap_credit I s w + (ticks w' - ticks w) * CallsPerPeriod I.
Proof.
  intros Hr Hle. unfold wrap_credit.
  pose proof (ulong_modulus_pos I WF) as Hm.
  pose proof (millis_range I WF w) as Hn.
  pose proof (millis_range I WF w') as Hn'.
  pose proof (Z.div_mod (ticks w) (2 ^ ULONG_BITS I) ltac:(lia)) as Hq.
  pose proof (Z.div_mod (ticks w') (2 ^ ULONG_BITS I) ltac:(lia)) as Hq'.
  change (ticks w mod 2 ^ ULONG_BITS I) with (TimeNow I w) in Hq.
  change (ticks w' mod 2 ^ ULONG_BITS I) with (TimeNow I w') in Hq'.
  change (millis I w) with (TimeNow I w) in Hn.
  change (millis I w') with (TimeNow I w') in Hn'.
  set (q := ticks w / 2 ^ ULONG_BITS I) in *.
  set (q' := ticks w' / 2 ^ ULONG_BITS I) in *.
  set (d := ticks w' - ticks w).
  destruct (Z.ltb_spec (TimeNow I w) (last_bucket_update_ s)) as [Hlt | Hge];
    destruct (Z.ltb_spec (TimeNow I w') (last_bucket_update_ s))
      as [Hlt' | Hge'].
  - destruct (GetElapsedTime_wrapped I WF s w Hr Hlt) as [-> _].
    destruct (GetElapsedTime_wrapped I WF s w' Hr Hlt') as [-> _].
    pose proof (refill_worth_later
                  (ULONG_MAX I - last_bucket_update_ s + TimeNow I w)
                  (ULONG_MAX I - last_bucket_update_ s + TimeNow I w')
                  d (q - q') ltac:(unfold d; lia) ltac:(unfold d; lia)).
    lia.
  - destruct (GetElapsedTime_wrapped I WF s w Hr Hlt) as [-> _].
    destruct (GetElapsedTime_not_wrapped I WF s w' Hr Hge') as [-> _].
    pose proof (refill_worth_later
                  (ULONG_MAX I - last_bucket_update_ s + TimeNow I w)
                  (TimeNow I w' - last_bucket_update_ s)
                  (d + 1) (q - q' - 1)
                  ltac:(unfold d, ULONG_MAX; lia) ltac:(unfold d; lia)).
    lia.
  - destruct (GetElapsedTime_not_wrapped I WF s w Hr Hge) as [-> _].
    destruct (GetElapsedTime_wrapped I WF s w' Hr Hlt') as [-> _].
    assert (Hqq : q < q').
    { destruct (Z_lt_le_dec q q') as [|Hqq]; [assumption | exfalso].
      apply (Z.mul_le_mono_nonneg_l _ _ (2 ^ ULONG_BITS I)) in Hqq; lia. }
    assert (Hd : 1 <= d).
    { assert (2 ^ ULONG_BITS I * (q + 1) <= 2 ^ ULONG_BITS I * q')
        by (apply Z.mul_le_mono_nonneg_l; lia).
      unfold d. lia. }
    pose proof (refill_worth_later
                  (TimeNow I w - last_bucket_update_ s)
                  (ULONG_MAX I - last_bucket_update_ s + TimeNow I w')
                  (d - 1) (q - q' + 1)
                  ltac:(unfold d, ULONG_MAX; lia) ltac:(lia)).
    lia.
  - destruct (GetElapsedTime_not_wrapped I WF s w Hr Hge) as [-> _].
    destruct (GetElapsedTime_not_wrapped I WF s w' Hr Hge') as [-> _].
    pose proof (refill_worth_later
                  (TimeNow I w - last_bucket_update_ s)
                  (TimeNow I w' - last_bucket_update_ s)
                  d (q - q') ltac:(unfold d; lia) ltac:(unfold d; lia)).
    lia.
Qed.


Hypothesis Hdiv : Period I mod CallsPerPeriod I = 0.

(** The arithmetic of a refill, overflows included: the tokens it adds are
    paid for by the elapsed time it uses up. *)
Lemma refill_residue e :
  0 <= e ->
  let r := to_ulong I (e * CallsPerPeriod I) in
  let n := to_uint I (r / Period I) in
  let a := n * (Period I / CallsPerPeriod I) in
  0 <= n /\
  to_ulong I (n * Period I) / CallsPerPeriod I = a /\
  0 <= a <= e /\
  refill_worth I e = n * Period I + r mod Period I /\
  refill_worth I (e - a) = r mod Period I.
Proof.
  intros He r n a.
  pose proof (ulong_modulus_pos I WF) as Hm.
  pose proof (uint_modulus_pos I WF) as Hu.
  pose proof (to_ulong_range I WF (e * CallsPerPeriod I)) as Hr. fold r in Hr.
  assert (Hre : r <= e * CallsPerPeriod I)
    by (apply Z.mod_le; [nia | lia]).
  assert (Hk : Period I = CallsPerPeriod I * (Period I / CallsPerPeriod I))
    by (apply Z.div_exact; lia).
  set (k := Period I / CallsPerPeriod I) in *.
  assert (Hq0 : 0 <= r / Period I) by (apply Z.div_pos; lia).
  pose proof (Z.mul_div_le r (Period I) HP) as Hqr.
  pose proof (Z.div_mod r (Period I) ltac:(lia)) as Hrq.
  pose proof (Z.mod_pos_bound r (Period I) HP) as Hrp.
  pose proof (to_uint_range I WF (r / Period I)) as Hn. fold n in Hn.
  pose proof (Z.div_mod (r / Period I) (2 ^ UINT_BITS I) ltac:(lia)) as Hqn.
  change ((r / Period I) mod 2 ^ UINT_BITS I) with n in Hqn.
  assert (Hj : 0 <= r / Period I / 2 ^ UINT_BITS I)
    by (apply Z.div_pos; lia).
  set (q := r / Period I) in *.
  set (j := q / 2 ^ UINT_BITS I) in *.
  assert (Hnq : n <= q) by nia.
  assert (HnP : n * Period I <= r) by nia.
  assert (Ea : to_ulong I (n * Period I) / CallsPerPeriod I = a).
  { rewrite (to_ulong_small I) by nia.
    unfold a. rewrite Hk at 1.
    replace (n * (CallsPerPeriod I * k)) with (n * k * CallsPerPeriod I) by ring.
    apply Z.div_mul. lia. }
  assert (Ha : 0 <= a <= e) by (unfold a; fold k; nia).
  split; [lia|]. split; [exact Ea|]. split; [exact Ha|].
  split.
  - unfold refill_worth. fold r.
    rewrite Z.rem_mul_r by lia. change ((r / Period I) mod 2 ^ UINT_BITS I) with n. ring.
  - unfold refill_worth, to_ulong.
    pose proof (Z.div_mod (e * CallsPerPeriod I) (2 ^ ULONG_BITS I)
                  ltac:(lia)) as Hec.
    change ((e * CallsPerPeriod I) mod 2 ^ ULONG_BITS I) with r in Hec.
    replace ((e - a) * CallsPerPeriod I)
      with (r - n * Period I
            + (e * CallsPerPeriod I / 2 ^ ULONG_BITS I) * 2 ^ ULONG_BITS I).
    2:{ unfold a. fold k. rewrite Hk at 1. lia. }
    rewrite Z_mod_plus_full, (Z.mod_small (r - n * Period I)) by lia.
    replace (r - n * Period I)
      with (r mod Period I + j * (Period I * 2 ^ UINT_BITS I)) by nia.
    rewrite Z_mod_plus_full. apply Z.mod_small. nia.
Qed.

(** A refill creates no credit and leaves [wrap_credit_cap] at most, also
    where its arithmetic overflows or the counter has wrapped. *)
Lemma UpdateBucket_wrap_credit s w :
  in_range I s -> bucket_bounded I s ->
  exists s1,
    UpdateBucket I s w = Some s1 /\
    wrap_credit I s1 w <= wrap_credit I s w /\
    wrap_credit I s1 w <= wrap_credit_cap I.
Proof.
  intros Hr Hb.
  destruct (UpdateBucket_defined I s w) as [s1 E]; [lia | lia |].
  exists s1. split; [exact E|].
  pose proof (UpdateBucket_in_range I WF _ _ _ E Hr) as Hr1.
  pose proof (UpdateBucket_bounded I WF _ _ _ E) as Hb1.
  apply UpdateBucket_Some in E as (_ & _ & Eb & El & _). cbv zeta in Eb, El.
  pose proof (ulong_modulus_pos I WF) as Hm.
  pose proof (GetElapsedTime_range I WF s w) as He.
  pose proof (millis_range I WF w) as Hn.
  change (millis I w) with (TimeNow I w) in Hn.
  destruct (refill_residue (GetElapsedTime I s w) (proj1 He))
    as (Hn0 & Ea & Ha & Ew & Ew').
  rewrite Ea in El.
  set (r := to_ulong I (GetElapsedTime I s w * CallsPerPeriod I)) in *.
  set (n := to_uint I (r / Period I)) in *.
  set (a := n * (Period I / CallsPerPeriod I)) in *.
  pose proof (Z.mod_pos_bound r (Period I) HP) as Hrp.
  assert (Hb1n : bucket_ s1 <= bucket_ s + n).
  { rewrite Eb, min_is_Zmin.
    assert (to_ulong I (bucket_ s + n) <= bucket_ s + n)
      by (apply Z.mod_le; unfold bucket_bounded in Hb; lia).
    lia. }
  assert (Hmul : bucket_ s1 * Period I <= (bucket_ s + n) * Period I)
    by (apply Z.mul_le_mono_nonneg_r; lia).
  assert (Hmul' : bucket_ s1 * Period I <= CallsPerPeriod I * Period I)
    by (apply Z.mul_le_mono_nonneg_r; unfold bucket_bounded in Hb1; lia).
  assert (Hgo : refill_worth I (GetElapsedTime I s1 w)
                + (if TimeNow I w <? last_bucket_update_ s1
                   then CallsPerPeriod I else 0)
                <= r mod Period I
                   + (if TimeNow I w <? last_bucket_update_ s
                      then CallsPerPeriod I else 0)).
  { pose proof Hr as (_ & Hl & _).
    destruct (Z.ltb_spec (TimeNow I w) (last_bucket_update_ s)) as [Hlt | Hge].
    - destruct (GetElapsedTime_wrapped I WF s w Hr Hlt)
        as [Ee _].
      unfold ULONG_MAX in Ee.
      destruct (Z_lt_le_dec (last_bucket_update_ s + a) (2 ^ ULONG_BITS I))
        as [Hin | Hout].
      + rewrite (to_ulong_small I) in El by lia.
        assert (Hlt1 : TimeNow I w < last_bucket_update_ s1) by lia.
        destruct (GetElapsedTime_wrapped I WF s1 w Hr1 Hlt1) as [Ee1 _].
        unfold ULONG_MAX in Ee1.
        destruct (Z.ltb_spec (TimeNow I w) (last_bucket_update_ s1)); [|lia].
        replace (GetElapsedTime I s1 w) with (GetElapsedTime I s w - a) by lia.
        rewrite Ew'. lia.
      + assert (El1 : last_bucket_update_ s1
                      = last_bucket_update_ s + a - 2 ^ ULONG_BITS I).
        { rewrite El. unfold to_ulong. symmetry.
          apply (Z.mod_unique _ _ 1); lia. }
        assert (Hge1 : last_bucket_update_ s1 <= TimeNow I w) by lia.
        destruct (GetElapsedTime_not_wrapped I WF s1 w Hr1 Hge1) as [Ee1 _].
        destruct (Z.ltb_spec (TimeNow I w) (last_bucket_update_ s1)); [lia|].
        pose proof (refill_worth_later (GetElapsedTime I s w - a)
                      (GetElapsedTime I s1 w) 1 0 ltac:(lia) ltac:(lia)).
        rewrite Ew' in *. lia.
    - destruct (GetElapsedTime_not_wrapped I WF s w Hr Hge)
        as [Ee _].
      rewrite (to_ulong_small I) in El by lia.
      assert (Hge1 : last_bucket_update_ s1 <= TimeNow I w) by lia.
      destruct (GetElapsedTime_not_wrapped I WF s1 w Hr1 Hge1) as [Ee1 _].
      destruct (Z.ltb_spec (TimeNow I w) (last_bucket_update_ s1)); [lia|].
      replace (GetElapsedTime I s1 w) with (GetElapsedTime I s w - a) by lia.
      rewrite Ew'. lia. }
  unfold wrap_credit, wrap_credit_cap. rewrite Ew.
  destruct (TimeNow I w <? last_bucket_update_ s1);
    destruct (TimeNow I w <? last_bucket_update_ s); lia.
Qed.

End WrapCredit.

Section Steady.

Variable I : Instantiation.
Hypothesis WF : wf_inst I.
Hypothesis HP : 0 < Period I.
Hypothesis HC : 0 < CallsPerPeriod I.
Hypothesis Hdiv : Period I mod CallsPerPeriod I = 0.

Variables from len : Z.
Hypothesis Hlen : 1 <= len.

(** Time passing, with no call let through, keeps the window covered. *)
Lemma steady_later s w w' :
  steady I from len s w ->
  ticks w <= ticks w' ->
  granted_in from len (trace w') = granted_in from len (trace w) ->
  Forall (fun e => fst e <= ticks w') (trace w') ->
  steady I from len s w'.
Proof.
  intros (Hr & Hb & Hst & [Hw1 Hw2]) Hle En Hst'.
  split; [assumption|]. split; [assumption|]. split; [assumption|].
  unfold window_covered in *. cbv zeta in *. rewrite En.
  split; [|exact Hw2].
  intros Hin.
  pose proof (wrap_credit_later I WF HP HC s w w' Hr Hle) as Hlater.
  set (x := (ticks w' - ticks w) * CallsPerPeriod I) in *.
  assert (Hx : 0 <= x) by (unfold x; nia).
  destruct (Z_lt_le_dec (ticks w) from) as [Hbefore | Hopen].
  - rewrite (granted_in_before from len (trace w) (ticks w)) by assumption.
    assert (0 <= Z.max 0 (ticks w' - from) * CallsPerPeriod I) by nia.
    lia.
  - specialize (Hw1 ltac:(lia)).
    rewrite Z.max_r in Hw1 by lia. rewrite Z.max_r by lia.
    replace ((ticks w' - from) * CallsPerPeriod I)
      with ((ticks w - from) * CallsPerPeriod I + x) by (unfold x; ring).
    lia.
Qed.

Lemma steady_refill s w :
  steady I from len s w ->
  exists s1,
    UpdateBucket I s w = Some s1 /\
    steady I from len s1 w /\ wrap_credit I s1 w <= wrap_credit_cap I.
Proof.
  intros (Hr & Hb & Hst & [Hw1 Hw2]).
  destruct (UpdateBucket_wrap_credit I WF HP HC Hdiv s w Hr Hb)
    as (s1 & E & Hcr & Hcap).
  exists s1. split; [exact E|]. split; [|exact Hcap].
  split; [eapply UpdateBucket_in_range; eauto|].
  split; [eapply UpdateBucket_bounded; eauto|].
  split; [assumption|].
  unfold window_covered in *. cbv zeta in *.
  split; [|exact Hw2].
  intros Hin. specialize (Hw1 Hin). lia.
Qed.

(** Letting a call through is paid for with a token's worth of credit. *)
Lemma steady_grant (R : Type) (fn : Fn R) s w s' w' :
  steady I from len s w -> wrap_credit I s w <= wrap_credit_cap I ->
  bucket_ s <> 0 ->
  MaybeCallDroppedCallCallback s w = (s', w') ->
  steady I from len (take_token I s') (invoke fn w').
Proof.
  intros (Hr & Hb & Hst & [Hw1 Hw2]) Hcap Hnz E.
  pose proof (MaybeCallDroppedCallCallback_frame _ _ _ _ E)
    as (Eb & El & _ & Et & _ & _).
  pose proof (MaybeCallDroppedCallCallback_in_range I WF _ _ _ _ E Hr) as Hr'.
  pose proof (MaybeCallDroppedCallCallback_granted from _ _ _ _ len E)
    as [En Hst'].
  assert (Hb' : bucket_bounded I s')
    by (unfold bucket_bounded in *; rewrite Eb; exact Hb).
  assert (Hnz' : bucket_ s' <> 0) by (rewrite Eb; exact Hnz).
  assert (Hb'' : bucket_bounded I (take_token I s')).
  { unfold bucket_bounded in *. rewrite (take_token_bucket I WF); auto; lia. }
  assert (Ecr : wrap_credit I (take_token I s') (invoke fn w')
                = wrap_credit I s w - Period I).
  { rewrite (wrap_credit_frame I (take_token I s') w' (take_token I s')
               (invoke fn w') eq_refl eq_refl eq_refl).
    rewrite (wrap_credit_take_token I WF) by assumption.
    rewrite (wrap_credit_frame I s w s' w' Eb El Et). reflexivity. }
  pose proof (wrap_credit_nonneg I WF HP HC (take_token I s') (invoke fn w') Hb'')
    as Hcr0.
  split; [now apply take_token_in_range|].
  split; [assumption|].
  split; [constructor; [cbn; lia | cbn; auto]|].
  unfold window_covered in *. cbv zeta in *.
  rewrite Ecr in *.
  cbn [invoke log trace ticks]. rewrite Et.
  cbn [granted_in]. rewrite En.
  pose proof (granted_in_nonneg from len (trace w)) as Hn0.
  destruct (Z.leb_spec from (ticks w)) as [Hopen | Hbefore];
    [destruct (Z.ltb_spec (ticks w) (from + len)) as [Hin | Hout]|];
    cbn [andb].
  - specialize (Hw1 Hin). rewrite Z.max_r in Hw1 by lia.
    assert (Hgo : (1 + granted_in from len (trace w)) * Period I
                  + (wrap_credit I s w - Period I)
                  <= wrap_credit_cap I + (ticks w - from) * CallsPerPeriod I)
      by lia.
    split.
    + intros _. rewrite Z.max_r by lia. lia.
    + assert ((ticks w - from) * CallsPerPeriod I
              <= (len - 1) * CallsPerPeriod I)
        by (apply Z.mul_le_mono_nonneg_r; lia).
      lia.
  - split; [lia | exact Hw2].
  - rewrite (granted_in_before from len (trace w) (ticks w)) in *
      by assumption.
    split; [|exact Hw2]. intros _.
    assert (0 <= Z.max 0 (ticks w - from) * CallsPerPeriod I) by nia.
    lia.
Qed.

Lemma steady_reject s w :
  steady I from len s w -> steady I from len (count_drop I s) (log Rejected w).
Proof.
  intros (Hr & Hb & Hst & Hw).
  split; [now apply count_drop_in_range|].
  split; [exact Hb|].
  split; [constructor; [cbn; lia | exact Hst]|].
  unfold window_covered in *. cbv zeta in *. cbn [log trace ticks granted_in].
  rewrite (wrap_credit_frame I s w (count_drop I s) (log Rejected w)
             eq_refl eq_refl eq_refl).
  exact Hw.
Qed.

(** The loop of [Call] lets time pass and refills: it keeps the window
    covered and ends right after a refill, or at once. *)
Lemma steady_wait fuel : forall s w u s' w',
  steady I from len s w -> wrap_credit I s w <= wrap_credit_cap I ->
  wait_for_token I fuel s w = Done u s' w' ->
  steady I from len s' w' /\ wrap_credit I s' w' <= wrap_credit_cap I /\
  bucket_ s' <> 0.
Proof.
  induction fuel as [|fuel IH]; intros s w u s' w' Hp Hcap; cbn.
  - destruct (Z.eqb_spec (bucket_ s) 0); [discriminate|].
    intros [= _ <- <-]. auto.
  - destruct (Z.eqb_spec (bucket_ s) 0); [|intros [= _ <- <-]; auto].
    destruct (EstimateWaitTime I s w) as [d|] eqn:Ew; [|discriminate].
    apply (EstimateWaitTime_Some I WF) in Ew as [_ Ed].
    assert (Hd : 0 <= d) by lia.
    assert (Hp1 : steady I from len s (delay d w)).
    { apply (steady_later s w); auto.
      - cbn. lia.
      - destruct Hp as (_ & _ & Hst & _).
        constructor; [cbn; lia|].
        eapply Forall_impl; [|exact Hst]. cbn. intros; lia. }
    destruct (UpdateBucket I s (delay d w)) as [s1|] eqn:E; [|discriminate].
    intros Hw.
    destruct (steady_refill s (delay d w) Hp1) as (s1' & E' & Hp1' & Hcap1).
    rewrite E in E'. injection E' as <-.
    eapply IH; eauto.
Qed.

(** Every reachable state keeps every window covered. *)
Lemma reachable_steady s w : reachable I s w -> steady I from len s w.
Proof.
  induction 1 as [w [Hw0 Hw] | s w d _ IH Hd | s w cb _ IH | s w s' _ IH E
                 | R fn s w b s' w' _ IH E | R fn fuel s w r s' w' _ IH E].
  - assert (Hb : bucket_bounded I (RateLimiter I w))
      by (unfold bucket_bounded, RateLimiter; cbn; lia).
    assert (Hr : in_range I (RateLimiter I w)).
    { unfold in_range, RateLimiter. cbn.
      pose proof (uint_modulus_pos I WF). pose proof (millis_range I WF w).
      unfold wf_inst in WF. lia. }
    split; [exact Hr|]. split; [exact Hb|].
    split; [rewrite Hw; constructor|].
    pose proof (wrap_credit_nonneg I WF HP HC _ w Hb) as Hcr.
    unfold window_covered, wrap_credit_cap in *. cbv zeta. rewrite Hw. cbn.
    assert (0 <= Z.max 0 (ticks w - from) * CallsPerPeriod I) by nia.
    split; [intros _; lia | nia].
  - apply (steady_later s w).
    + exact IH.
    + cbn. lia.
    + reflexivity.
    + cbn. destruct IH as (_ & _ & Hst & _).
      eapply Forall_impl; [|exact Hst]. cbn. intros; lia.
  - destruct IH as (Hr & Hb & Hst & Hw).
    split; [exact Hr|]. split; [exact Hb|]. split; [exact Hst|].
    unfold window_covered in *. cbv zeta in *.
    rewrite (wrap_credit_frame I s w (SetDroppedCallCallback cb s) w
               eq_refl eq_refl eq_refl).
    exact Hw.
  - destruct (steady_refill s w IH) as (s1 & E1 & Hp & _).
    congruence.
  - apply CallOrDrop_Done in E as (s1 & E1 & [(_ & Hpos & s2 & w2 & E2 & -> & ->)
                                            | (_ & _ & -> & ->)]).
    + destruct (steady_refill s w IH) as (s1' & E1' & Hp & Hcap).
      rewrite E1 in E1'. injection E1' as <-.
      apply (steady_grant R fn s1 w); auto. lia.
    + destruct (steady_refill s w IH) as (s1' & E1' & Hp & Hcap).
      rewrite E1 in E1'. injection E1' as <-.
      now apply steady_reject.
  - apply Call_Done in E as (s1 & s2 & w2 & s3 & w3 & E1 & E2 & E3 & _ & -> & ->).
    destruct (steady_refill s w IH) as (s1' & E1' & Hp & Hcap).
    rewrite E1 in E1'. injection E1' as <-.
    destruct (steady_wait _ _ _ _ _ _ Hp Hcap E2) as (Hp2 & Hcap2 & Hnz).
    now apply (steady_grant R fn s2 w2).
Qed.

End Steady.

(** Two calls per ten ticks: two calls let through at tick 0 and a third at
    tick 5. *)
Lemma three_in_one_period_reachable :
  reachable (arm32 10 2) (MkLimiter 0 5 0 None)
    (MkWorld 5 [] [(5, Invoked 1); (0, Invoked 1); (0, Invoked 1)]).
Proof.
  apply (reach_call_or_drop (MkFn 1%nat tt) (MkLimiter 0 0 0 None)
           (MkWorld 5 [] [(0, Invoked 1); (0, Invoked 1)]) true);
    [|reflexivity].
  apply (reach_elapse (MkLimiter 0 0 0 None)
           (MkWorld 0 [] [(0, Invoked 1); (0, Invoked 1)]) 5); [|lia].
  apply (reach_call_or_drop (MkFn 1%nat tt) (MkLimiter 1 0 0 None)
           (MkWorld 0 [] [(0, Invoked 1)]) true); [|reflexivity].
  apply (reach_call_or_drop (MkFn 1%nat tt)
           (RateLimiter (arm32 10 2) (MkWorld 0 [] [])) (MkWorld 0 [] []) true);
    [|reflexivity].
  apply reach_new. split; [cbn; lia | reflexivity].
Qed.

(** C3, as claimed, fails: a limiter of two calls per ten ticks lets three
    calls through in the ten ticks from tick 0: the two tokens it starts
    with, and the token it gains after five ticks. *)
Lemma three_granted_in_one_period :
  reachable (arm32 10 2) (MkLimiter 0 5 0 None)
    (MkWorld 5 [] [(5, Invoked 1); (0, Invoked 1); (0, Invoked 1)]) /\
  granted_in 0 (Period (arm32 10 2))
    [(5, Invoked 1); (0, Invoked 1); (0, Invoked 1)] = 3 /\
  CallsPerPeriod (arm32 10 2) = 2.
Proof.
  split; [exact three_in_one_period_reachable | split; reflexivity].
Qed.

(** Two calls per four ticks, constructed two ticks before the counter
    wraps: four ticks later, with the counter at 2, three calls are let
    through on one tick. *)
Lemma three_on_one_tick_reachable :
  reachable (arm32 4 2) (MkLimiter 0 2 0 None)
    (MkWorld 4294967298 []
       [(4294967298, Invoked 1); (4294967298, Invoked 1);
        (4294967298, Invoked 1)]).
Proof.
  apply (reach_call_or_drop (MkFn 1%nat tt) (MkLimiter 1 2 0 None)
           (MkWorld 4294967298 []
              [(4294967298, Invoked 1); (4294967298, Invoked 1)]) true);
    [|reflexivity].
  apply (reach_call_or_drop (MkFn 1%nat tt) (MkLimiter 1 0 0 None)
           (MkWorld 4294967298 [] [(4294967298, Invoked 1)]) true);
    [|reflexivity].
  apply (reach_call_or_drop (MkFn 1%nat tt) (MkLimiter 2 4294967294 0 None)
           (MkWorld 4294967298 [] []) true); [|reflexivity].
  apply (reach_elapse (RateLimiter (arm32 4 2) (MkWorld 4294967294 [] []))
           (MkWorld 4294967294 [] []) 4); [|lia].
  apply reach_new. split; [cbn; lia | reflexivity].
Qed.

(** C3, amended: when [CallsPerPeriod] divides [Period], the calls let
    through by [CallOrDrop] and [Call] in any window of [Period] ticks number
    at most twice [CallsPerPeriod]: the tokens of a full bucket and the
    tokens gained during the window.  This holds in every run from
    construction, whenever the limiter was constructed, also after the tick
    counter has wrapped and where the arithmetic of the refill overflows. *)
Theorem granted_per_window (I : Instantiation) s w from :
  wf_inst I -> 0 < Period I -> 0 < CallsPerPeriod I ->
  Period I mod CallsPerPeriod I = 0 ->
  reachable I s w ->
  granted_in from (Period I) (trace w) <= 2 * CallsPerPeriod I.
Proof.
  intros WF HP HC Hdiv Hs.
  destruct (reachable_steady I WF HP HC Hdiv from (Period I) ltac:(lia)
              s w Hs) as (_ & _ & _ & [_ Hw]).
  cbv zeta in Hw. unfold wrap_credit_cap in Hw.
  set (n := granted_in from (Period I) (trace w)) in *.
  destruct (Z_le_gt_dec n (2 * CallsPerPeriod I)) as [|Hgt]; [assumption|].
  exfalso.
  assert ((2 * CallsPerPeriod I + 1) * Period I <= n * Period I)
    by (apply Z.mul_le_mono_nonneg_r; lia).
  nia.
Qed.

Lemma granted_per_window_witness :
  granted_in 4294967298 (Period (arm32 4 2))
    [(4294967298, Invoked 1); (4294967298, Invoked 1);
     (4294967298, Invoked 1)]
  <= 2 * CallsPerPeriod (arm32 4 2).
Proof.
  apply (granted_per_window (arm32 4 2) (MkLimiter 0 2 0 None)
           (MkWorld 4294967298 []
              [(4294967298, Invoked 1); (4294967298, Invoked 1);
               (4294967298, Invoked 1)]) 4294967298).
  - unfold wf_inst; cbn; lia.
  - cbn; lia.
  - cbn; lia.
  - reflexivity.
  - exact three_on_one_tick_reachable.
Defined.

(** The bound is reached: a limiter of two calls per ten ticks, left alone
    for four ticks, lets through four calls in the ten ticks from tick 4. *)
Example four_granted_in_one_period :
  reachable (arm32 10 2) (MkLimiter 0 10 0 None)
    (MkWorld 10 []
       [(10, Invoked 1); (5, Invoked 1); (4, Invoked 1); (4, Invoked 1)]) /\
  granted_in 4 (Period (arm32 10 2))
    [(10, Invoked 1); (5, Invoked 1); (4, Invoked 1); (4, Invoked 1)] = 4.
Proof.
  split; [|reflexivity].
  apply (reach_call_or_drop (MkFn 1%nat tt) (MkLimiter 0 5 0 None)
           (MkWorld 10 [] [(5, Invoked 1); (4, Invoked 1); (4, Invoked 1)])
           true); [|reflexivity].
  apply (reach_elapse (MkLimiter 0 5 0 None)
           (MkWorld 5 [] [(5, Invoked 1); (4, Invoked 1); (4, Invoked 1)]) 5);
    [|lia].
  apply (reach_call_or_drop (MkFn 1%nat tt) (MkLimiter 0 0 0 None)
           (MkWorld 5 [] [(4, Invoked 1); (4, Invoked 1)]) true);
    [|reflexivity].
  apply (reach_elapse (MkLimiter 0 0 0 None)
           (MkWorld 4 [] [(4, Invoked 1); (4, Invoked 1)]) 1); [|lia].
  apply (reach_call_or_drop (MkFn 1%nat tt) (MkLimiter 1 0 0 None)
           (MkWorld 4 [] [(4, Invoked 1)]) true); [|reflexivity].
  apply (reach_call_or_drop (MkFn 1%nat tt) (MkLimiter 2 0 0 None)
           (MkWorld 4 [] []) true); [|reflexivity].
  apply (reach_elapse (RateLimiter (arm32 10 2) (MkWorld 0 [] []))
           (MkWorld 0 [] []) 4); [|lia].
  apply reach_new. split; [cbn; lia | reflexivity].
Qed.

(** Without the divisibility the bound fails: with ten calls per three
    ticks a refill one tick after the last credits [1 * 10 / 3 = 3] tokens
    and moves [last_bucket_update_] on by [3 * 3 / 10 = 0] ticks, so the next
    refill on the same tick credits three more.  Every call on that tick is
    let through and leaves the limiter as it found it. *)
Example rounding_credits_again (tr : list (Z * Event)) :
  CallOrDrop (arm32 3 10) (MkFn 1%nat tt) (MkLimiter 9 0 0 None)
    (MkWorld 1 [] tr)
  = Done true (MkLimiter 9 0 0 None) (MkWorld 1 [] ((1, Invoked 1) :: tr)).
Proof. reflexivity. Qed.

(** Nor is it enough that [CallsPerPeriod] be less than [Period]: with
    three calls per five ticks a refill two ticks after the last credits
    [2 * 3 / 5 = 1] token and moves [last_bucket_update_] on by
    [1 * 5 / 3 = 1] tick only, so that a caller gains a token on every tick.
    Seven calls are let through in the five ticks from tick 1. *)
Example seven_granted_in_one_period :
  reachable (arm32 5 3) (MkLimiter 0 4 0 None)
    (MkWorld 5 []
       [(5, Invoked 1); (4, Invoked 1); (3, Invoked 1); (2, Invoked 1);
        (1, Invoked 1); (1, Invoked 1); (1, Invoked 1)]) /\
  granted_in 1 (Period (arm32 5 3))
    [(5, Invoked 1); (4, Invoked 1); (3, Invoked 1); (2, Invoked 1);
     (1, Invoked 1); (1, Invoked 1); (1, Invoked 1)] = 7 /\
  2 * CallsPerPeriod (arm32 5 3) = 6.
Proof.
  split; [|split; reflexivity].
  apply (reach_call_or_drop (MkFn 1%nat tt) (MkLimiter 0 3 0 None)
           (MkWorld 5 []
              [(4, Invoked 1); (3, Invoked 1); (2, Invoked 1);
               (1, Invoked 1); (1, Invoked 1); (1, Invoked 1)]) true);
    [|reflexivity].
  apply (reach_elapse (MkLimiter 0 3 0 None)
           (MkWorld 4 []
              [(4, Invoked 1); (3, Invoked 1); (2, Invoked 1);
               (1, Invoked 1); (1, Invoked 1); (1, Invoked 1)]) 1); [|lia].
  apply (reach_call_or_drop (MkFn 1%nat tt) (MkLimiter 0 2 0 None)
           (MkWorld 4 []
              [(3, Invoked 1); (2, Invoked 1); (1, Invoked 1);
               (1, Invoked 1); (1, Invoked 1)]) true);
    [|reflexivity].
  apply (reach_elapse (MkLimiter 0 2 0 None)
           (MkWorld 3 []
              [(3, Invoked 1); (2, Invoked 1); (1, Invoked 1);
               (1, Invoked 1); (1, Invoked 1)]) 1); [|lia].
  apply (reach_call_or_drop (MkFn 1%nat tt) (MkLimiter 0 1 0 None)
           (MkWorld 3 []
              [(2, Invoked 1); (1, Invoked 1); (1, Invoked 1);
               (1, Invoked 1)]) true);
    [|reflexivity].
  apply (reach_elapse (MkLimiter 0 1 0 None)
           (MkWorld 2 []
              [(2, Invoked 1); (1, Invoked 1); (1, Invoked 1);
               (1, Invoked 1)]) 1); [|lia].
  apply (reach_call_or_drop (MkFn 1%nat tt) (MkLimiter 0 0 0 None)
           (MkWorld 2 [] [(1, Invoked 1); (1, Invoked 1); (1, Invoked 1)]) true);
    [|reflexivity].
  apply (reach_elapse (MkLimiter 0 0 0 None)
           (MkWorld 1 [] [(1, Invoked 1); (1, Invoked 1); (1, Invoked 1)]) 1); [|lia].
  apply (reach_call_or_drop (MkFn 1%nat tt) (MkLimiter 1 0 0 None)
           (MkWorld 1 [] [(1, Invoked 1); (1, Invoked 1)]) true);
    [|reflexivity].
  apply (reach_call_or_drop (MkFn 1%nat tt) (MkLimiter 2 0 0 None)
           (MkWorld 1 [] [(1, Invoked 1)]) true);
    [|reflexivity].
  apply (reach_call_or_drop (MkFn 1%nat tt) (MkLimiter 3 0 0 None)
           (MkWorld 1 [] []) true);
    [|reflexivity].
  apply (reach_elapse (RateLimiter (arm32 5 3) (MkWorld 0 [] []))
           (MkWorld 0 [] []) 1); [|lia].
  apply reach_new. split; [cbn; lia | reflexivity].
Qed.

(** ** The scenario of the documentation *)

(** Five calls per 1000 ticks, with a callback registered.  Starting full,
    five calls at once are let through; the sixth is rejected and
    [dropped_calls_] becomes 1; after 200 ticks a seventh is let through, the
    callback having run with argument 1, and the bucket is empty again. *)
Example five_per_1000 :
  let I := arm32 1000 5 in
  let fn := MkFn 1%nat tt in
  let s0 := SetDroppedCallCallback (Some 9%nat) (RateLimiter I (MkWorld 0 [] [])) in
  exists s5 w5,
    (exists s1 w1 s2 w2 s3 w3 s4 w4,
       CallOrDrop I fn s0 (MkWorld 0 [] []) = Done true s1 w1 /\
       CallOrDrop I fn s1 w1 = Done true s2 w2 /\
       CallOrDrop I fn s2 w2 = Done true s3 w3 /\
       CallOrDrop I fn s3 w3 = Done true s4 w4 /\
       CallOrDrop I fn s4 w4 = Done true s5 w5) /\
    CallOrDrop I fn s5 w5
      = Done false (MkLimiter 0 0 1 (Some 9%nat)) (log Rejected w5) /\
    CallOrDrop I fn (MkLimiter 0 0 1 (Some 9%nat)) (elapse 200 (log Rejected w5))
      = Done true (MkLimiter 0 200 0 (Some 9%nat))
          (MkWorld 200 []
             ((200, Invoked 1) :: (200, DroppedCallback 9 1)
                :: trace (log Rejected w5))).
Proof.
  cbv zeta. do 2 eexists. split; [|split].
  - do 8 eexists. repeat split; reflexivity.
  - reflexivity.
  - reflexivity.
Qed.

(** * Further properties of the code *)

(** ** Elapsed time, in general *)

(** X1: for every state and every reading of the counter, [GetElapsedTime]
    is the distance on the counter from [last_bucket_update_] to [now],
    less one tick when the counter reads below [last_bucket_update_]; it is
    a value of [unsigned long], and below [ULONG_MAX] after a wrap. *)
Theorem GetElapsedTime_distance (I : Instantiation) s w :
  wf_inst I -> in_range I s ->
  GetElapsedTime I s w
  = wrap_distance I (last_bucket_update_ s) (TimeNow I w)
    - (if TimeNow I w <? last_bucket_update_ s then 1 else 0) /\
  0 <= GetElapsedTime I s w <= ULONG_MAX I /\
  (TimeNow I w < last_bucket_update_ s -> GetElapsedTime I s w < ULONG_MAX I).
Proof.
  intros WF Hr.
  pose proof (GetElapsedTime_range I WF s w) as He.
  pose proof (millis_range I WF w) as Hn.
  split; [|split].
  - destruct (Z.ltb_spec (TimeNow I w) (last_bucket_update_ s)) as [Hlt | Hle].
    + destruct (GetElapsedTime_wrapped I WF s w Hr Hlt) as [_ <-]. ring.
    + destruct (GetElapsedTime_not_wrapped I WF s w Hr Hle) as [_ <-]. ring.
  - unfold ULONG_MAX. lia.
  - intros Hlt. destruct (GetElapsedTime_wrapped I WF s w Hr Hlt) as [-> _].
    unfold TimeNow in *. destruct Hr as (_ & Hl & _). lia.
Qed.

Lemma GetElapsedTime_distance_witness :
  GetElapsedTime (avr 1000 5) (MkLimiter 0 4294967000 0 None)
    (MkWorld 4294967500 [] [])
  = wrap_distance (avr 1000 5) 4294967000
      (TimeNow (avr 1000 5) (MkWorld 4294967500 [] []))
    - (if TimeNow (avr 1000 5) (MkWorld 4294967500 [] []) <? 4294967000
       then 1 else 0).
Proof.
  apply (GetElapsedTime_distance (avr 1000 5) (MkLimiter 0 4294967000 0 None)
           (MkWorld 4294967500 [] [])).
  - unfold wf_inst; cbn; lia.
  - unfold in_range; cbn; lia.
Defined.

(** ** The refill, away from overflow *)

(** X2: when the product [elapsed_time * CallsPerPeriod] is a value of
    [unsigned long], its quotient by [Period] a value of [unsigned int] and
    the sum with the bucket a value of [unsigned long], a refill is defined,
    the bucket becomes [min (bucket_ + new_tokens) CallsPerPeriod], the drop
    count and the callback are kept, and [last_bucket_update_] moves towards
    [now] by [new_tokens * Period / CallsPerPeriod] ticks on the counter,
    never past it, also when the addition wraps. *)
Theorem UpdateBucket_without_overflow (I : Instantiation) s w :
  wf_inst I -> 0 < Period I -> 0 < CallsPerPeriod I -> in_range I s ->
  GetElapsedTime I s w * CallsPerPeriod I < 2 ^ ULONG_BITS I ->
  GetElapsedTime I s w * CallsPerPeriod I / Period I < 2 ^ UINT_BITS I ->
  bucket_ s + GetElapsedTime I s w * CallsPerPeriod I / Period I
    < 2 ^ ULONG_BITS I ->
  exists s',
    UpdateBucket I s w = Some s' /\
    bucket_ s' =
      Z.min (bucket_ s + GetElapsedTime I s w * CallsPerPeriod I / Period I)
            (CallsPerPeriod I) /\
    dropped_calls_ s' = dropped_calls_ s /\
    dropped_callback_ s' = dropped_callback_ s /\
    0 <= GetElapsedTime I s w * CallsPerPeriod I / Period I * Period I
         / CallsPerPeriod I
      <= GetElapsedTime I s w /\
    wrap_distance I (last_bucket_update_ s') (TimeNow I w)
    = wrap_distance I (last_bucket_update_ s) (TimeNow I w)
      - GetElapsedTime I s w * CallsPerPeriod I / Period I * Period I
        / CallsPerPeriod I.
Proof.
  intros WF HP HC Hr Hmul Hquot Hsum.
  pose proof (GetElapsedTime_range I WF s w) as He.
  pose proof (GetElapsedTime_le_distance I WF s w Hr) as Hdist.
  pose proof (ulong_modulus_pos I WF) as Hm.
  set (e := GetElapsedTime I s w) in *.
  set (n := e * CallsPerPeriod I / Period I) in *.
  assert (Hn0 : 0 <= n) by (apply Z.div_pos; nia).
  assert (HnP : n * Period I <= e * CallsPerPeriod I).
  { unfold n. rewrite Z.mul_comm. apply Z.mul_div_le. lia. }
  set (a := n * Period I / CallsPerPeriod I).
  assert (Ha : 0 <= a <= e).
  { split; [apply Z.div_pos; nia|].
    apply Z.div_le_upper_bound; [lia|]. nia. }
  eexists. split; [|split; [|split; [|split; [|split]]]].
  - apply (UpdateBucket_exact I s w WF HP HC Hr n); auto.
  - reflexivity.
  - reflexivity.
  - reflexivity.
  - exact Ha.
  - cbn [last_bucket_update_]. fold a.
    unfold wrap_distance in *. unfold to_ulong.
    rewrite Zminus_mod_idemp_r.
    replace (TimeNow I w - (last_bucket_update_ s + a))
      with ((TimeNow I w - last_bucket_update_ s) - a) by ring.
    rewrite <- Zminus_mod_idemp_l.
    pose proof (Z.mod_pos_bound (TimeNow I w - last_bucket_update_ s) _ Hm).
    apply Z.mod_small. lia.
Qed.

Lemma UpdateBucket_without_overflow_witness :
  exists s',
    UpdateBucket (arm32 1000 5) (MkLimiter 0 4294967196 2 None)
      (MkWorld 4294967496 [] []) = Some s' /\
    bucket_ s' = 1 /\
    dropped_calls_ s' = 2 /\
    dropped_callback_ s' = None /\
    0 <= 200 <= 299 /\
    wrap_distance (arm32 1000 5) (last_bucket_update_ s')
      (TimeNow (arm32 1000 5) (MkWorld 4294967496 [] []))
    = 300 - 200.
Proof.
  exact (UpdateBucket_without_overflow (arm32 1000 5)
           (MkLimiter 0 4294967196 2 None) (MkWorld 4294967496 [] [])
           ltac:(unfold wf_inst; cbn; lia) ltac:(cbn; lia) ltac:(cbn; lia)
           ltac:(unfold in_range; cbn; lia)
           ltac:(vm_compute; reflexivity) ltac:(vm_compute; reflexivity)
           ltac:(vm_compute; reflexivity)).
Defined.

(** X3: a refill takes no token away.  When the tokens a refill can credit
    at most, [min UINT_MAX (ULONG_MAX / Period)], fit on top of a full bucket
    in an [unsigned long], the bucket after a refill is at least the bucket
    before, and a full bucket stays full. *)
Theorem UpdateBucket_keeps_tokens (I : Instantiation) s w s' :
  wf_inst I -> in_range I s -> bucket_bounded I s ->
  CallsPerPeriod I + Z.min (UINT_MAX I) (ULONG_MAX I / Period I)
    < 2 ^ ULONG_BITS I ->
  UpdateBucket I s w = Some s' ->
  bucket_ s <= bucket_ s' /\
  (bucket_ s = CallsPerPeriod I -> bucket_ s' = CallsPerPeriod I).
Proof.
  intros WF Hr Hb Hfit E.
  pose proof (UpdateBucket_bounded I WF _ _ _ E) as Hb'.
  apply UpdateBucket_Some in E as (HP & HC & Eb & _). cbv zeta in Eb.
  assert (HP' : 0 < Period I) by (unfold wf_inst in WF; lia).
  set (q := to_ulong I (GetElapsedTime I s w * CallsPerPeriod I) / Period I) in *.
  pose proof (to_ulong_range I WF (GetElapsedTime I s w * CallsPerPeriod I)) as Hu.
  assert (Hq : 0 <= q <= ULONG_MAX I / Period I).
  { split; [apply Z.div_pos; lia|].
    apply Z.div_le_mono; [lia|]. unfold ULONG_MAX. lia. }
  pose proof (to_uint_range I WF q) as Hn.
  pose proof (to_uint_le I WF q (proj1 Hq)) as Hnq.
  unfold bucket_bounded in *. unfold UINT_MAX in Hfit.
  rewrite (to_ulong_small I) in Eb by lia.
  rewrite min_is_Zmin in Eb. lia.
Qed.

Lemma UpdateBucket_keeps_tokens_witness :
  bucket_ (MkLimiter 3 0 0 None) <= bucket_ (MkLimiter 4 200 0 None).
Proof.
  apply (UpdateBucket_keeps_tokens (avr 1000 5) (MkLimiter 3 0 0 None)
           (MkWorld 250 [] []) (MkLimiter 4 200 0 None)).
  - unfold wf_inst; cbn; lia.
  - unfold in_range; cbn; lia.
  - unfold bucket_bounded; cbn; lia.
  - vm_compute. reflexivity.
  - reflexivity.
Defined.

(** Where they do not fit, a refill can: [RateLimiter<1,4294967295>] with a
    full bucket loses a token to the refill one tick after the last. *)
Example UpdateBucket_wraps_full_bucket :
  UpdateBucket (arm32 1 4294967295) (MkLimiter 4294967295 0 0 None)
    (MkWorld 1 [] [])
  = Some (MkLimiter 4294967294 1 0 None).
Proof. vm_compute. reflexivity. Qed.

(** X4: refilling twice on one tick is refilling once.  When
    [CallsPerPeriod] divides [Period], before any wrap or overflow, the
    state a refill returns is left as it is by a second refill on the same
    tick: polling the limiter does not create tokens. *)
Theorem UpdateBucket_twice (I : Instantiation) s w s1 :
  wf_inst I -> 0 < Period I -> 0 < CallsPerPeriod I ->
  Period I mod CallsPerPeriod I = 0 ->
  in_range I s -> bucket_bounded I s -> timely s w ->
  no_overflow_until I (ticks w) ->
  UpdateBucket I s w = Some s1 ->
  UpdateBucket I s1 w = Some s1.
Proof.
  intros WF HP HC Hdiv Hr Hb Ht Hno E.
  pose proof (UpdateBucket_in_range I WF _ _ _ E Hr) as Hr1.
  pose proof (UpdateBucket_bounded I WF _ _ _ E) as Hb1.
  destruct (UpdateBucket_credit I WF HP HC Hdiv (ticks w) Hno s w Hr Hb Ht)
    as (s1' & E' & Hl & Hcr & Hcap); [lia|].
  rewrite E in E'. injection E' as <-.
  pose proof (horizon_fits_ulong I HC (ticks w) Hno) as HTu.
  destruct Ht as [Hl0 _].
  assert (Enow : TimeNow I w = ticks w)
    by (apply (millis_before_wrap I HC (ticks w) Hno); lia).
  destruct (GetElapsedTime_not_wrapped I WF s1 w Hr1) as [Ee _]; [lia|].
  rewrite Enow in Ee.
  (* what is left of the elapsed time is worth less than a token *)
  unfold credit, credit_cap in Hcap. unfold bucket_bounded in Hb1.
  assert (Hsmall : GetElapsedTime I s1 w * CallsPerPeriod I < Period I).
  { apply UpdateBucket_Some in E as (_ & _ & Eb & El & _). cbv zeta in Eb, El.
    rewrite Ee.
    destruct (GetElapsedTime_not_wrapped I WF s w Hr) as [Ee0 _]; [lia|].
    rewrite Enow in Ee0.
    destruct Hno as [Hmul Hquot].
    set (e := GetElapsedTime I s w) in *.
    assert (He : 0 <= e <= ticks w) by lia.
    assert (Hprod : 0 <= e * CallsPerPeriod I < 2 ^ ULONG_BITS I) by nia.
    rewrite (to_ulong_small I (e * CallsPerPeriod I)) in El by lia.
    set (n := e * CallsPerPeriod I / Period I) in *.
    assert (HnT : n <= ticks w * CallsPerPeriod I / Period I)
      by (apply Z.div_le_mono; [lia | nia]).
    assert (Hn0 : 0 <= n) by (apply Z.div_pos; lia).
    pose proof (uint_le_ulong I WF) as Hiu.
    rewrite (to_uint_small I n) in El by lia.
    destruct (refill_arithmetic (Period I) (CallsPerPeriod I) e 0
                HP HC Hdiv (proj1 He) (Z.le_refl 0) n eq_refl)
      as (Eadv & Hadv & _ & _).
    assert (HnP : n * Period I <= e * CallsPerPeriod I)
      by (unfold n; rewrite Z.mul_comm; apply Z.mul_div_le; lia).
    rewrite (to_ulong_small I (n * Period I)) in El by nia.
    rewrite Eadv in El. rewrite (to_ulong_small I) in El by lia.
    rewrite El.
    replace (ticks w - (last_bucket_update_ s + n * (Period I / CallsPerPeriod I)))
      with (e - n * (Period I / CallsPerPeriod I)) by lia.
    apply Z.div_exact in Hdiv; [|lia].
    pose proof (Z.mul_succ_div_gt (e * CallsPerPeriod I) (Period I) HP).
    fold n in H. nia. }
  pose proof (GetElapsedTime_range I WF s1 w) as He1.
  assert (Hn1 : GetElapsedTime I s1 w * CallsPerPeriod I / Period I = 0)
    by (apply Z.div_small; nia).
  pose proof (ulong_modulus_pos I WF) as Hm.
  pose proof (uint_modulus_pos I WF) as Hm'.
  rewrite (UpdateBucket_exact I s1 w WF HP HC Hr1 0).
  - rewrite Z.add_0_r, Z.mul_0_l, Z.div_0_l, Z.add_0_r by lia.
    rewrite (to_ulong_small I) by apply Hr1.
    rewrite Z.min_l by lia. destruct s1; reflexivity.
  - symmetry. exact Hn1.
  - unfold wf_inst in WF. lia.
  - lia.
  - destruct Hr1 as (Hbr & _). lia.
Qed.

Lemma UpdateBucket_twice_witness :
  UpdateBucket (arm32 1000 5) (MkLimiter 2 400 0 None) (MkWorld 450 [] [])
  = Some (MkLimiter 2 400 0 None).
Proof.
  apply (UpdateBucket_twice (arm32 1000 5) (MkLimiter 0 0 0 None)
           (MkWorld 450 [] []) (MkLimiter 2 400 0 None)).
  - unfold wf_inst; cbn; lia.
  - cbn; lia.
  - cbn; lia.
  - reflexivity.
  - unfold in_range; cbn; lia.
  - unfold bucket_bounded; cbn; lia.
  - unfold timely; cbn. split; [lia | constructor].
  - unfold no_overflow_until; cbn. split; reflexivity.
  - reflexivity.
Defined.

(** ** The wait estimate *)

(** X5: [EstimateWaitTime] does not underflow.  For a non-zero
    [CallsPerPeriod] it returns a wait between 0 and [time_per_token =
    Period / CallsPerPeriod]; the wait and the elapsed time add up to
    [time_per_token] at least, and the wait is 0 exactly when the elapsed
    time has reached [time_per_token]. *)
Theorem EstimateWaitTime_bounds (I : Instantiation) s w :
  wf_inst I -> CallsPerPeriod I <> 0 ->
  exists d,
    EstimateWaitTime I s w = Some d /\
    0 <= d <= Period I / CallsPerPeriod I /\
    Period I / CallsPerPeriod I <= GetElapsedTime I s w + d /\
    (d = 0 <-> Period I / CallsPerPeriod I <= GetElapsedTime I s w).
Proof.
  intros WF HC.
  pose proof (GetElapsedTime_range I WF s w) as He.
  exists (Z.max (Period I / CallsPerPeriod I - GetElapsedTime I s w) 0).
  split; [apply EstimateWaitTime_value; assumption|].
  assert (0 <= Period I / CallsPerPeriod I)
    by (unfold wf_inst in WF; apply Z.div_pos; lia).
  lia.
Qed.

Lemma EstimateWaitTime_bounds_witness :
  exists d,
    EstimateWaitTime (avr 3000 3) (MkLimiter 0 100 0 None) (MkWorld 400 [] [])
      = Some d /\
    0 <= d <= Period (avr 3000 3) / CallsPerPeriod (avr 3000 3) /\
    Period (avr 3000 3) / CallsPerPeriod (avr 3000 3)
      <= GetElapsedTime (avr 3000 3) (MkLimiter 0 100 0 None)
           (MkWorld 400 [] []) + d /\
    (d = 0 <->
     Period (avr 3000 3) / CallsPerPeriod (avr 3000 3)
       <= GetElapsedTime (avr 3000 3) (MkLimiter 0 100 0 None)
            (MkWorld 400 [] [])).
Proof.
  apply (EstimateWaitTime_bounds (avr 3000 3) (MkLimiter 0 100 0 None)
           (MkWorld 400 [] [])).
  - unfold wf_inst; cbn; lia.
  - cbn; lia.
Defined.

(** ** The drop callback *)

(** X6: the pending drops are reported once.  What
    [MaybeCallDroppedCallCallback] logs is nothing, or one call of the
    registered callback with the drop count, which is then positive; it
    leaves a state on which a second flush does and logs nothing. *)
Theorem MaybeCallDroppedCallCallback_once s w :
  (trace (snd (MaybeCallDroppedCallCallback s w)) = trace w \/
   exists cb,
     dropped_callback_ s = Some cb /\ dropped_calls_ s > 0 /\
     dropped_calls_ (fst (MaybeCallDroppedCallCallback s w)) = 0 /\
     trace (snd (MaybeCallDroppedCallCallback s w))
     = (ticks w, DroppedCallback cb (dropped_calls_ s)) :: trace w) /\
  forall w',
    MaybeCallDroppedCallCallback (fst (MaybeCallDroppedCallCallback s w)) w'
    = (fst (MaybeCallDroppedCallCallback s w), w').
Proof.
  destruct (MaybeCallDroppedCallCallback_cases s w)
    as [(cb & Ecb & Hpos & E) | (Hno & E)]; rewrite E; cbn [fst snd]; split.
  - right. exists cb. repeat split; assumption.
  - intros w'. unfold MaybeCallDroppedCallCallback. cbn. rewrite Ecb.
    reflexivity.
  - left. reflexivity.
  - intros w'.
    destruct (MaybeCallDroppedCallCallback_cases s w')
      as [(cb & Ecb & Hpos & _) | (_ & E')]; [|exact E'].
    destruct Hno as [Hnone | Hz]; [congruence | lia].
Qed.

(** X7: [SetDroppedCallCallback] replaces the callback and touches nothing
    else: of two registrations the later one counts, drops counted before
    the registration are reported to the new callback by the next flush,
    and registering an empty function turns the report off and keeps the
    count. *)
Theorem SetDroppedCallCallback_replaces s :
  (forall cb0 cb,
     SetDroppedCallCallback cb (SetDroppedCallCallback cb0 s)
     = SetDroppedCallCallback cb s) /\
  (forall cb,
     bucket_ (SetDroppedCallCallback cb s) = bucket_ s /\
     last_bucket_update_ (SetDroppedCallCallback cb s) = last_bucket_update_ s /\
     dropped_calls_ (SetDroppedCallCallback cb s) = dropped_calls_ s /\
     dropped_callback_ (SetDroppedCallCallback cb s) = cb) /\
  (forall cb0 cb w,
     dropped_calls_ s > 0 ->
     MaybeCallDroppedCallCallback
       (SetDroppedCallCallback (Some cb) (SetDroppedCallCallback cb0 s)) w
     = (MkLimiter (bucket_ s) (last_bucket_update_ s) 0 (Some cb),
        log (DroppedCallback cb (dropped_calls_ s)) w)) /\
  (forall cb0 w,
     MaybeCallDroppedCallCallback
       (SetDroppedCallCallback None (SetDroppedCallCallback cb0 s)) w
     = (SetDroppedCallCallback None s, w)).
Proof.
  split; [reflexivity|]. split; [intros cb; repeat split|]. split.
  - intros cb0 cb w Hpos. unfold MaybeCallDroppedCallCallback. cbn.
    destruct (Z.gtb_spec (dropped_calls_ s) 0); [reflexivity | lia].
  - reflexivity.
Qed.

Lemma SetDroppedCallCallback_replaces_witness :
  MaybeCallDroppedCallCallback
    (SetDroppedCallCallback (Some 2%nat)
       (SetDroppedCallCallback (Some 1%nat) (MkLimiter 1 0 3 None)))
    (MkWorld 7 [] [])
  = (MkLimiter 1 0 0 (Some 2%nat),
     log (DroppedCallback 2 3) (MkWorld 7 [] [])).
Proof.
  apply (SetDroppedCallCallback_replaces (MkLimiter 1 0 3 None)).
  cbn. lia.
Defined.

(** ** [Call] and [CallOrDrop] *)

(** X8: with a token in the bucket after the refill, [Call] is [CallOrDrop]:
    whatever the fuel, it returns the result of [fn] in the state and the
    world in which [CallOrDrop] returns [true], without a call of [delay]. *)
Theorem Call_with_token (I : Instantiation) (R : Type) (fn : Fn R) fuel
    s w s1 :
  UpdateBucket I s w = Some s1 -> bucket_ s1 > 0 ->
  exists s',
    CallOrDrop I fn s w
      = Done true s' (invoke fn (snd (MaybeCallDroppedCallCallback s1 w))) /\
    Call I fuel fn s w
      = Done (fn_result fn) s'
          (invoke fn (snd (MaybeCallDroppedCallCallback s1 w))).
Proof.
  intros E Hpos. unfold CallOrDrop, Call. rewrite E.
  rewrite wait_for_token_ready by lia.
  destruct (Z.gtb_spec (bucket_ s1) 0); [|lia].
  destruct (MaybeCallDroppedCallCallback s1 w) as [s2 w2].
  exists (take_token I s2). split; reflexivity.
Qed.

Lemma Call_with_token_witness :
  exists s',
    CallOrDrop (arm32 1000 5) (MkFn 1%nat 42) (MkLimiter 2 0 0 None)
      (MkWorld 0 [] [])
      = Done true s'
          (invoke (MkFn 1%nat 42)
             (snd (MaybeCallDroppedCallCallback (MkLimiter 2 0 0 None)
                     (MkWorld 0 [] [])))) /\
    Call (arm32 1000 5) 0 (MkFn 1%nat 42) (MkLimiter 2 0 0 None)
      (MkWorld 0 [] [])
      = Done 42 s'
          (invoke (MkFn 1%nat 42)
             (snd (MaybeCallDroppedCallCallback (MkLimiter 2 0 0 None)
                     (MkWorld 0 [] [])))).
Proof.
  apply (Call_with_token (arm32 1000 5) Z (MkFn 1%nat 42) 0
           (MkLimiter 2 0 0 None) (MkWorld 0 [] []) (MkLimiter 2 0 0 None)).
  - reflexivity.
  - cbn. lia.
Defined.

(** X9: [CallOrDrop] on an empty bucket, away from overflow, lets the call
    through exactly when the elapsed time is worth a token:
    [Period <= elapsed_time * CallsPerPeriod]. *)
Theorem CallOrDrop_empty_bucket (I : Instantiation) (R : Type) (fn : Fn R) s w :
  wf_inst I -> 0 < Period I -> 0 < CallsPerPeriod I ->
  in_range I s -> bucket_ s = 0 ->
  GetElapsedTime I s w * CallsPerPeriod I < 2 ^ ULONG_BITS I ->
  GetElapsedTime I s w * CallsPerPeriod I / Period I < 2 ^ UINT_BITS I ->
  exists b s' w',
    CallOrDrop I fn s w = Done b s' w' /\
    (b = true <-> Period I <= GetElapsedTime I s w * CallsPerPeriod I).
Proof.
  intros WF HP HC Hr Hz Hmul Hquot.
  pose proof (GetElapsedTime_range I WF s w) as He.
  pose proof (uint_le_ulong I WF) as Hiu.
  set (e := GetElapsedTime I s w) in *.
  set (n := e * CallsPerPeriod I / Period I) in *.
  assert (Hn0 : 0 <= n) by (apply Z.div_pos; nia).
  unfold CallOrDrop.
  rewrite (UpdateBucket_exact I s w WF HP HC Hr n) by (fold e; lia).
  cbn [bucket_]. rewrite Hz, Z.add_0_l.
  destruct (Z.gtb_spec (Z.min n (CallsPerPeriod I)) 0) as [Hpos | Hnone].
  - destruct (MaybeCallDroppedCallCallback _ w) as [s2 w2].
    do 3 eexists. split; [reflexivity|]. split; [intros _|reflexivity].
    assert (1 <= n) by lia.
    destruct (Z_le_gt_dec (Period I) (e * CallsPerPeriod I)); [assumption|].
    unfold n in H. rewrite Z.div_small in H by nia. lia.
  - do 3 eexists. split; [reflexivity|]. split; [discriminate|].
    intros Hworth. exfalso.
    assert (1 <= n) by (apply Z.div_le_lower_bound; lia). lia.
Qed.

Lemma CallOrDrop_empty_bucket_witness :
  exists b s' w',
    CallOrDrop (avr 1000 5) (MkFn 1%nat tt) (MkLimiter 0 300 0 None)
      (MkWorld 500 [] []) = Done b s' w' /\
    (b = true <->
     Period (avr 1000 5)
     <= GetElapsedTime (avr 1000 5) (MkLimiter 0 300 0 None)
          (MkWorld 500 [] []) * CallsPerPeriod (avr 1000 5)).
Proof.
  apply (CallOrDrop_empty_bucket (avr 1000 5) unit (MkFn 1%nat tt)
           (MkLimiter 0 300 0 None) (MkWorld 500 [] [])).
  - unfold wf_inst; cbn; lia.
  - cbn; lia.
  - cbn; lia.
  - unfold in_range; cbn; lia.
  - reflexivity.
  - vm_compute. reflexivity.
  - vm_compute. reflexivity.
Defined.

(** ** Bursts *)

Lemma rejections_log_Rejected w :
  rejections (trace (log Rejected w)) = 1 + rejections (trace w).
Proof. reflexivity. Qed.

Section Burst.

Variable I : Instantiation.
Hypothesis WF : wf_inst I.
Hypothesis HP : 0 < Period I.
Hypothesis HC : 0 < CallsPerPeriod I.

(** One call on the tick of the last refill: it goes through if there is a
    token, which it takes, and is dropped if there is none; the state stays
    one of the tick of the last refill. *)
Lemma CallOrDrop_same_tick (R : Type) (fn : Fn R) s w :
  in_range I s -> bucket_bounded I s ->
  TimeNow I w = last_bucket_update_ s ->
  exists s' w',
    CallOrDrop I fn s w = Done (bucket_ s >? 0) s' w' /\
    in_range I s' /\ bucket_bounded I s' /\
    TimeNow I w' = last_bucket_update_ s' /\
    bucket_ s' = Z.max (bucket_ s - 1) 0 /\
    invocations (trace w')
      = invocations (trace w) + (if bucket_ s >? 0 then 1 else 0) /\
    rejections (trace w')
      = rejections (trace w) + (if bucket_ s >? 0 then 0 else 1).
Proof.
  intros Hr Hb Hnow.
  unfold CallOrDrop.
  rewrite (UpdateBucket_same_tick I s w WF HP HC Hr (proj2 Hb) Hnow).
  unfold bucket_bounded in Hb.
  destruct (Z.gtb_spec (bucket_ s) 0) as [Hpos | Hnone].
  - destruct (MaybeCallDroppedCallCallback s w) as [s2 w2] eqn:E2.
    pose proof (MaybeCallDroppedCallCallback_frame _ _ _ _ E2)
      as (Eb & El & _ & Et & _ & Ei).
    pose proof (MaybeCallDroppedCallCallback_rejections _ _ _ _ E2) as Ej.
    pose proof (MaybeCallDroppedCallCallback_in_range I WF _ _ _ _ E2 Hr) as Hr2.
    assert (Hb2 : bucket_bounded I s2) by (unfold bucket_bounded; lia).
    pose proof (take_token_bucket I WF s2 Hb2 ltac:(lia)) as Et2.
    exists (take_token I s2), (invoke fn w2).
    split; [reflexivity|]. split; [now apply take_token_in_range|].
    split; [unfold bucket_bounded; lia|].
    split; [unfold TimeNow, millis in *; cbn; rewrite Et; congruence|].
    split; [lia|].
    split; [rewrite invocations_invoke; lia|].
    cbn. lia.
  - exists (count_drop I s), (log Rejected w).
    split; [reflexivity|]. split; [now apply count_drop_in_range|].
    split; [unfold bucket_bounded; cbn; lia|].
    split; [exact Hnow|]. split; [cbn; lia|].
    split; [cbn; lia|]. rewrite rejections_log_Rejected. lia.
Qed.

End Burst.

(** [n] calls in a row on the tick of the last refill. *)
Lemma CallOrDrop_times_same_tick (I : Instantiation) (R : Type) (fn : Fn R) n :
  forall s w,
    wf_inst I -> 0 < Period I -> 0 < CallsPerPeriod I ->
    in_range I s -> bucket_bounded I s ->
    TimeNow I w = last_bucket_update_ s ->
    exists s' w',
      CallOrDrop_times I n fn s w
        = Done (repeat true (Z.to_nat (Z.min (Z.of_nat n) (bucket_ s)))
                ++ repeat false
                     (n - Z.to_nat (Z.min (Z.of_nat n) (bucket_ s)))) s' w' /\
      bucket_ s' = bucket_ s - Z.min (Z.of_nat n) (bucket_ s) /\
      last_bucket_update_ s' = last_bucket_update_ s /\
      ticks w' = ticks w /\
      invocations (trace w')
        = invocations (trace w) + Z.min (Z.of_nat n) (bucket_ s) /\
      rejections (trace w')
        = rejections (trace w) + (Z.of_nat n - Z.min (Z.of_nat n) (bucket_ s)).
Proof.
  induction n as [|n IH]; intros s w WF HP HC Hr Hb Hnow.
  - exists s, w. unfold bucket_bounded in Hb.
    replace (Z.min (Z.of_nat 0) (bucket_ s)) with 0 by lia.
    cbn. repeat split; lia.
  - destruct (CallOrDrop_same_tick I WF HP HC R fn s w Hr Hb Hnow)
      as (s1 & w1 & E1 & Hr1 & Hb1 & Hnow1 & Eb1 & Ei1 & Ej1).
    destruct (IH s1 w1 WF HP HC Hr1 Hb1 Hnow1)
      as (s' & w' & E & Eb & El & Et & Ei & Ej).
    exists s', w'. cbn [CallOrDrop_times]. rewrite E1, E.
    unfold bucket_bounded in Hb, Hb1.
    assert (Elast : last_bucket_update_ s1 = last_bucket_update_ s /\
                    ticks w1 = ticks w).
    { unfold CallOrDrop in E1.
      rewrite (UpdateBucket_same_tick I s w WF HP HC Hr (proj2 Hb) Hnow) in E1.
      destruct (bucket_ s >? 0).
      - destruct (MaybeCallDroppedCallCallback s w) as [s2 w2] eqn:E2.
        pose proof (MaybeCallDroppedCallCallback_frame _ _ _ _ E2)
          as (_ & El2 & _ & Et2 & _).
        injection E1 as <- <-. cbn. split; assumption.
      - injection E1 as <- <-. split; reflexivity. }
    destruct Elast as [El1 Et1].
    destruct (Z.gtb_spec (bucket_ s) 0) as [Hpos | Hnone].
    + replace (Z.min (Z.of_nat (S n)) (bucket_ s))
        with (1 + Z.min (Z.of_nat n) (bucket_ s1)) by lia.
      rewrite Z2Nat.inj_add by lia.
      change (Z.to_nat 1) with 1%nat.
      split; [|repeat split; lia].
      replace (S n - (1 + Z.to_nat (Z.min (Z.of_nat n) (bucket_ s1))))%nat
        with (n - Z.to_nat (Z.min (Z.of_nat n) (bucket_ s1)))%nat by lia.
      reflexivity.
    + assert (Ez : bucket_ s = 0) by lia.
      assert (Ez1 : bucket_ s1 = 0) by lia.
      rewrite Ez in *. rewrite Ez1 in *.
      replace (Z.min (Z.of_nat (S n)) 0) with 0 by lia.
      replace (Z.min (Z.of_nat n) 0) with 0 in * by lia.
      change (Z.to_nat 0) with 0%nat in *.
      split; [|repeat split; lia].
      rewrite !Nat.sub_0_r. reflexivity.
Qed.

(** X10: a burst.  Of [n] calls of [CallOrDrop] in a row on the tick of the
    last refill, the first [min n bucket_] are let through and all the
    others are dropped: [fn] runs [min n bucket_] times and the bucket
    loses as many tokens. *)
Theorem CallOrDrop_burst (I : Instantiation) (R : Type) (fn : Fn R) n s w :
    wf_inst I -> 0 < Period I -> 0 < CallsPerPeriod I ->
    in_range I s -> bucket_bounded I s ->
    TimeNow I w = last_bucket_update_ s ->
    exists s' w',
      CallOrDrop_times I n fn s w
        = Done (repeat true (Z.to_nat (Z.min (Z.of_nat n) (bucket_ s)))
                ++ repeat false
                     (n - Z.to_nat (Z.min (Z.of_nat n) (bucket_ s)))) s' w' /\
      bucket_ s' = bucket_ s - Z.min (Z.of_nat n) (bucket_ s) /\
      last_bucket_update_ s' = last_bucket_update_ s /\
      ticks w' = ticks w /\
      invocations (trace w')
        = invocations (trace w) + Z.min (Z.of_nat n) (bucket_ s) /\
      rejections (trace w')
        = rejections (trace w) + (Z.of_nat n - Z.min (Z.of_nat n) (bucket_ s)).
Proof. apply CallOrDrop_times_same_tick. Qed.

Lemma CallOrDrop_burst_witness :
  exists s' w',
    CallOrDrop_times (avr 1000 3) 5 (MkFn 1%nat tt) (MkLimiter 3 70 0 None)
      (MkWorld 70 [] [])
      = Done [true; true; true; false; false] s' w' /\
    bucket_ s' = 3 - 3 /\
    last_bucket_update_ s' = 70 /\
    ticks w' = 70 /\
    invocations (trace w') = 0 + 3 /\
    rejections (trace w') = 0 + (5 - 3).
Proof.
  exact (CallOrDrop_burst (avr 1000 3) unit (MkFn 1%nat tt) 5
           (MkLimiter 3 70 0 None) (MkWorld 70 [] [])
           ltac:(unfold wf_inst; cbn; lia) ltac:(cbn; lia) ltac:(cbn; lia)
           ltac:(unfold in_range; cbn; lia)
           ltac:(unfold bucket_bounded; cbn; lia) eq_refl).
Defined.

(** X11: a limiter starts full, whatever the counter reads when it is
    constructed: of [n] calls of [CallOrDrop] made at once on the new
    limiter the first [min n CallsPerPeriod] are let through and the others
    dropped. *)
Theorem RateLimiter_starts_full (I : Instantiation) (R : Type) (fn : Fn R)
    n w :
  wf_inst I -> 0 < Period I -> 0 < CallsPerPeriod I ->
  exists s' w',
    CallOrDrop_times I n fn (RateLimiter I w) w
      = Done (repeat true (Z.to_nat (Z.min (Z.of_nat n) (CallsPerPeriod I)))
              ++ repeat false
                   (n - Z.to_nat (Z.min (Z.of_nat n) (CallsPerPeriod I))))
          s' w' /\
    bucket_ s' = CallsPerPeriod I - Z.min (Z.of_nat n) (CallsPerPeriod I) /\
    invocations (trace w')
      = invocations (trace w) + Z.min (Z.of_nat n) (CallsPerPeriod I).
Proof.
  intros WF HP HC.
  destruct (CallOrDrop_times_same_tick I R fn n (RateLimiter I w) w WF HP HC)
    as (s' & w' & E & Eb & _ & _ & Ei & _).
  - unfold in_range, RateLimiter. cbn.
    pose proof (millis_range I WF w). pose proof (uint_modulus_pos I WF).
    unfold wf_inst in WF. lia.
  - unfold bucket_bounded, RateLimiter. cbn. lia.
  - reflexivity.
  - exists s', w'. cbn [RateLimiter bucket_] in *. auto.
Qed.

Lemma RateLimiter_starts_full_witness :
  exists s' w',
    CallOrDrop_times (arm32 1000 5) 6 (MkFn 1%nat tt)
      (RateLimiter (arm32 1000 5) (MkWorld 4294967999 [] []))
      (MkWorld 4294967999 [] [])
      = Done [true; true; true; true; true; false] s' w' /\
    bucket_ s' = 5 - 5 /\
    invocations (trace w') = 0 + 5.
Proof.
  exact (RateLimiter_starts_full (arm32 1000 5) unit (MkFn 1%nat tt) 6
           (MkWorld 4294967999 [] [])
           ltac:(unfold wf_inst; cbn; lia) ltac:(cbn; lia) ltac:(cbn; lia)).
Defined.

(** ** The pace of [Call] *)

Section Pace.

Variable I : Instantiation.
Hypothesis WF : wf_inst I.
Hypothesis HP : 0 < Period I.
Hypothesis HC : 0 < CallsPerPeriod I.
Hypothesis Hdiv : Period I mod CallsPerPeriod I = 0.

(** [Call] on a bucket emptied on this very tick, with a [delay] that
    sleeps as long as asked: it returns [Period / CallsPerPeriod] ticks
    later, after one suspension, and leaves the bucket as it found it, empty
    and refilled on the tick of the return. *)
Lemma Call_drained (R : Type) (fn : Fn R) s w :
  in_range I s -> bucket_ s = 0 ->
  TimeNow I w = last_bucket_update_ s ->
  oversleep w = [] ->
  TimeNow I w + Period I / CallsPerPeriod I < 2 ^ ULONG_BITS I ->
  exists s' w',
    Call I 1 fn s w = Done (fn_result fn) s' w' /\
    in_range I s' /\ bucket_ s' = 0 /\
    TimeNow I w' = last_bucket_update_ s' /\
    oversleep w' = [] /\
    ticks w' = ticks w + Period I / CallsPerPeriod I /\
    TimeNow I w' = TimeNow I w + Period I / CallsPerPeriod I /\
    invocations (trace w') = invocations (trace w) + 1.
Proof.
  intros Hr Hz Hnow Hos Hfit.
  pose proof (uint_modulus_pos I WF) as Hm'.
  pose proof (uint_le_ulong I WF) as Hiu.
  assert (H2 : 2 ^ 1 <= 2 ^ UINT_BITS I)
    by (apply Z.pow_le_mono_r; unfold wf_inst in WF; lia).
  change (2 ^ 1) with 2 in H2.
  assert (Hb : bucket_bounded I s) by (unfold bucket_bounded; lia).
  pose proof (GetElapsedTime_now I WF s w Hr Hnow) as Ee.
  pose proof (Hdiv) as Hk. apply Z.div_exact in Hk; [|lia].
  set (tpt := Period I / CallsPerPeriod I) in *.
  assert (Htpt : 1 <= tpt) by nia.
  unfold Call.
  rewrite (UpdateBucket_same_tick I s w WF HP HC Hr (proj2 Hb) Hnow).
  rewrite (wait_for_token_round I 0 s w Hz).
  rewrite (EstimateWaitTime_value I WF s w) by lia. fold tpt. rewrite Ee.
  replace (Z.max (tpt - 0) 0) with tpt by lia.
  assert (Eo : Z.of_nat (hd O (oversleep w)) = 0) by (rewrite Hos; reflexivity).
  pose proof (TimeNow_delay I WF tpt w ltac:(lia)) as Enow.
  rewrite Eo, Z.add_0_r in Enow. specialize (Enow Hfit).
  assert (Ee1 : GetElapsedTime I s (delay tpt w) = tpt).
  { destruct (GetElapsedTime_not_wrapped I WF s (delay tpt w) Hr) as [-> _]; lia. }
  assert (En : tpt * CallsPerPeriod I / Period I = 1).
  { replace (tpt * CallsPerPeriod I) with (Period I) by lia.
    apply Z.div_same. lia. }
  assert (HPr : Period I < 2 ^ ULONG_BITS I) by (unfold wf_inst in WF; lia).
  assert (E1 : UpdateBucket I s (delay tpt w)
               = Some (MkLimiter 1 (last_bucket_update_ s + tpt)
                         (dropped_calls_ s) (dropped_callback_ s))).
  { rewrite (UpdateBucket_exact I s (delay tpt w) WF HP HC Hr 1).
    - rewrite Hz, Z.add_0_l, Z.mul_1_l. fold tpt.
      rewrite Z.min_l by lia.
      destruct Hr as (Hbr & Hlr & Hdr).
      rewrite (to_ulong_small I) by lia. reflexivity.
    - rewrite Ee1, En. reflexivity.
    - rewrite Ee1. lia.
    - lia.
    - lia. }
  rewrite E1.
  destruct Hr as (Hbr & Hlr & Hdr).
  set (s1 := MkLimiter 1 (last_bucket_update_ s + tpt) (dropped_calls_ s)
               (dropped_callback_ s)).
  assert (Hr1 : in_range I s1) by (unfold in_range, s1; cbn; lia).
  change (wait_for_token I 0 s1 (delay tpt w)) with (Done tt s1 (delay tpt w)).
  destruct (MaybeCallDroppedCallCallback s1 (delay tpt w)) as [s2 w2] eqn:E2.
  pose proof (MaybeCallDroppedCallCallback_frame _ _ _ _ E2)
    as (Eb & El & _ & Et & Eos & Ei).
  pose proof (MaybeCallDroppedCallCallback_in_range I WF _ _ _ _ E2 Hr1) as Hr2.
  assert (Hb2 : bucket_bounded I s2) by (unfold bucket_bounded; cbn in Eb; lia).
  pose proof (take_token_bucket I WF s2 Hb2 ltac:(cbn in Eb; lia)) as Ebt.
  exists (take_token I s2), (invoke fn w2).
  split; [rewrite E2; reflexivity|]. split; [now apply take_token_in_range|].
  split; [cbn in Eb; lia|].
  cbn [s1 last_bucket_update_ bucket_] in *.
  assert (Eticks : ticks w2 = ticks w + tpt).
  { rewrite Et.
    change (ticks (delay tpt w))
      with (ticks w + tpt + Z.of_nat (hd O (oversleep w))).
    lia. }
  assert (Enow2 : TimeNow I (invoke fn w2) = TimeNow I w + tpt).
  { rewrite <- Enow. unfold TimeNow, millis. cbn [invoke log ticks].
    rewrite Et. reflexivity. }
  split; [cbn [take_token last_bucket_update_]; lia|].
  split; [cbn [invoke log oversleep]; rewrite Eos;
          change (oversleep (delay tpt w)) with (tl (oversleep w));
          rewrite Hos; reflexivity|].
  split; [exact Eticks|]. split; [exact Enow2|].
  rewrite invocations_invoke, Ei.
  change (invocations (trace (delay tpt w))) with (invocations (trace w)).
  lia.
Qed.

End Pace.

(** [n] calls of [Call] in a row from such a state. *)
Lemma Call_times_drained (I : Instantiation) (R : Type) (fn : Fn R) n :
  forall s w,
    wf_inst I -> 0 < Period I -> 0 < CallsPerPeriod I ->
    Period I mod CallsPerPeriod I = 0 ->
    in_range I s -> bucket_ s = 0 ->
    TimeNow I w = last_bucket_update_ s ->
    oversleep w = [] ->
    TimeNow I w + Z.of_nat n * (Period I / CallsPerPeriod I)
      < 2 ^ ULONG_BITS I ->
    exists s' w',
      Call_times I n 1 fn s w = Done (repeat (fn_result fn) n) s' w' /\
      bucket_ s' = 0 /\
      ticks w' = ticks w + Z.of_nat n * (Period I / CallsPerPeriod I) /\
      invocations (trace w') = invocations (trace w) + Z.of_nat n.
Proof.
  induction n as [|n IH]; intros s w WF HP HC Hdiv Hr Hz Hnow Hos Hfit.
  - exists s, w. cbn. repeat split; lia.
  - assert (Htpt : 0 <= Period I / CallsPerPeriod I)
      by (apply Z.div_pos; lia).
    destruct (Call_drained I WF HP HC Hdiv R fn s w Hr Hz Hnow Hos)
      as (s1 & w1 & E1 & Hr1 & Hz1 & Hnow1 & Hos1 & Et1 & En1 & Ei1); [nia|].
    destruct (IH s1 w1 WF HP HC Hdiv Hr1 Hz1 Hnow1 Hos1)
      as (s' & w' & E & Ez & Et & Ei); [lia|].
    exists s', w'. cbn [Call_times]. rewrite E1, E.
    repeat split; try assumption; lia.
Qed.

(** X12: the pace of [Call].  When [CallsPerPeriod] divides [Period] and
    [delay] sleeps as long as asked, [n] calls of [Call] in a row on a bucket
    emptied on this tick each wait one suspension and return the result of
    [fn]; together they take [n * (Period / CallsPerPeriod)] ticks, as long
    as the counter does not wrap on the way. *)
Theorem Call_pace (I : Instantiation) (R : Type) (fn : Fn R) n s w :
  wf_inst I -> 0 < Period I -> 0 < CallsPerPeriod I ->
  Period I mod CallsPerPeriod I = 0 ->
  in_range I s -> bucket_ s = 0 ->
  TimeNow I w = last_bucket_update_ s ->
  oversleep w = [] ->
  TimeNow I w + Z.of_nat n * (Period I / CallsPerPeriod I)
    < 2 ^ ULONG_BITS I ->
  exists s' w',
    Call_times I n 1 fn s w = Done (repeat (fn_result fn) n) s' w' /\
    bucket_ s' = 0 /\
    ticks w' = ticks w + Z.of_nat n * (Period I / CallsPerPeriod I) /\
    invocations (trace w') = invocations (trace w) + Z.of_nat n.
Proof. apply Call_times_drained. Qed.

Lemma Call_pace_witness :
  exists s' w',
    Call_times (arm32 3000 3) 4 1 (MkFn 1%nat 42) (MkLimiter 0 500 0 None)
      (MkWorld 500 [] [])
      = Done [42; 42; 42; 42] s' w' /\
    bucket_ s' = 0 /\
    ticks w' = 500 + 4 * 1000 /\
    invocations (trace w') = 0 + 4.
Proof.
  exact (Call_pace (arm32 3000 3) Z (MkFn 1%nat 42) 4
           (MkLimiter 0 500 0 None) (MkWorld 500 [] [])
           ltac:(unfold wf_inst; cbn; lia) ltac:(cbn; lia) ltac:(cbn; lia)
           eq_refl ltac:(unfold in_range; cbn; lia) eq_refl eq_refl eq_refl
           ltac:(vm_compute; reflexivity)).
Defined.

(** ** What the callback is called with *)

Section CallbackArguments.

Variable I : Instantiation.
Hypothesis WF : wf_inst I.

Lemma callbacks_positive_flush s w s' w' :
  in_range I s -> callbacks_positive I (trace w) ->
  MaybeCallDroppedCallCallback s w = (s', w') ->
  callbacks_positive I (trace w').
Proof.
  intros (_ & _ & Hd) Hw E.
  destruct (MaybeCallDroppedCallCallback_cases s w)
    as [(cb & _ & Hpos & E') | (_ & E')];
    rewrite E' in E; injection E as <- <-; [|exact Hw].
  constructor; [cbn; lia | exact Hw].
Qed.

Lemma callbacks_positive_delays ds tr :
  only_delays ds -> callbacks_positive I tr -> callbacks_positive I (ds ++ tr).
Proof.
  intros Hds Htr. apply Forall_app. split; [|exact Htr].
  eapply Forall_impl; [|exact Hds].
  intros [t e] [d Hd]. cbn in *. subst e. cbn. trivial.
Qed.

Lemma reachable_callbacks_positive s w :
  reachable I s w -> callbacks_positive I (trace w).
Proof.
  induction 1 as [w [_ Hw] | s w d _ IH _ | s w cb _ IH | s w s' _ IH E
                 | R fn s w b s' w' Hs IH E | R fn fuel s w r s' w' Hs IH E].
  - rewrite Hw. constructor.
  - exact IH.
  - exact IH.
  - exact IH.
  - pose proof (reachable_invariant I WF _ _ Hs) as [Hr _].
    apply CallOrDrop_Done in E as (s1 & E1 & [(_ & _ & s2 & w2 & E2 & -> & ->)
                                            | (_ & _ & -> & ->)]).
    + pose proof (UpdateBucket_in_range I WF _ _ _ E1 Hr) as Hr1.
      constructor; [cbn; trivial|].
      exact (callbacks_positive_flush s1 w s2 w2 Hr1 IH E2).
    + constructor; [cbn; trivial | exact IH].
  - pose proof (reachable_invariant I WF _ _ Hs) as [Hr Hb].
    apply Call_Done in E as (s1 & s2 & w2 & s3 & w3 & E1 & E2 & E3 & _ & -> & ->).
    pose proof (UpdateBucket_in_range I WF _ _ _ E1 Hr) as Hr1.
    pose proof (UpdateBucket_bounded I WF _ _ _ E1) as Hb1.
    pose proof (wait_for_token_world I WF _ _ _ _ _ _ E2) as (_ & ds & Etr & Hds).
    pose proof (wait_for_token_Done I WF _ _ _ _ _ _ E2 Hr1 Hb1) as (Hr2 & _).
    constructor; [cbn; trivial|].
    apply (callbacks_positive_flush s2 w2 s3 w3 Hr2); [|exact E3].
    rewrite Etr. now apply callbacks_positive_delays.
Qed.

End CallbackArguments.

(** X13: the drop callback is never called with zero.  In the log of every
    run, every call of the callback was made with a count between 1 and
    [UINT_MAX]. *)
Theorem callback_never_called_with_zero (I : Instantiation) s w cb n t :
  wf_inst I -> reachable I s w ->
  In (t, DroppedCallback cb n) (trace w) ->
  0 < n <= UINT_MAX I.
Proof.
  intros WF Hs Hin.
  pose proof (reachable_callbacks_positive I WF s w Hs) as H.
  unfold callbacks_positive in H. rewrite Forall_forall in H.
  specialize (H _ Hin). cbn in H. unfold UINT_MAX. lia.
Qed.

(** A run where the callback is called: after the run of
    [one_drop_then_call_reachable] a callback is registered, one more call
    is rejected and, ten ticks later, one is let through. *)
Lemma callback_run_reachable :
  reachable (arm32 10 1) (MkLimiter 0 20 0 (Some 9%nat))
    (MkWorld 20 []
       [(20, Invoked 1); (20, DroppedCallback 9 2); (10, Rejected);
        (10, Invoked 1); (0, Rejected); (0, Invoked 1)]).
Proof.
  apply (reach_call_or_drop (MkFn 1%nat tt)
           (MkLimiter 0 10 2 (Some 9%nat))
           (MkWorld 20 []
              [(10, Rejected); (10, Invoked 1); (0, Rejected); (0, Invoked 1)])
           true);
    [|reflexivity].
  apply (reach_elapse (MkLimiter 0 10 2 (Some 9%nat))
           (MkWorld 10 []
              [(10, Rejected); (10, Invoked 1); (0, Rejected); (0, Invoked 1)])
           10); [|lia].
  apply (reach_call_or_drop (MkFn 1%nat tt)
           (MkLimiter 0 10 1 (Some 9%nat))
           (MkWorld 10 [] [(10, Invoked 1); (0, Rejected); (0, Invoked 1)])
           false);
    [|reflexivity].
  apply (reach_callback (MkLimiter 0 10 1 None)
           (MkWorld 10 [] [(10, Invoked 1); (0, Rejected); (0, Invoked 1)])
           (Some 9%nat)).
  exact one_drop_then_call_reachable.
Qed.

Lemma callback_never_called_with_zero_witness :
  0 < 2 <= UINT_MAX (arm32 10 1).
Proof.
  apply (callback_never_called_with_zero (arm32 10 1)
           (MkLimiter 0 20 0 (Some 9%nat))
           (MkWorld 20 []
              [(20, Invoked 1); (20, DroppedCallback 9 2); (10, Rejected);
               (10, Invoked 1); (0, Rejected); (0, Invoked 1)])
           9%nat 2 20).
  - unfold wf_inst; cbn; lia.
  - exact callback_run_reachable.
  - right; left; reflexivity.
Defined.

(** ** Refills, early and late *)

(** X14: a refill before a token's worth of time has elapsed changes
    nothing: with [elapsed_time * CallsPerPeriod < Period] the bucket, the
    drop count and [last_bucket_update_] are as before, so that the time
    elapsed so far still counts towards the next token. *)
Theorem UpdateBucket_too_early (I : Instantiation) s w :
  wf_inst I -> 0 < Period I -> 0 < CallsPerPeriod I ->
  in_range I s -> bucket_bounded I s ->
  GetElapsedTime I s w * CallsPerPeriod I < Period I ->
  UpdateBucket I s w = Some s.
Proof.
  intros WF HP HC Hr Hb Hshort.
  pose proof (GetElapsedTime_range I WF s w) as He.
  pose proof (uint_modulus_pos I WF) as Hm'.
  assert (HPr : Period I < 2 ^ ULONG_BITS I) by (unfold wf_inst in WF; lia).
  assert (En : GetElapsedTime I s w * CallsPerPeriod I / Period I = 0)
    by (apply Z.div_small; nia).
  destruct Hr as (Hbr & Hlr & Hdr). unfold bucket_bounded in Hb.
  rewrite (UpdateBucket_exact I s w WF HP HC (conj Hbr (conj Hlr Hdr)) 0).
  - rewrite Z.add_0_r, Z.mul_0_l, Z.div_0_l, Z.add_0_r by lia.
    rewrite (to_ulong_small I) by lia.
    rewrite Z.min_l by lia. destruct s; reflexivity.
  - symmetry. exact En.
  - lia.
  - lia.
  - lia.
Qed.

Lemma UpdateBucket_too_early_witness :
  UpdateBucket (avr 1000 5) (MkLimiter 2 100 1 None) (MkWorld 299 [] [])
  = Some (MkLimiter 2 100 1 None).
Proof.
  apply (UpdateBucket_too_early (avr 1000 5) (MkLimiter 2 100 1 None)
           (MkWorld 299 [] [])).
  - unfold wf_inst; cbn; lia.
  - cbn; lia.
  - cbn; lia.
  - unfold in_range; cbn; lia.
  - unfold bucket_bounded; cbn; lia.
  - vm_compute. reflexivity.
Defined.

(** X15: after a period without a call the bucket is full.  Away from
    overflow, a refill with [Period <= elapsed_time] leaves
    [CallsPerPeriod] tokens, whatever the bucket held. *)
Theorem UpdateBucket_full_after_period (I : Instantiation) s w :
  wf_inst I -> 0 < Period I -> 0 < CallsPerPeriod I ->
  in_range I s -> bucket_bounded I s ->
  GetElapsedTime I s w * CallsPerPeriod I < 2 ^ ULONG_BITS I ->
  GetElapsedTime I s w * CallsPerPeriod I / Period I < 2 ^ UINT_BITS I ->
  bucket_ s + GetElapsedTime I s w * CallsPerPeriod I / Period I
    < 2 ^ ULONG_BITS I ->
  Period I <= GetElapsedTime I s w ->
  exists s', UpdateBucket I s w = Some s' /\ bucket_ s' = CallsPerPeriod I.
Proof.
  intros WF HP HC Hr Hb Hmul Hquot Hsum Hlong.
  eexists. split.
  - apply (UpdateBucket_exact I s w WF HP HC Hr _ eq_refl); assumption.
  - cbn [bucket_]. unfold bucket_bounded in Hb.
    assert (CallsPerPeriod I
            <= GetElapsedTime I s w * CallsPerPeriod I / Period I).
    { apply Z.div_le_lower_bound; [lia|]. nia. }
    lia.
Qed.

Lemma UpdateBucket_full_after_period_witness :
  exists s',
    UpdateBucket (avr 1000 5) (MkLimiter 1 100 0 None) (MkWorld 1234 [] [])
      = Some s' /\
    bucket_ s' = CallsPerPeriod (avr 1000 5).
Proof.
  apply (UpdateBucket_full_after_period (avr 1000 5) (MkLimiter 1 100 0 None)
           (MkWorld 1234 [] [])).
  - unfold wf_inst; cbn; lia.
  - cbn; lia.
  - cbn; lia.
  - unfold in_range; cbn; lia.
  - unfold bucket_bounded; cbn; lia.
  - vm_compute. reflexivity.
  - vm_compute. reflexivity.
  - vm_compute. reflexivity.
  - vm_compute. discriminate.
Defined.

(** ** Windows of any length *)

Section Windows.

Variable I : Instantiation.
Hypothesis WF : wf_inst I.
Hypothesis HP : 0 < Period I.
Hypothesis HC : 0 < CallsPerPeriod I.
Hypothesis Hdiv : Period I mod CallsPerPeriod I = 0.

Variable T : Z.
Hypothesis HT : no_overflow_until I T.

Variables from len : Z.
Hypothesis Hlen : 1 <= len.


(** Time passing, with no call let through, keeps the window paid. *)
Lemma paced_for_later s w w' :
  paced_for I from len s w ->
  ticks w <= ticks w' ->
  granted_in from len (trace w') = granted_in from len (trace w) ->
  Forall (fun e => fst e <= ticks w') (trace w') ->
  paced_for I from len s w'.
Proof.
  intros (Hr & Hb & [Hl Hst] & [Hw1 Hw2]) Hle En Hst'.
  split; [assumption|]. split; [assumption|].
  split; [split; [lia | assumption]|].
  unfold window_paid_for in *. cbv zeta in *. rewrite En.
  split; [|exact Hw2].
  intros Hin.
  replace (ticks w') with (ticks w + (ticks w' - ticks w)) by ring.
  unfold capped_credit in *. rewrite (credit_later I).
  set (x := (ticks w' - ticks w) * CallsPerPeriod I).
  assert (Hx : 0 <= x) by (unfold x; nia).
  replace (ticks w + (ticks w' - ticks w) - from) with (ticks w' - from) by ring.
  destruct (Z_lt_le_dec (ticks w) from) as [Hbefore | Hopen].
  - rewrite (granted_in_before from len (trace w) (ticks w))
      by assumption.
    assert (0 <= Z.max 0 (ticks w' - from) * CallsPerPeriod I) by nia.
    lia.
  - specialize (Hw1 ltac:(lia)).
    rewrite Z.max_r in Hw1 by lia. rewrite Z.max_r by lia.
    replace ((ticks w' - from) * CallsPerPeriod I)
      with ((ticks w - from) * CallsPerPeriod I + x) by (unfold x; ring).
    lia.
Qed.

Lemma paced_for_refill s w :
  paced_for I from len s w -> ticks w <= T ->
  exists s1,
    UpdateBucket I s w = Some s1 /\
    paced_for I from len s1 w /\ credit I s1 (ticks w) <= credit_cap I.
Proof.
  intros (Hr & Hb & Ht & [Hw1 Hw2]) Hle.
  destruct (UpdateBucket_credit I WF HP HC Hdiv T HT s w Hr Hb Ht Hle) as (s1 & E & Hl & Hcr & Hcap).
  exists s1. split; [exact E|]. split; [|exact Hcap].
  split; [eapply UpdateBucket_in_range; eauto|].
  split; [eapply UpdateBucket_bounded; eauto|].
  destruct Ht as [Hl0 Hst].
  split; [split; [lia | assumption]|].
  unfold window_paid_for, capped_credit in *. cbv zeta in *.
  split; [|exact Hw2].
  intros Hin. specialize (Hw1 Hin). lia.
Qed.


(** Letting a call through is paid for with a token's worth of credit. *)
Lemma paced_for_grant (R : Type) (fn : Fn R) s w s' w' :
  paced_for I from len s w -> credit I s (ticks w) <= credit_cap I ->
  bucket_ s <> 0 ->
  MaybeCallDroppedCallCallback s w = (s', w') ->
  paced_for I from len (take_token I s') (invoke fn w').
Proof.
  intros (Hr & Hb & [Hl Hst] & [Hw1 Hw2]) Hcap Hnz E.
  pose proof (MaybeCallDroppedCallCallback_frame _ _ _ _ E)
    as (Eb & El & _ & Et & _ & _).
  pose proof (MaybeCallDroppedCallCallback_in_range I WF _ _ _ _ E Hr) as Hr'.
  pose proof (MaybeCallDroppedCallCallback_granted from _ _ _ _ len E)
    as [En Hst'].
  assert (Hb' : bucket_bounded I s')
    by (unfold bucket_bounded in *; rewrite Eb; exact Hb).
  assert (Hnz' : bucket_ s' <> 0) by (rewrite Eb; exact Hnz).
  assert (Ecr : credit I (take_token I s') (ticks w)
                = credit I s (ticks w) - Period I).
  { rewrite (credit_take_token I WF) by assumption.
    unfold credit. rewrite Eb, El. reflexivity. }
  assert (Hb'' : bucket_bounded I (take_token I s')).
  { unfold bucket_bounded in *. rewrite (take_token_bucket I WF); auto; lia. }
  assert (Ht'' : timely (take_token I s') (invoke fn w')).
  { split; cbn; [lia|]. constructor; [cbn; lia | auto]. }
  assert (Hcr0 : 0 <= credit I (take_token I s') (ticks w)).
  { replace (ticks w) with (ticks (invoke fn w')) by (cbn; lia).
    apply (credit_nonneg I HP); assumption. }
  split; [now apply take_token_in_range|].
  split; [assumption|]. split; [assumption|].
  unfold window_paid_for, capped_credit in *. cbv zeta in *.
  cbn [invoke log trace ticks]. rewrite Et.
  cbn [granted_in]. rewrite En, Ecr.
  pose proof (granted_in_nonneg from len (trace w)) as Hn0.
  destruct (Z.leb_spec from (ticks w)) as [Hopen | Hbefore];
    [destruct (Z.ltb_spec (ticks w) (from + len)) as [Hin | Hout]|];
    cbn [andb].
  - specialize (Hw1 Hin). rewrite Z.max_r in Hw1 by lia.
    assert (Hgo : (1 + granted_in from len (trace w)) * Period I
                  + (credit I s (ticks w) - Period I)
                  <= credit_cap I + (ticks w - from) * CallsPerPeriod I)
      by lia.
    split.
    + intros _. rewrite Z.max_r by lia. lia.
    + assert ((ticks w - from) * CallsPerPeriod I
              <= (len - 1) * CallsPerPeriod I)
        by (apply Z.mul_le_mono_nonneg_r; lia).
      lia.
  - split; [lia | exact Hw2].
  - rewrite (granted_in_before from len (trace w) (ticks w)) in *
      by assumption.
    split; [|exact Hw2]. intros _.
    assert (0 <= Z.max 0 (ticks w - from) * CallsPerPeriod I) by nia.
    lia.
Qed.

Lemma paced_for_reject s w :
  paced_for I from len s w -> paced_for I from len (count_drop I s) (log Rejected w).
Proof.
  intros (Hr & Hb & [Hl Hst] & Hw).
  split; [now apply count_drop_in_range|].
  split; [exact Hb|]. split; [|exact Hw].
  split; [exact Hl|]. constructor; [cbn; lia | exact Hst].
Qed.

(** The loop of [Call] lets time pass and refills: it keeps the window paid
    and ends right after a refill, or at once. *)
Lemma paced_for_wait fuel : forall s w u s' w',
  paced_for I from len s w -> credit I s (ticks w) <= credit_cap I ->
  wait_for_token I fuel s w = Done u s' w' ->
  ticks w' <= T ->
  paced_for I from len s' w' /\ credit I s' (ticks w') <= credit_cap I /\
  bucket_ s' <> 0.
Proof.
  induction fuel as [|fuel IH]; intros s w u s' w' Hp Hcap; cbn.
  - destruct (Z.eqb_spec (bucket_ s) 0); [discriminate|].
    intros [= _ <- <-]. auto.
  - destruct (Z.eqb_spec (bucket_ s) 0); [|intros [= _ <- <-]; auto].
    destruct (EstimateWaitTime I s w) as [d|] eqn:Ew; [|discriminate].
    apply (EstimateWaitTime_Some I WF) in Ew as [_ Ed].
    assert (Hd : 0 <= d) by lia.
    assert (Hp1 : paced_for I from len s (delay d w)).
    { apply (paced_for_later s w); auto.
      - cbn. lia.
      - destruct Hp as (_ & _ & [_ Hst] & _).
        constructor; [cbn; lia|].
        eapply Forall_impl; [|exact Hst]. cbn. intros; lia. }
    destruct (UpdateBucket I s (delay d w)) as [s1|] eqn:E; [|discriminate].
    intros Hw HT'.
    pose proof (wait_for_token_world I WF _ _ _ _ _ _ Hw) as [Hmono _].
    destruct (paced_for_refill s (delay d w) Hp1) as (s1' & E' & Hp1' & Hcap1);
      [lia|].
    rewrite E in E'. injection E' as <-.
    eapply IH; eauto.
Qed.

(** Before the horizon, every reachable state keeps every window paid. *)
Lemma reachable_paced_for s w :
  reachable I s w -> ticks w <= T -> paced_for I from len s w.
Proof.
  induction 1 as [w [Hw0 Hw] | s w d _ IH Hd | s w cb _ IH | s w s' _ IH E
                 | R fn s w b s' w' _ IH E | R fn fuel s w r s' w' _ IH E];
    intros Hle.
  - pose proof (horizon_fits_ulong I HC T HT) as HTu.
    assert (Em : millis I w = ticks w) by (apply (millis_before_wrap I HC T HT); lia).
    split; [|split; [|split]].
    + unfold in_range, RateLimiter. cbn.
      pose proof (uint_modulus_pos I WF). unfold wf_inst in WF. lia.
    + unfold bucket_bounded, RateLimiter. cbn. lia.
    + split; [cbn; lia|]. rewrite Hw. constructor.
    + unfold window_paid_for, capped_credit, credit_cap. cbv zeta. rewrite Hw. cbn.
      assert (0 <= Z.max 0 (ticks w - from) * CallsPerPeriod I) by nia.
      split; [intros _; lia | nia].
  - apply (paced_for_later s w).
    + apply IH. cbn in Hle. lia.
    + cbn. lia.
    + reflexivity.
    + cbn. cbn in Hle. specialize (IH ltac:(lia)).
      destruct IH as (_ & _ & [_ Hst] & _).
      eapply Forall_impl; [|exact Hst]. cbn. intros; lia.
  - exact (IH Hle).
  - destruct (paced_for_refill s w (IH Hle) Hle) as (s1 & E1 & Hp & _).
    congruence.
  - apply CallOrDrop_Done in E as (s1 & E1 & [(_ & Hpos & s2 & w2 & E2 & -> & ->)
                                            | (_ & _ & -> & ->)]).
    + pose proof (MaybeCallDroppedCallCallback_frame _ _ _ _ E2)
        as (_ & _ & _ & Et & _).
      assert (Hle0 : ticks w <= T) by (cbn in Hle; lia).
      destruct (paced_for_refill s w (IH Hle0) Hle0) as (s1' & E1' & Hp & Hcap).
      rewrite E1 in E1'. injection E1' as <-.
      apply (paced_for_grant R fn s1 w); auto. lia.
    + cbn in Hle.
      destruct (paced_for_refill s w (IH Hle) Hle) as (s1' & E1' & Hp & Hcap).
      rewrite E1 in E1'. injection E1' as <-.
      now apply paced_for_reject.
  - apply Call_Done in E as (s1 & s2 & w2 & s3 & w3 & E1 & E2 & E3 & _ & -> & ->).
    pose proof (MaybeCallDroppedCallCallback_frame _ _ _ _ E3)
      as (_ & _ & _ & Et & _).
    pose proof (wait_for_token_world I WF _ _ _ _ _ _ E2) as [Hmono _].
    cbn in Hle.
    assert (Hle0 : ticks w <= T) by lia.
    destruct (paced_for_refill s w (IH Hle0) Hle0) as (s1' & E1' & Hp & Hcap).
    rewrite E1 in E1'. injection E1' as <-.
    destruct (paced_for_wait _ _ _ _ _ _ Hp Hcap E2) as (Hp2 & Hcap2 & Hnz); [lia|].
    now apply (paced_for_grant R fn s2 w2).
Qed.

End Windows.

(** X16: the rate over any stretch of time.  When [CallsPerPeriod] divides
    [Period], before any wrap or overflow, the calls let through by
    [CallOrDrop] and [Call] in any [len] ticks in a row number at most
    [CallsPerPeriod], for the tokens of a full bucket, plus
    [((len - 1) * CallsPerPeriod + Period - 1) / Period], for the tokens
    gained meanwhile; on any one tick, at most [CallsPerPeriod]. *)
Theorem granted_per_interval (I : Instantiation) s w from len :
  wf_inst I -> 0 < Period I -> 0 < CallsPerPeriod I ->
  Period I mod CallsPerPeriod I = 0 ->
  1 <= len ->
  reachable I s w ->
  no_overflow_until I (ticks w) ->
  granted_in from len (trace w)
  <= CallsPerPeriod I
     + ((len - 1) * CallsPerPeriod I + Period I - 1) / Period I /\
  (len = 1 -> granted_in from len (trace w) <= CallsPerPeriod I).
Proof.
  intros WF HP HC Hdiv Hlen Hs Hno.
  destruct (reachable_paced_for I WF HP HC Hdiv (ticks w) Hno from len Hlen
              s w Hs) as (_ & _ & _ & [_ Hw]); [lia|].
  cbv zeta in Hw. unfold credit_cap in Hw.
  set (n := granted_in from len (trace w)) in *.
  assert (Hn : n <= (CallsPerPeriod I * Period I
                     + ((len - 1) * CallsPerPeriod I + Period I - 1))
                    / Period I)
    by (apply Z.div_le_lower_bound; lia).
  rewrite Z.div_add_l in Hn by lia.
  split; [exact Hn|].
  intros ->. replace ((1 - 1) * CallsPerPeriod I + Period I - 1)
    with (Period I - 1) in Hn by ring.
  rewrite Z.div_small in Hn by lia. lia.
Qed.

Lemma granted_per_interval_witness :
  granted_in 0 5 [(5, Invoked 1); (0, Invoked 1); (0, Invoked 1)]
  <= CallsPerPeriod (arm32 10 2)
     + ((5 - 1) * CallsPerPeriod (arm32 10 2) + Period (arm32 10 2) - 1)
       / Period (arm32 10 2) /\
  (5 = 1 ->
   granted_in 0 5 [(5, Invoked 1); (0, Invoked 1); (0, Invoked 1)]
   <= CallsPerPeriod (arm32 10 2)).
Proof.
  apply (granted_per_interval (arm32 10 2) (MkLimiter 0 5 0 None)
           (MkWorld 5 [] [(5, Invoked 1); (0, Invoked 1); (0, Invoked 1)])
           0 5).
  - unfold wf_inst; cbn; lia.
  - cbn; lia.
  - cbn; lia.
  - reflexivity.
  - lia.
  - exact three_in_one_period_reachable.
  - unfold no_overflow_until; cbn. split; reflexivity.
Defined.

(** ** Windows of any length, across wraps *)

(** X17: the rate over any stretch of time, wraps and overflows included.
    When [CallsPerPeriod] divides [Period], in every run from construction
    the calls let through by [CallOrDrop] and [Call] in any [len] ticks in a
    row number at most [CallsPerPeriod], for the tokens of a full bucket,
    plus [(len * CallsPerPeriod + Period - 1) / Period], for the tokens
    gained meanwhile and the tick [GetElapsedTime] leaves out at a wrap; on
    any one tick, at most [CallsPerPeriod + 1]. *)
Theorem granted_per_interval_across_wraps (I : Instantiation) s w from len :
  wf_inst I -> 0 < Period I -> 0 < CallsPerPeriod I ->
  Period I mod CallsPerPeriod I = 0 ->
  1 <= len ->
  reachable I s w ->
  granted_in from len (trace w)
  <= CallsPerPeriod I + (len * CallsPerPeriod I + Period I - 1) / Period I /\
  (len = 1 -> granted_in from len (trace w) <= CallsPerPeriod I + 1).
Proof.
  intros WF HP HC Hdiv Hlen Hs.
  destruct (reachable_steady I WF HP HC Hdiv from len Hlen s w Hs)
    as (_ & _ & _ & [_ Hw]).
  cbv zeta in Hw. unfold wrap_credit_cap in Hw.
  set (n := granted_in from len (trace w)) in *.
  assert (Hn : n <= (CallsPerPeriod I * Period I
                     + (len * CallsPerPeriod I + Period I - 1))
                    / Period I)
    by (apply Z.div_le_lower_bound; lia).
  rewrite Z.div_add_l in Hn by lia.
  split; [exact Hn|].
  intros ->.
  assert (Hk : Period I = CallsPerPeriod I * (Period I / CallsPerPeriod I))
    by (apply Z.div_exact; lia).
  assert (HCP : CallsPerPeriod I <= Period I).
  { set (k := Period I / CallsPerPeriod I) in *.
    assert (0 < k) by nia. nia. }
  assert ((1 * CallsPerPeriod I + Period I - 1) / Period I < 2)
    by (apply Z.div_lt_upper_bound; lia).
  lia.
Qed.

Lemma granted_per_interval_across_wraps_witness :
  granted_in 4294967298 1
    [(4294967298, Invoked 1); (4294967298, Invoked 1);
     (4294967298, Invoked 1)]
  <= CallsPerPeriod (arm32 4 2)
     + (1 * CallsPerPeriod (arm32 4 2) + Period (arm32 4 2) - 1)
       / Period (arm32 4 2) /\
  (1 = 1 ->
   granted_in 4294967298 1
     [(4294967298, Invoked 1); (4294967298, Invoked 1);
      (4294967298, Invoked 1)]
   <= CallsPerPeriod (arm32 4 2) + 1).
Proof.
  apply (granted_per_interval_across_wraps (arm32 4 2) (MkLimiter 0 2 0 None)
           (MkWorld 4294967298 []
              [(4294967298, Invoked 1); (4294967298, Invoked 1);
               (4294967298, Invoked 1)]) 4294967298 1).
  - unfold wf_inst; cbn; lia.
  - cbn; lia.
  - cbn; lia.
  - reflexivity.
  - lia.
  - exact three_on_one_tick_reachable.
Defined.

(** The bound of one tick is reached at a wrap: in the run above the
    limiter of two calls per four ticks lets three calls through on the tick
    on which the counter reads 2. *)
Example three_granted_on_one_tick :
  reachable (arm32 4 2) (MkLimiter 0 2 0 None)
    (MkWorld 4294967298 []
       [(4294967298, Invoked 1); (4294967298, Invoked 1);
        (4294967298, Invoked 1)]) /\
  granted_in 4294967298 1
    [(4294967298, Invoked 1); (4294967298, Invoked 1);
     (4294967298, Invoked 1)] = CallsPerPeriod (arm32 4 2) + 1.
Proof. split; [exact three_on_one_tick_reachable | reflexivity]. Qed.
